(** * JSON-schema validation, default population and validating proxies

    A shallow embedding of [ext/bg/js/json-schema.js] (classes
    [JsonSchemaProxyHandler], [JsonSchemaValidator], [JsonSchemaTraversalInfo],
    [JsonSchemaValidationError] and [JsonSchema]) together with the properties
    its specification states about it.

    Modelling conventions.
    - A JavaScript value is a tree ([Value]).  Arrays and plain objects carry
      the identity of the object they denote ([ref]), so that [===] on two
      containers can be told apart from structural equality.
    - A schema is itself a JavaScript object; the code reads its fields
      dynamically ([schema.type], [schema.required], ...) and so does the
      model ([prop]).
    - Numbers are the finite doubles, held as the rationals they are; [NaN]
      and the infinities are no values.  Comparisons, [Math.floor] and the
      integer test are exact on doubles; the quotient and the product of the
      [multipleOf] check are rounded as the engine rounds them
      ([roundDouble]).  The places where the code produces [NaN] or an
      infinity on model inputs (the [multipleOf] check, and the conversion
      of [undefined] to a number) are written out.
    - Objects are association lists of their own properties, in enumeration
      order.  Every object has the prototype [Object.prototype], which
      nothing modifies.  The model follows the prototype where the code
      looks up or assigns under a key it is given: [properties[property]]
      in [getPropertySchema], [target[property]] in the [get] trap, and the
      assignments [value[property] = ...], which under ["__proto__"] reach
      an accessor and create no property.  A function is no value of the
      model.  The length of a string is its number of characters.
    - Exceptions are explicit results; the mutable [JsonSchemaTraversalInfo]
      and the allocation of new objects are threaded as state.
    - Recursion through schemas is bounded by an explicit fuel argument;
      running out of fuel is a third kind of result, never confused with an
      exception, and the theorems say how much fuel is enough. *)

From Stdlib Require Import ZArith QArith Qround List String Ascii Bool Lia PeanoNat.
From Stdlib Require Import DecimalString.
Import ListNotations.

Local Open Scope string_scope.
Local Open Scope nat_scope.
Local Open Scope list_scope.

(** ** JavaScript values *)

Unset Elimination Schemes.

Inductive Value : Type :=
| VUndefined
| VNull
| VBool (b : bool)
| VNum (n : Q)
| VStr (s : string)
| VArr (ref : nat) (items : list Value)
| VObj (ref : nat) (props : list (string * Value)).

Set Elimination Schemes.

(** A property key as the code handles it: a string, a number used as an
    index (loop counters and the result of [parseInt]), or a symbol. *)
Inductive PropertyKey : Type :=
| PName (s : string)
| PIndex (n : nat)
| PSymbol (id : nat).

(** The first component of a path entry: [null], or a key. *)
Definition PathSeg : Type := option PropertyKey.

Definition PathEntry : Type := (PathSeg * Value)%type.

Fixpoint lookup (name : string) (props : list (string * Value)) : option Value :=
  match props with
  | [] => None
  | (k, v) :: rest => if String.eqb k name then Some v else lookup name rest
  end.

(** [o.name] for an own, string-named property; [undefined] when there is
    none. *)
Definition prop (o : Value) (name : string) : Value :=
  match o with
  | VObj _ props =>
      match lookup name props with
      | Some v => v
      | None => VUndefined
      end
  | _ => VUndefined
  end.

(** [schema === null || schema === undefined]: reading a field of such a
    value throws a [TypeError]. *)
Definition isNullish (v : Value) : bool :=
  match v with
  | VUndefined | VNull => true
  | _ => false
  end.

Definition string_of_nat (n : nat) : string :=
  NilEmpty.string_of_uint (Nat.to_uint n).

Definition isDigit (c : ascii) : bool :=
  let n := nat_of_ascii c in (48 <=? n) && (n <=? 57).

Fixpoint allDigits (s : string) : bool :=
  match s with
  | EmptyString => true
  | String c rest => isDigit c && allDigits rest
  end.

(** [/^\d+$/.test(property)] *)
Definition isDigitString (s : string) : bool :=
  match s with
  | EmptyString => false
  | _ => allDigits s
  end.

Fixpoint parseDigits (acc : nat) (s : string) : nat :=
  match s with
  | EmptyString => acc
  | String c rest => parseDigits (10 * acc + (nat_of_ascii c - 48)) rest
  end.

(** [parseInt(property, 10)] on a string of decimal digits. *)
Definition parseInt (s : string) : nat := parseDigits 0 s.

(** The index a string names as an array property: ["0"], ["1"], ... with no
    leading zero. *)
Definition canonicalIndex (s : string) : option nat :=
  if isDigitString s && String.eqb (string_of_nat (parseInt s)) s
  then Some (parseInt s)
  else None.

(** The string under which a key addresses a property of a plain object;
    a symbol addresses no string-named property. *)
Definition keyString (k : PropertyKey) : option string :=
  match k with
  | PName s => Some s
  | PIndex n => Some (string_of_nat n)
  | PSymbol _ => None
  end.

(** [o[k]] on a plain object. *)
Definition propAt (o : Value) (k : PropertyKey) : Value :=
  match keyString k with
  | Some s => prop o s
  | None => VUndefined
  end.

(** [a[k]] on the indexed elements of an array. *)
Definition itemAt (items : list Value) (k : PropertyKey) : Value :=
  match k with
  | PIndex n => nth n items VUndefined
  | PName s =>
      match canonicalIndex s with
      | Some n => nth n items VUndefined
      | None => VUndefined
      end
  | PSymbol _ => VUndefined
  end.

(** [value[k]] for the values of the model. *)
Definition member (value : Value) (k : PropertyKey) : Value :=
  match value with
  | VObj _ _ => propAt value k
  | VArr _ items => itemAt items k
  | _ => VUndefined
  end.

(** ** [JsonSchemaValidator]: inspection of values *)

Definition getValueType (value : Value) : string :=
  match value with
  | VUndefined => "undefined"
  | VNull => "null"
  | VBool _ => "boolean"
  | VNum _ => "number"
  | VStr _ => "string"
  | VArr _ _ => "array"
  | VObj _ _ => "object"
  end.

Definition isObject (value : Value) : bool :=
  match value with
  | VObj _ _ => true
  | _ => false
  end.

Definition isArray (value : Value) : bool :=
  match value with
  | VArr _ _ => true
  | _ => false
  end.

(** [value1 === value2]: primitives by value, arrays and objects by
    identity. *)
Definition valuesAreEqual (value1 value2 : Value) : bool :=
  match value1, value2 with
  | VUndefined, VUndefined => true
  | VNull, VNull => true
  | VBool a, VBool b => Bool.eqb a b
  | VNum a, VNum b => Qeq_bool a b
  | VStr a, VStr b => String.eqb a b
  | VArr r1 _, VArr r2 _ => Nat.eqb r1 r2
  | VObj r1 _, VObj r2 _ => Nat.eqb r1 r2
  | _, _ => false
  end.

Definition valuesAreEqualAny (value1 : Value) (valueList : list Value) : bool :=
  existsb (valuesAreEqual value1) valueList.

(** Deep, structural equality: what [valuesAreEqual] would be if it compared
    containers by content.  It ignores identities. *)
Fixpoint deepEqual (a b : Value) {struct a} : bool :=
  match a, b with
  | VUndefined, VUndefined => true
  | VNull, VNull => true
  | VBool x, VBool y => Bool.eqb x y
  | VNum x, VNum y => Qeq_bool x y
  | VStr x, VStr y => String.eqb x y
  | VArr _ xs, VArr _ ys =>
      (fix items (l : list Value) (m : list Value) {struct l} : bool :=
         match l, m with
         | [], [] => true
         | x :: l', y :: m' => deepEqual x y && items l' m'
         | _, _ => false
         end) xs ys
  | VObj _ xs, VObj _ ys =>
      (fix props (l : list (string * Value)) (m : list (string * Value))
           {struct l} : bool :=
         match l, m with
         | [], [] => true
         | (k, x) :: l', (k', y) :: m' =>
             String.eqb k k' && deepEqual x y && props l' m'
         | _, _ => false
         end) xs ys
  | _, _ => false
  end.

(** [Math.floor(value) === value].  [Math.floor] returns a number, so the
    strict comparison fails for every value that is not a number. *)
Definition floorIsSelf (value : Value) : bool :=
  match value with
  | VNum q => Qeq_bool (inject_Z (Qfloor q)) q
  | _ => false
  end.

Definition isValueType (value : Value) (type : string) (schemaType : Value) : bool :=
  valuesAreEqual (VStr type) schemaType
  || (valuesAreEqual schemaType (VStr "integer") && floorIsSelf value).

Definition isValueTypeAny (value : Value) (type : string) (schemaTypes : Value) : bool :=
  match schemaTypes with
  | VStr _ => isValueType value type schemaTypes
  | VArr _ types => existsb (isValueType value type) types
  | _ => true
  end.

(** ** [JsonSchemaValidator]: schema resolution *)

(** [JsonSchemaValidator.unconstrainedSchema], the frozen empty object.  The
    identity [0] is reserved for it. *)
Definition unconstrainedSchema : Value := VObj 0 [].

(** [Object.prototype], which every plain object inherits from.  The
    identity [3] is reserved for it.  Its own properties are functions and
    the accessor [__proto__]; a function is no value of the model, so none
    is listed.  None of its properties has a name the code reads off a
    schema: as a schema it asks nothing. *)
Definition objectPrototype : Value := VObj 3 [].

(** [properties[property]] on a plain object, as the engine looks it up: an
    own property, else what the object inherits from [Object.prototype].
    Under ["__proto__"] that is the prototype of the object
    ([Object.prototype], whose own prototype is [null]); under the other
    names of [Object.prototype] it is a function, which [isObject] rejects
    as it rejects [undefined]. *)
Definition propertyThrough (o : Value) (k : PropertyKey) : Value :=
  match o, keyString k with
  | VObj ref props, Some name =>
      match lookup name props with
      | Some v => v
      | None =>
          if String.eqb name "__proto__"
          then (if Nat.eqb ref 3 then VNull else objectPrototype)
          else VUndefined
      end
  | _, _ => VUndefined
  end.

(** The names under which [Object.prototype] holds a function. *)
Definition prototypeFunctions : list string :=
  ["constructor"; "__defineGetter__"; "__defineSetter__"; "hasOwnProperty";
   "__lookupGetter__"; "__lookupSetter__"; "isPrototypeOf"; "propertyIsEnumerable";
   "toString"; "valueOf"; "toLocaleString"].


(** [o[k]] finds a function of [Object.prototype]: the plain object [o] has
    no own property under the key, and the key names one of them. *)
Definition inheritsFunction (o : Value) (k : PropertyKey) : bool :=
  match o, keyString k with
  | VObj _ props, Some name =>
      match lookup name props with
      | Some _ => false
      | None => existsb (String.eqb name) prototypeFunctions
      end
  | _, _ => false
  end.

(** [o[k] = v] reaches the accessor [__proto__] of [Object.prototype]: the
    key is ["__proto__"] and the plain object [o] has no own property of
    that name.  The assignment then creates no own property. *)
Definition reachesAccessor (o : Value) (k : PropertyKey) : bool :=
  match o, keyString k with
  | VObj _ props, Some name =>
      match lookup name props with
      | Some _ => false
      | None => String.eqb name "__proto__"
      end
  | _, _ => false
  end.

(** [value[k]] as the engine looks it up, where what it finds is a value of
    the model: on a plain object through [Object.prototype], on an array
    among its elements. *)
Definition memberThrough (value : Value) (k : PropertyKey) : Value :=
  match value with
  | VObj _ _ => propertyThrough value k
  | VArr _ items => itemAt items k
  | _ => VUndefined
  end.

Definition getSchemaOrValueType (schema value : Value) : Value :=
  let type := prop schema "type" in
  match type with
  | VArr _ types =>
      match value with
      | VUndefined => VNull
      | _ =>
          let valueType := getValueType value in
          if existsb (fun t => valuesAreEqual t (VStr valueType)) types
          then VStr valueType
          else VNull
      end
  | VUndefined =>
      match value with
      | VUndefined => VNull
      | _ => VStr (getValueType value)
      end
  | _ => type
  end.

(** What [getPropertySchema] produces: a schema with the entries it pushed on
    the optional [path], [null], or the [TypeError] of comparing a symbol
    with a number. *)
Inductive Resolution : Type :=
| Resolved (schema : Value) (path : list PathEntry)
| NotPermitted
| KeyTypeError.

(** [additionalProperties] and [additionalItems] are handled alike. *)
Definition resolveAdditional (name : string) (schema : Value) : Resolution :=
  let additional := prop schema name in
  match additional with
  | VBool false => NotPermitted
  | VObj _ _ => Resolved additional [(Some (PName name), additional)]
  | _ => Resolved unconstrainedSchema [(None, unconstrainedSchema)]
  end.

Definition getPropertySchema (schema : Value) (property : PropertyKey)
  (value : Value) : Resolution :=
  let type := getSchemaOrValueType schema value in
  if valuesAreEqual type (VStr "object") then
    let properties := prop schema "properties" in
    let propertySchema := propertyThrough properties property in
    if isObject properties && isObject propertySchema
    then Resolved propertySchema
           [(Some (PName "properties"), properties); (Some property, propertySchema)]
    else resolveAdditional "additionalProperties" schema
  else if valuesAreEqual type (VStr "array") then
    let items := prop schema "items" in
    match items with
    | VObj _ _ => Resolved items []
    | VArr _ itemList =>
        match property with
        | PSymbol _ => KeyTypeError
        | _ =>
            let propertySchema := itemAt itemList property in
            if isObject propertySchema
            then Resolved propertySchema
                   [(Some (PName "items"), items); (Some property, propertySchema)]
            else resolveAdditional "additionalItems" schema
        end
    | _ => resolveAdditional "additionalItems" schema
    end
  else NotPermitted.

(** ** [JsonSchemaTraversalInfo] *)

(** Both stacks are kept with the most recent entry first. *)
Record TraversalInfo : Type := mkInfo {
  valuePath : list PathEntry;
  schemaPath : list PathEntry
}.

Definition valuePush (path : PathSeg) (value : Value) (info : TraversalInfo) : TraversalInfo :=
  mkInfo ((path, value) :: valuePath info) (schemaPath info).

Definition valuePop (info : TraversalInfo) : TraversalInfo :=
  mkInfo (tl (valuePath info)) (schemaPath info).

Definition schemaPush (path : PathSeg) (schema : Value) (info : TraversalInfo) : TraversalInfo :=
  mkInfo (valuePath info) ((path, schema) :: schemaPath info).

Definition schemaPop (info : TraversalInfo) : TraversalInfo :=
  mkInfo (valuePath info) (tl (schemaPath info)).

(** [new JsonSchemaTraversalInfo(value, schema)] *)
Definition newTraversalInfo (value schema : Value) : TraversalInfo :=
  schemaPush None schema (valuePush None value (mkInfo [] [])).

(** ** Errors and results *)

(** The message of a [JsonSchemaValidationError], one constructor per
    message template of the code. *)
Inductive Message : Type :=
| MsgTypeMismatch (type : string) (schemaType : Value)
    (* Value type ${type} does not match schema type ${schemaType} *)
| MsgInvalidConstant            (* Invalid constant value *)
| MsgInvalidEnum                (* Invalid enum value *)
| MsgAnyOfNoneMatched           (* 0 anyOf schemas matched *)
| MsgOneOfMatched (count : nat) (* ${count} oneOf schemas matched *)
| MsgNotMatched (i : nat)       (* not[${i}] schema matched *)
| MsgNotMultipleOf (multipleOf : Q)
| MsgLessThan (minimum : Q)
| MsgLessThanOrEqual (exclusiveMinimum : Q)
| MsgGreaterThan (maximum : Q)
| MsgGreaterThanOrEqual (exclusiveMaximum : Q)
| MsgStringTooShort
| MsgStringTooLong
| MsgPatternInvalid (detail : string)
| MsgPatternFailed
| MsgArrayTooShort
| MsgArrayTooLong
| MsgNoSchemaForIndex (i : nat) (* No schema found for array[${i}] *)
| MsgMissingProperty (property : Value)
| MsgNotEnoughProperties        (* Not enough object properties *)
| MsgTooManyProperties          (* Too many object properties *)
| MsgNoSchemaForProperty (property : string).

(** The messages of the plain [Error]s of [JsonSchemaProxyHandler]. *)
Inductive HandlerMessage : Type :=
| MsgArrayIndexOutOfRange                     (* Array index out of range *)
| MsgPropertyNotSupported (property : PropertyKey). (* Property ${property} not supported *)

(** What can be thrown: a [JsonSchemaValidationError] (its [info] field is
    the traversal state returned next to it), the engine's [TypeError], or a
    plain [Error] of the proxy handler. *)
Inductive Error : Type :=
| ValidationError (message : Message) (value schema : Value)
| TypeError
| HandlerError (message : HandlerMessage).

(** The result of running a validation method on a traversal state. *)
Inductive Completion : Type :=
| Normal (info : TraversalInfo)
| Throw (e : Error) (info : TraversalInfo)
| OutOfFuel.

Definition andThen (c : Completion) (k : TraversalInfo -> Completion) : Completion :=
  match c with
  | Normal info => k info
  | _ => c
  end.

Notation "c ;; k" := (andThen c k) (at level 61, left associativity).

(** [if (cond) { throw new JsonSchemaValidationError(message, ...); }] *)
Definition throwIf (cond : bool) (message : Message) (value schema : Value)
  (info : TraversalInfo) : Completion :=
  if cond then Throw (ValidationError message value schema) info else Normal info.

Definition Qlt_bool (a b : Q) : bool := negb (Qle_bool b a).

Definition lengthQ (n : nat) : Q := inject_Z (Z.of_nat n).

(** [properties.length] where [properties] is a [Set]: a [Set] has a [size]
    and no [length], so the expression is [undefined], which a comparison
    converts to [NaN] (here [None]). *)
Definition SetLength (properties : list string) : option Q := None.

(** [a < b] and [a > b] where [a] may be [NaN]. *)
Definition nanLt (a : option Q) (b : Q) : bool :=
  match a with
  | Some x => Qlt_bool x b
  | None => false
  end.

Definition nanGt (a : option Q) (b : Q) : bool :=
  match a with
  | Some x => Qlt_bool b x
  | None => false
  end.

(** [typeof schema[name] === 'number' && test(schema[name])] *)
Definition numberField (schema : Value) (name : string) (test : Q -> bool) : bool :=
  match prop schema name with
  | VNum q => test q
  | _ => false
  end.

Definition fieldOr (schema : Value) (name : string) (default : Q) : Q :=
  match prop schema name with
  | VNum q => q
  | _ => default
  end.

(** Rounding of the fraction [N / D], [D] positive, to the nearest integer,
    a tie going to the even one. *)
Definition roundHalfEven (N D : Z) : Z :=
  let q := (N / D)%Z in
  match (2 * (N mod D) ?= D)%Z with
  | Lt => q
  | Gt => (q + 1)%Z
  | Eq => if Z.even q then q else (q + 1)%Z
  end.

(** The binary exponent of [a / d], both positive: the [e] with
    [2^e <= a / d < 2^(e+1)]. *)
Definition binaryExponent (a d : Z) : Z :=
  let e := (Z.log2 a - Z.log2 d)%Z in
  if (0 <=? e)%Z
  then (if (a <? d * 2 ^ e)%Z then e - 1 else e)%Z
  else (if (a * 2 ^ (- e) <? d)%Z then e - 1 else e)%Z.

(** The result of an arithmetic operation of the engine: the double nearest
    to the exact result (IEEE 754 binary64, round to nearest, ties to even),
    as the rational it is, or [None] when that is an infinity.  The unit in
    the last place of a number with binary exponent [e] is [2^(e - 52)], and
    [2^(-1074)] for the numbers below [2^(-1022)]. *)
Definition roundDouble (q : Q) : option Q :=
  let n := Qnum (Qred q) in
  let d := Zpos (Qden (Qred q)) in
  if (n =? 0)%Z then Some 0%Q else
  let a := Z.abs n in
  let t := (Z.max (binaryExponent a d) (-1022) - 52)%Z in
  if (0 <=? t)%Z then
    let r := (roundHalfEven a (d * 2 ^ t) * 2 ^ t)%Z in
    if (2 ^ 1024 <=? r)%Z then None else Some (inject_Z (Z.sgn n * r))
  else
    Some (Qmake (Z.sgn n * roundHalfEven (a * 2 ^ (- t)) d) (Z.to_pos (2 ^ (- t)))).

(** [Math.floor(value / multipleOf) * multipleOf !== value].  The quotient
    and the product are rounded as the engine rounds them; [Math.floor] of a
    double is exact.  Dividing by zero gives an infinity or [NaN], and then
    the product is [NaN]; a quotient or a product that is an infinity is not
    equal to the value either. *)
Definition notMultipleOf (value multipleOf : Q) : bool :=
  if Qeq_bool multipleOf 0 then true else
  match roundDouble (value / multipleOf) with
  | None => true
  | Some quotient =>
      match roundDouble (inject_Z (Qfloor quotient) * multipleOf) with
      | None => true
      | Some product => negb (Qeq_bool product value)
      end
  end.

(** ** [JsonSchemaValidator]: validation *)

Section Validator.

(** [_getRegex(pattern, flags)]: the compiled expression's [test], or the
    message of the error its construction throws.  [CacheMap] and [RegExp]
    are not part of this file. *)
Variable getRegex : string -> string -> (string -> bool) + string.

Definition validateNumber (value : Q) (schema : Value) (info : TraversalInfo) : Completion :=
  let v := VNum value in
  throwIf (numberField schema "multipleOf" (notMultipleOf value))
    (MsgNotMultipleOf (fieldOr schema "multipleOf" 0)) v schema info ;; fun info =>
  throwIf (numberField schema "minimum" (Qlt_bool value))
    (MsgLessThan (fieldOr schema "minimum" 0)) v schema info ;; fun info =>
  throwIf (numberField schema "exclusiveMinimum" (Qle_bool value))
    (MsgLessThanOrEqual (fieldOr schema "exclusiveMinimum" 0)) v schema info ;; fun info =>
  throwIf (numberField schema "maximum" (fun m => Qlt_bool m value))
    (MsgGreaterThan (fieldOr schema "maximum" 0)) v schema info ;; fun info =>
  throwIf (numberField schema "exclusiveMaximum" (fun m => Qle_bool m value))
    (MsgGreaterThanOrEqual (fieldOr schema "exclusiveMaximum" 0)) v schema info.

Definition validateString (value : string) (schema : Value) (info : TraversalInfo) : Completion :=
  let v := VStr value in
  throwIf (numberField schema "minLength" (Qlt_bool (lengthQ (String.length value))))
    MsgStringTooShort v schema info ;; fun info =>
  throwIf (numberField schema "maxLength" (fun m => Qlt_bool m (lengthQ (String.length value))))
    MsgStringTooLong v schema info ;; fun info =>
  match prop schema "pattern" with
  | VStr pattern =>
      let patternFlags :=
        match prop schema "patternFlags" with
        | VStr flags => flags
        | _ => ""
        end in
      match getRegex pattern patternFlags with
      | inr detail => Throw (ValidationError (MsgPatternInvalid detail) v schema) info
      | inl test => throwIf (negb (test value)) MsgPatternFailed v schema info
      end
  | _ => Normal info
  end.

(** [for (const [p, s] of schemaPath) { info.schemaPush(p, s); }] *)
Definition schemaPushAll (path : list PathEntry) (info : TraversalInfo) : TraversalInfo :=
  fold_left (fun i e => schemaPush (fst e) (snd e) i) path info.

(** [for (let j = 0; j < schemaPath.length; ++j) { info.schemaPop(); }] *)
Definition schemaPopAll (path : list PathEntry) (info : TraversalInfo) : TraversalInfo :=
  fold_left (fun i _ => schemaPop i) path info.

(** The methods below call [this.validate] recursively; [rec] stands for
    that call. *)
Variable rec : Value -> Value -> TraversalInfo -> Completion.

(** The body shared by the loops of [validateArray] and [validateObject]:
    resolve the schema of one member, push the path, validate, pop. *)
Definition validateMember (value schema : Value) (property : PropertyKey)
  (noSchema : Message) (info : TraversalInfo) : Completion :=
  match getPropertySchema schema property value with
  | KeyTypeError => Throw TypeError info
  | NotPermitted => Throw (ValidationError noSchema value schema) info
  | Resolved propertySchema schemaPath =>
      let propertyValue := member value property in
      let info := schemaPushAll schemaPath info in
      let info := valuePush (Some property) propertyValue info in
      rec propertyValue propertySchema info ;; fun info =>
      let info := valuePop info in
      Normal (schemaPopAll schemaPath info)
  end.

Fixpoint validateArrayItems (value schema : Value) (i count : nat)
  (info : TraversalInfo) : Completion :=
  match count with
  | O => Normal info
  | S count' =>
      validateMember value schema (PIndex i) (MsgNoSchemaForIndex i) info ;;
      validateArrayItems value schema (S i) count'
  end.

Definition validateArray (value schema : Value) (info : TraversalInfo) : Completion :=
  match value with
  | VArr _ items =>
      throwIf (numberField schema "minItems" (Qlt_bool (lengthQ (List.length items))))
        MsgArrayTooShort value schema info ;; fun info =>
      throwIf (numberField schema "maxItems" (fun m => Qlt_bool m (lengthQ (List.length items))))
        MsgArrayTooLong value schema info ;; fun info =>
      validateArrayItems value schema 0 (List.length items) info
  | _ => Normal info
  end.

(** [properties.has(property)]: a [Set] of strings holds no other value. *)
Definition SetHas (properties : list string) (property : Value) : bool :=
  match property with
  | VStr s => existsb (String.eqb s) properties
  | _ => false
  end.

Fixpoint validateRequired (value schema : Value) (properties : list string)
  (required : list Value) (info : TraversalInfo) : Completion :=
  match required with
  | [] => Normal info
  | property :: rest =>
      throwIf (negb (SetHas properties property))
        (MsgMissingProperty property) value schema info ;;
      validateRequired value schema properties rest
  end.

Fixpoint validateProperties (value schema : Value) (properties : list string)
  (info : TraversalInfo) : Completion :=
  match properties with
  | [] => Normal info
  | property :: rest =>
      validateMember value schema (PName property) (MsgNoSchemaForProperty property) info ;;
      validateProperties value schema rest
  end.

Definition validateObject (value schema : Value) (info : TraversalInfo) : Completion :=
  match value with
  | VObj _ props =>
      let properties := map fst props in
      match prop schema "required" with
      | VArr _ required => validateRequired value schema properties required info
      | _ => Normal info
      end ;; fun info =>
      throwIf (numberField schema "minProperties" (nanLt (SetLength properties)))
        MsgNotEnoughProperties value schema info ;; fun info =>
      throwIf (numberField schema "maxProperties" (nanGt (SetLength properties)))
        MsgTooManyProperties value schema info ;; fun info =>
      validateProperties value schema properties info
  | _ => Normal info
  end.

Definition validateSingleSchema (value schema : Value) (info : TraversalInfo) : Completion :=
  if isNullish schema then Throw TypeError info else
  let type := getValueType value in
  let schemaType := prop schema "type" in
  throwIf (negb (isValueTypeAny value type schemaType))
    (MsgTypeMismatch type schemaType) value schema info ;; fun info =>
  let schemaConst := prop schema "const" in
  throwIf (negb (valuesAreEqual schemaConst VUndefined)
           && negb (valuesAreEqual value schemaConst))
    MsgInvalidConstant value schema info ;; fun info =>
  throwIf (match prop schema "enum" with
           | VArr _ schemaEnum => negb (valuesAreEqualAny value schemaEnum)
           | _ => false
           end)
    MsgInvalidEnum value schema info ;; fun info =>
  match value with
  | VNum n => validateNumber n schema info
  | VStr s => validateString s schema info
  | VArr _ _ => validateArray value schema info
  | VObj _ _ => validateObject value schema info
  | _ => Normal info
  end.

Definition validateConditional (value schema : Value) (info : TraversalInfo) : Completion :=
  let ifSchema := prop schema "if" in
  if negb (isObject ifSchema) then Normal info else
  let info := schemaPush (Some (PName "if")) ifSchema info in
  let continue (okay : bool) (info : TraversalInfo) : Completion :=
    let info := schemaPop info in
    let nextSchema := if okay then prop schema "then" else prop schema "else" in
    if isObject nextSchema then
      let info := schemaPush (Some (PName (if okay then "then" else "else"))) nextSchema info in
      rec value nextSchema info ;; fun info =>
      Normal (schemaPop info)
    else Normal info in
  match rec value ifSchema info with
  | Normal info => continue true info
  | Throw _ info => continue false info
  | OutOfFuel => OutOfFuel
  end.

Fixpoint validateAllOfFrom (value : Value) (subSchemas : list Value) (i : nat)
  (info : TraversalInfo) : Completion :=
  match subSchemas with
  | [] => Normal info
  | subSchema :: rest =>
      let info := schemaPush (Some (PIndex i)) subSchema info in
      rec value subSchema info ;; fun info =>
      validateAllOfFrom value rest (S i) (schemaPop info)
  end.

Definition validateAllOf (value schema : Value) (info : TraversalInfo) : Completion :=
  match prop schema "allOf" with
  | VArr _ subSchemas =>
      let info := schemaPush (Some (PName "allOf")) (prop schema "allOf") info in
      validateAllOfFrom value subSchemas 0 info ;; fun info =>
      Normal (schemaPop info)
  | _ => Normal info
  end.

Fixpoint validateAnyOfFrom (value schema : Value) (subSchemas : list Value) (i : nat)
  (info : TraversalInfo) : Completion :=
  match subSchemas with
  | [] => Throw (ValidationError MsgAnyOfNoneMatched value schema) info
  | subSchema :: rest =>
      let info := schemaPush (Some (PIndex i)) subSchema info in
      match rec value subSchema info with
      | Normal info => Normal info
      | Throw _ info => validateAnyOfFrom value schema rest (S i) (schemaPop info)
      | OutOfFuel => OutOfFuel
      end
  end.

Definition validateAnyOf (value schema : Value) (info : TraversalInfo) : Completion :=
  match prop schema "anyOf" with
  | VArr _ subSchemas =>
      let info := schemaPush (Some (PName "anyOf")) (prop schema "anyOf") info in
      validateAnyOfFrom value schema subSchemas 0 info
  | _ => Normal info
  end.

(** The loop of [validateOneOf]: the result is the number of sub-schemas
    that matched, or nothing when fuel ran out. *)
Fixpoint validateOneOfFrom (value : Value) (subSchemas : list Value) (i count : nat)
  (info : TraversalInfo) : option (nat * TraversalInfo) :=
  match subSchemas with
  | [] => Some (count, info)
  | subSchema :: rest =>
      let info := schemaPush (Some (PIndex i)) subSchema info in
      match rec value subSchema info with
      | Normal info => validateOneOfFrom value rest (S i) (S count) (schemaPop info)
      | Throw _ info => validateOneOfFrom value rest (S i) count (schemaPop info)
      | OutOfFuel => None
      end
  end.

Definition validateOneOf (value schema : Value) (info : TraversalInfo) : Completion :=
  match prop schema "oneOf" with
  | VArr _ subSchemas =>
      let info := schemaPush (Some (PName "oneOf")) (prop schema "oneOf") info in
      match validateOneOfFrom value subSchemas 0 0 info with
      | None => OutOfFuel
      | Some (count, info) =>
          throwIf (negb (Nat.eqb count 1)) (MsgOneOfMatched count) value schema info ;; fun info =>
          Normal (schemaPop info)
      end
  | _ => Normal info
  end.

Fixpoint validateNoneOfFrom (value schema : Value) (subSchemas : list Value) (i : nat)
  (info : TraversalInfo) : Completion :=
  match subSchemas with
  | [] => Normal info
  | subSchema :: rest =>
      let info := schemaPush (Some (PIndex i)) subSchema info in
      match rec value subSchema info with
      | Normal info => Throw (ValidationError (MsgNotMatched i) value schema) info
      | Throw _ info => validateNoneOfFrom value schema rest (S i) (schemaPop info)
      | OutOfFuel => OutOfFuel
      end
  end.

Definition validateNoneOf (value schema : Value) (info : TraversalInfo) : Completion :=
  match prop schema "not" with
  | VArr _ subSchemas =>
      let info := schemaPush (Some (PName "not")) (prop schema "not") info in
      validateNoneOfFrom value schema subSchemas 0 info ;; fun info =>
      Normal (schemaPop info)
  | _ => Normal info
  end.

Definition validateStep (value schema : Value) (info : TraversalInfo) : Completion :=
  validateSingleSchema value schema info ;;
  validateConditional value schema ;;
  validateAllOf value schema ;;
  validateAnyOf value schema ;;
  validateOneOf value schema ;;
  validateNoneOf value schema.

End Validator.

(** [JsonSchemaValidator.validate(value, schema, info)] *)
Fixpoint validate (getRegex : string -> string -> (string -> bool) + string)
  (fuel : nat) (value schema : Value) (info : TraversalInfo) : Completion :=
  match fuel with
  | O => OutOfFuel
  | S fuel' => validateStep getRegex (validate getRegex fuel') value schema info
  end.

(** [JsonSchema.validate(value, schema)] *)
Definition JsonSchema_validate (getRegex : string -> string -> (string -> bool) + string)
  (fuel : nat) (value schema : Value) : Completion :=
  validate getRegex fuel value schema (newTraversalInfo value schema).

(** ** [JsonSchemaValidator]: default population *)

(** The result of a method that may create objects: the value it returns and
    the next unused identity, an exception, or exhausted fuel. *)
Inductive Outcome (A : Type) : Type :=
| Returns (a : A) (next : nat)
| Raises (e : Error)
| Exhausted.

Arguments Returns {A} a next.
Arguments Raises {A} e.
Arguments Exhausted {A}.

(** Modelled from the spec: the global [clone] that [JsonSchema.clone] calls
    is defined outside this file; the specification describes it as a "deep
    structural copy".  Every array and object of the copy is a new object:
    identities are taken from [next] on. *)
Fixpoint clone (value : Value) (next : nat) {struct value} : Value * nat :=
  match value with
  | VArr _ items =>
      let '(items', next') :=
        (fix cloneItems (l : list Value) (n : nat) {struct l} : list Value * nat :=
           match l with
           | [] => ([], n)
           | x :: l' =>
               let '(x', n1) := clone x n in
               let '(l'', n2) := cloneItems l' n1 in
               (x' :: l'', n2)
           end) items (S next) in
      (VArr next items', next')
  | VObj _ props =>
      let '(props', next') :=
        (fix cloneProps (l : list (string * Value)) (n : nat) {struct l}
           : list (string * Value) * nat :=
           match l with
           | [] => ([], n)
           | (k, x) :: l' =>
               let '(x', n1) := clone x n in
               let '(l'', n2) := cloneProps l' n1 in
               ((k, x') :: l'', n2)
           end) props (S next) in
      (VObj next props', next')
  | _ => (value, next)
  end.

Definition getDefaultTypeValue (type : Value) (next : nat) : Value * nat :=
  match type with
  | VStr s =>
      if String.eqb s "null" then (VNull, next)
      else if String.eqb s "boolean" then (VBool false, next)
      else if String.eqb s "number" || String.eqb s "integer" then (VNum 0, next)
      else if String.eqb s "string" then (VStr "", next)
      else if String.eqb s "array" then (VArr next [], S next)
      else if String.eqb s "object" then (VObj next [], S next)
      else (VNull, next)
  | _ => (VNull, next)
  end.

(** The number a string of decimal digits denotes. *)
Fixpoint digitsValue (acc : N) (s : string) : N :=
  match s with
  | EmptyString => acc
  | String c rest => digitsValue (10 * acc + (N_of_ascii c - 48))%N rest
  end.

(** The array index a property name denotes, if it denotes one: a decimal
    numeral without a leading zero, up to [2^32 - 2]. *)
Definition arrayIndex (name : string) : option N :=
  if isDigitString name then
    match name with
    | String "0" (String _ _) => None
    | _ =>
        let n := digitsValue 0 name in
        if (n <=? 4294967294)%N then Some n else None
    end
  else None.

(** The engine enumerates the properties of an object that are named by an
    array index first, in ascending order, and the others after them, in the
    order of their creation: a new property [name] comes before the property
    [k] when it is named by an index and [k] by none or by a larger one. *)
Definition enumeratedBefore (name k : string) : bool :=
  match arrayIndex name with
  | Some n =>
      match arrayIndex k with
      | Some m => (n <? m)%N
      | None => true
      end
  | None => false
  end.

(** An existing property takes the value and keeps its place. *)
Fixpoint replaceProp (name : string) (v : Value) (props : list (string * Value))
  : list (string * Value) :=
  match props with
  | [] => []
  | (k, x) :: rest =>
      if String.eqb k name then (k, v) :: rest else (k, x) :: replaceProp name v rest
  end.

(** A new property takes its place in the enumeration. *)
Fixpoint insertProp (name : string) (v : Value) (props : list (string * Value))
  : list (string * Value) :=
  match props with
  | [] => [(name, v)]
  | (k, x) :: rest =>
      if enumeratedBefore name k then (name, v) :: props
      else (k, x) :: insertProp name v rest
  end.

(** [value[name] = v] on the own properties of a plain object. *)
Definition setProp (name : string) (v : Value) (props : list (string * Value))
  : list (string * Value) :=
  match lookup name props with
  | Some _ => replaceProp name v props
  | None => insertProp name v props
  end.

(** [Reflect.deleteProperty(value, name)] *)
Definition deleteProp (name : string) (props : list (string * Value))
  : list (string * Value) :=
  filter (fun kv => negb (String.eqb (fst kv) name)) props.

(** [properties.delete(property)] on a [Set] of strings. *)
Definition SetDelete (property : string) (properties : list string) : list string :=
  filter (fun k => negb (String.eqb k property)) properties.

(** [value[i] = v] for an index below the length. *)
Fixpoint setItem (i : nat) (v : Value) (items : list Value) {struct items}
  : list Value :=
  match items, i with
  | [], _ => []
  | _ :: rest, O => v :: rest
  | x :: rest, S i' => x :: setItem i' v rest
  end.

Section Populator.

(** [this.getValidValueOrDefault(propertySchema, value[property])] *)
Variable rec : Value -> Value -> nat -> Outcome Value.

(** The loop over [required].  [props] is the object being repaired, under
    its identity [ref]; [properties] is the [Set] of names still to visit.
    The specification makes [required] a set of property names, and property
    names are strings: an entry that is not a string, which the engine would
    turn into a property name, is passed over.  Where the assignment reaches
    the accessor [__proto__] of [Object.prototype] it creates no property,
    and the loop goes on to the next entry: what the code does there to
    [Object.prototype], which it has read as the member, and to the
    prototype of the object is no change of a value of the model.  A member
    that is a function inherited from [Object.prototype] is read as
    [undefined]. *)
Fixpoint populateRequired (schema : Value) (ref : nat) (required : list Value)
  (props : list (string * Value)) (properties : list string) (next : nat)
  : Outcome (list (string * Value) * list string) :=
  match required with
  | [] => Returns (props, properties) next
  | VStr property :: rest =>
      let properties := SetDelete property properties in
      let value := VObj ref props in
      match getPropertySchema schema (PName property) value with
      | KeyTypeError => Raises TypeError
      | NotPermitted => populateRequired schema ref rest props properties next
      | Resolved propertySchema _ =>
          if reachesAccessor value (PName property)
          then populateRequired schema ref rest props properties next
          else
            match rec propertySchema (prop value property) next with
            | Returns v next =>
                populateRequired schema ref rest (setProp property v props) properties next
            | Raises e => Raises e
            | Exhausted => Exhausted
            end
      end
  | _ :: rest => populateRequired schema ref rest props properties next
  end.

(** The loop over the remaining names. *)
Fixpoint populateRemaining (schema : Value) (ref : nat) (properties : list string)
  (props : list (string * Value)) (next : nat) : Outcome (list (string * Value)) :=
  match properties with
  | [] => Returns props next
  | property :: rest =>
      let value := VObj ref props in
      match getPropertySchema schema (PName property) value with
      | KeyTypeError => Raises TypeError
      | NotPermitted => populateRemaining schema ref rest (deleteProp property props) next
      | Resolved propertySchema _ =>
          match rec propertySchema (prop value property) next with
          | Returns v next =>
              populateRemaining schema ref rest (setProp property v props) next
          | Raises e => Raises e
          | Exhausted => Exhausted
          end
      end
  end.

Definition populateObjectDefaults (value schema : Value) (next : nat) : Outcome Value :=
  match value with
  | VObj ref props =>
      let properties := map fst props in
      let afterRequired :=
        match prop schema "required" with
        | VArr _ required => populateRequired schema ref required props properties next
        | _ => Returns (props, properties) next
        end in
      match afterRequired with
      | Returns (props, properties) next =>
          match populateRemaining schema ref properties props next with
          | Returns props next => Returns (VObj ref props) next
          | Raises e => Raises e
          | Exhausted => Exhausted
          end
      | Raises e => Raises e
      | Exhausted => Exhausted
      end
  | _ => Returns value next
  end.

Fixpoint populateItems (schema : Value) (ref : nat) (i count : nat)
  (items : list Value) (next : nat) : Outcome (list Value) :=
  match count with
  | O => Returns items next
  | S count' =>
      let value := VArr ref items in
      match getPropertySchema schema (PIndex i) value with
      | KeyTypeError => Raises TypeError
      | NotPermitted => populateItems schema ref (S i) count' items next
      | Resolved propertySchema _ =>
          match rec propertySchema (nth i items VUndefined) next with
          | Returns v next => populateItems schema ref (S i) count' (setItem i v items) next
          | Raises e => Raises e
          | Exhausted => Exhausted
          end
      end
  end.

Definition populateArrayDefaults (value schema : Value) (next : nat) : Outcome Value :=
  match value with
  | VArr ref items =>
      match populateItems schema ref 0 (List.length items) items next with
      | Returns items next => Returns (VArr ref items) next
      | Raises e => Raises e
      | Exhausted => Exhausted
      end
  | _ => Returns value next
  end.

(** The first half of [getValidValueOrDefault]: the value itself when its
    type fits, else the cloned [schema.default] when that fits, else the
    default of the schema's type. *)
Definition chooseValue (schema value : Value) (next : nat) : Value * nat :=
  let type := getValueType value in
  let schemaType := prop schema "type" in
  if isValueTypeAny value type schemaType then (value, next)
  else
    match prop schema "default" with
    | VUndefined => getDefaultTypeValue schemaType next
    | schemaDefault =>
        let '(value, next) := clone schemaDefault next in
        if isValueTypeAny value (getValueType value) schemaType
        then (value, next)
        else getDefaultTypeValue schemaType next
    end.

Definition getValidValueOrDefaultStep (schema value : Value) (next : nat) : Outcome Value :=
  if isNullish schema then Raises TypeError else
  let '(value, next) := chooseValue schema value next in
  match value with
  | VObj _ _ => populateObjectDefaults value schema next
  | VArr _ _ => populateArrayDefaults value schema next
  | _ => Returns value next
  end.

End Populator.

(** [JsonSchemaValidator.getValidValueOrDefault(schema, value)] *)
Fixpoint getValidValueOrDefault (fuel : nat) (schema value : Value) (next : nat)
  : Outcome Value :=
  match fuel with
  | O => Exhausted
  | S fuel' => getValidValueOrDefaultStep (getValidValueOrDefault fuel') schema value next
  end.

(** ** [JsonSchema.createProxy] and [JsonSchemaProxyHandler] *)

(** A proxy is its target together with the schema its handler holds. *)
Record Proxy : Type := mkProxy {
  proxyTarget : Value;
  proxySchema : Value
}.

Definition createProxy (target schema : Value) : Proxy := mkProxy target schema.

Module JsonSchemaProxyHandler.

(** What the [get] trap does. *)
Inductive GetResult : Type :=
| ReturnsTargetProperty (property : PropertyKey)
    (* the trap returns [target[property]], whatever the engine's own lookup
       finds, as it is *)
| ReturnsUndefined
| ReturnsProxy (p : Proxy)
| ReturnsValue (value : Value)
| GetThrows (e : Error).

(** What the [set] trap does: it throws before anything is assigned, or it
    performs the single assignment [target[property] = value] and returns
    [true]. *)
Inductive SetResult : Type :=
| SetThrows (e : Error)
| Assigns (property : PropertyKey) (value : Value) (next : nat)
| SetOutOfFuel.

(** The rewriting of the key both traps start with on an array target:
    [Some] of the key to go on with, or [None] when the trap hands the
    access to the target ([else if (typeof property === 'string')]). *)
Definition arrayKey (property : PropertyKey) : option PropertyKey :=
  match property with
  | PName s => if isDigitString s then Some (PIndex (parseInt s)) else None
  | _ => Some property
  end.

Definition get (schema target : Value) (property : PropertyKey) : GetResult :=
  match property with
  | PSymbol _ => ReturnsTargetProperty property
  | _ =>
      let resolve (property : PropertyKey) : GetResult :=
        if isNullish schema then GetThrows TypeError else
        match getPropertySchema schema property target with
        | KeyTypeError => GetThrows TypeError
        | NotPermitted => ReturnsUndefined
        | Resolved propertySchema _ =>
            if inheritsFunction target property then ReturnsTargetProperty property else
            let value := memberThrough target property in
            match value with
            | VObj _ _ | VArr _ _ => ReturnsProxy (createProxy value propertySchema)
            | _ => ReturnsValue value
            end
        end in
      if isArray target then
        match arrayKey property with
        | Some property => resolve property
        | None => ReturnsTargetProperty property
        end
      else resolve property
  end.

(** [property > target.length] *)
Definition beyondLength (property : PropertyKey) (target : Value) : bool :=
  match property, target with
  | PIndex n, VArr _ items => List.length items <? n
  | _, _ => false
  end.

Definition set (getRegex : string -> string -> (string -> bool) + string)
  (fuel : nat) (schema target : Value) (property : PropertyKey) (value : Value)
  (next : nat) : SetResult :=
  let store (property : PropertyKey) : SetResult :=
    if isNullish schema then SetThrows TypeError else
    match getPropertySchema schema property target with
    | KeyTypeError => SetThrows TypeError
    | NotPermitted => SetThrows (HandlerError (MsgPropertyNotSupported property))
    | Resolved propertySchema _ =>
        let '(value, next) := clone value next in
        match validate getRegex fuel value propertySchema
                (newTraversalInfo value propertySchema) with
        | Normal _ => Assigns property value next
        | Throw e _ => SetThrows e
        | OutOfFuel => SetOutOfFuel
        end
    end in
  if isArray target then
    match property with
    | PName s =>
        if isDigitString s then
          let property := PIndex (parseInt s) in
          if beyondLength property target
          then SetThrows (HandlerError MsgArrayIndexOutOfRange)
          else store property
        else Assigns property value next
    | _ => store property
    end
  else store property.

(** What [deleteProperty] throws: the engine's [TypeError], or the plain
    [Error] with the message "${property} cannot be deleted". *)
Inductive DeleteError : Type :=
| DeleteTypeError
| CannotBeDeleted (property : PropertyKey).

(** What the [deleteProperty] trap does: it throws, or it performs
    [Reflect.deleteProperty(target, property)] and returns its result. *)
Inductive DeleteResult : Type :=
| DeleteThrows (e : DeleteError)
| Deletes (property : PropertyKey).

(** [required.includes(property)]; a schema holds no symbol. *)
Definition includes (required : list Value) (property : PropertyKey) : bool :=
  match property with
  | PName s => existsb (valuesAreEqual (VStr s)) required
  | PIndex n => existsb (valuesAreEqual (VNum (lengthQ n))) required
  | PSymbol _ => false
  end.

Definition deleteProperty (schema target : Value) (property : PropertyKey)
  : DeleteResult :=
  if isNullish schema then DeleteThrows DeleteTypeError else
  match prop schema "required" with
  | VArr _ required =>
      if includes required property
      then DeleteThrows (CannotBeDeleted property)
      else Deletes property
  | _ => Deletes property
  end.

End JsonSchemaProxyHandler.

(** ** Values and notions used in the statements *)

(** A [RegExp] stand-in for the examples, none of which has a [pattern]:
    the pattern is taken literally and has to occur at the start. *)
Definition literalRegex : string -> string -> (string -> bool) + string :=
  fun pattern _ => inl (fun text => String.prefix pattern text).

Definition typeSchema (ref : nat) (type : string) : Value :=
  VObj ref [("type", VStr type)].

(** A number with zero fractional part. *)
Definition hasZeroFraction (value : Value) : Prop :=
  exists q : Q, value = VNum q /\ Qeq (inject_Z (Qfloor q)) q.

(** The nesting depth of a value: [0] for a primitive, one more than its
    deepest member for an array or an object. *)
Fixpoint depth (v : Value) : nat :=
  match v with
  | VArr _ items =>
      S ((fix deepest (l : list Value) : nat :=
            match l with
            | [] => 0
            | x :: l' => Nat.max (depth x) (deepest l')
            end) items)
  | VObj _ props =>
      S ((fix deepest (l : list (string * Value)) : nat :=
            match l with
            | [] => 0
            | (_, x) :: l' => Nat.max (depth x) (deepest l')
            end) props)
  | _ => 0
  end.

Definition deepestItem (items : list Value) : nat :=
  fold_right (fun x m => Nat.max (depth x) m) 0 items.

Definition deepestProp (props : list (string * Value)) : nat :=
  fold_right (fun kx m => Nat.max (depth (snd kx)) m) 0 props.

(** The recursion of [validate] goes to a part of the schema or to a member
    of the value (then possibly under the unconstrained schema, of depth 1):
    this much fuel is more than enough. *)
Definition validateFuel (schema value : Value) : nat :=
  S (Nat.max (depth schema) 1 + depth value).

(** What a run of [validate] decides, without the traversal state. *)
Inductive Verdict : Type :=
| Accepted
| Rejected (e : Error)
| Undecided.

Definition verdict (c : Completion) : Verdict :=
  match c with
  | Normal _ => Accepted
  | Throw e _ => Rejected e
  | OutOfFuel => Undecided
  end.

(** [JsonSchema.validate(value, schema)] returns normally. *)
Definition accepts (getRegex : string -> string -> (string -> bool) + string)
  (fuel : nat) (value schema : Value) : bool :=
  match JsonSchema_validate getRegex fuel value schema with
  | Normal _ => true
  | _ => false
  end.

(** The number of listed sub-schemas the value validates against. *)
Definition countMatches (getRegex : string -> string -> (string -> bool) + string)
  (fuel : nat) (value : Value) (subSchemas : list Value) : nat :=
  List.length (filter (accepts getRegex fuel value) subSchemas).

(** [base] is the bottom part of the stack [l]. *)
Definition onTopOf {A : Type} (l base : list A) : Prop :=
  exists pushed : list A, l = pushed ++ base.

(** Both stacks of [info'] still hold the entries of [info], below whatever
    else they hold. *)
Definition keepsEntries (info' info : TraversalInfo) : Prop :=
  onTopOf (valuePath info') (valuePath info)
  /\ onTopOf (schemaPath info') (schemaPath info).

(** No schema in [v], at any depth, has an [if], [anyOf], [oneOf] or [not]
    that [validate] would act on. *)
Fixpoint catchFree (v : Value) : bool :=
  match v with
  | VArr _ items =>
      (fix all (l : list Value) : bool :=
         match l with
         | [] => true
         | x :: l' => catchFree x && all l'
         end) items
  | VObj _ props =>
      negb (isObject (prop v "if"))
      && negb (isArray (prop v "anyOf"))
      && negb (isArray (prop v "oneOf"))
      && negb (isArray (prop v "not"))
      && (fix all (l : list (string * Value)) : bool :=
            match l with
            | [] => true
            | (_, x) :: l' => catchFree x && all l'
            end) props
  | _ => true
  end.

(** The state a run of [validate] ends in, normally or not, still holds the
    entries of [base]. *)
Definition kept (base : TraversalInfo) (c : Completion) : Prop :=
  match c with
  | Normal info' | Throw _ info' => keepsEntries info' base
  | OutOfFuel => True
  end.

(** A run of [validate] that returns normally ends in the state [base]. *)
Definition restored (base : TraversalInfo) (c : Completion) : Prop :=
  match c with
  | Normal info' => info' = base
  | _ => True
  end.

(** The two loops of [clone], by name. *)
Fixpoint cloneItems (l : list Value) (n : nat) : list Value * nat :=
  match l with
  | [] => ([], n)
  | x :: l' =>
      let '(x', n1) := clone x n in
      let '(l'', n2) := cloneItems l' n1 in
      (x' :: l'', n2)
  end.

Fixpoint cloneProps (l : list (string * Value)) (n : nat) : list (string * Value) * nat :=
  match l with
  | [] => ([], n)
  | (k, x) :: l' =>
      let '(x', n1) := clone x n in
      let '(l'', n2) := cloneProps l' n1 in
      ((k, x') :: l'', n2)
  end.

(** The type names [getDefaultTypeValue] knows. *)
Definition typeNames : list string :=
  ["null"; "boolean"; "number"; "integer"; "string"; "array"; "object"].

(** [schema.type] is absent, or one of the seven type names. *)
Definition singleKnownType (type : Value) : bool :=
  match type with
  | VUndefined => true
  | VStr s => existsb (String.eqb s) typeNames
  | _ => false
  end.


(** The [Set] of names that the loop over [required] leaves for the second
    loop of [populateObjectDefaults]. *)
Definition namesLeft (required : list Value) (properties : list string) : list string :=
  fold_left (fun names e => match e with
                            | VStr property => SetDelete property names
                            | _ => names
                            end) required properties.

(** [rec] returns the member [x], governed by [ps], as it is; [step] says
    how the next unused identity may move meanwhile. *)
Definition fixedAt (rec : Value -> Value -> nat -> Outcome Value)
  (step : nat -> nat -> Prop) (ps x : Value) : Prop :=
  forall next, exists next', step next next' /\ rec ps x next = Returns x next'.

(** The member of [container] under [key] has no governing schema, or is
    governed and returned as it is, or is out of reach of an assignment,
    which would go to the accessor [__proto__]. *)
Definition settled (rec : Value -> Value -> nat -> Outcome Value) (schema : Value)
  (step : nat -> nat -> Prop) (container : Value) (key : PropertyKey) : Prop :=
  match getPropertySchema schema key container with
  | Resolved ps _ =>
      reachesAccessor container key = true
      \/ fixedAt rec step ps (member container key)
  | NotPermitted => True
  | KeyTypeError => False
  end.

(** The next unused identity may move anyhow. *)
Definition anyStep (n n' : nat) : Prop := True.

(** The property named [p] of the object [ref], and the element [j] of the
    array [ref], need no further repair. *)
Definition settledName (rec : Value -> Value -> nat -> Outcome Value) (schema : Value)
  (ref : nat) (props : list (string * Value)) (p : string) : Prop :=
  settled rec schema anyStep (VObj ref props) (PName p).

Definition settledIndex (rec : Value -> Value -> nat -> Outcome Value) (schema : Value)
  (ref : nat) (items : list Value) (j : nat) : Prop :=
  settled rec schema anyStep (VArr ref items) (PIndex j).



(** The doubles that the literals [0.1] and [0.3] denote, and the double
    [0.1 * 3]. *)
Definition tenth : Q := Qmake 3602879701896397 36028797018963968.
Definition threeTenths : Q := Qmake 5404319552844595 18014398509481984.
Definition threeTimesTenth : Q := Qmake 1351079888211149 4503599627370496.


(** [patternFlags], or the empty string when it is not a string. *)
Definition patternFlagsOf (schema : Value) : string :=
  match prop schema "patternFlags" with
  | VStr flags => flags
  | _ => EmptyString
  end.

(** The string [s] meets the string keywords of [schema], [getRegex] giving
    the compiled [pattern]. *)
Definition stringWithin (getRegex : string -> string -> (string -> bool) + string)
  (schema : Value) (s : string) : Prop :=
  (forall m, prop schema "minLength" = VNum m -> Qle m (lengthQ (String.length s)))
  /\ (forall m, prop schema "maxLength" = VNum m -> Qle (lengthQ (String.length s)) m)
  /\ (forall pattern, prop schema "pattern" = VStr pattern ->
        exists test, getRegex pattern (patternFlagsOf schema) = inl test
                     /\ test s = true).

(** The member of [container] under [key] has a governing schema, and
    validates against it. *)
Definition memberAccepted (getRegex : string -> string -> (string -> bool) + string)
  (fuel : nat) (schema container : Value) (key : PropertyKey) : Prop :=
  exists ps path,
    getPropertySchema schema key container = Resolved ps path
    /\ accepts getRegex fuel (member container key) ps = true.


(** The schema has no [if], [allOf], [anyOf], [oneOf] or [not] that
    [validate] would act on: all it asks is asked by
    [validateSingleSchema]. *)
Definition noCombinators (schema : Value) : bool :=
  negb (isObject (prop schema "if"))
  && negb (isArray (prop schema "allOf"))
  && negb (isArray (prop schema "anyOf"))
  && negb (isArray (prop schema "oneOf"))
  && negb (isArray (prop schema "not")).

(** What a read through the proxy yields for a member [value] governed by
    [propertySchema]: a proxy for an array or an object, else the value. *)
Definition wrapped (value propertySchema : Value) : JsonSchemaProxyHandler.GetResult :=
  match value with
  | VObj _ _ | VArr _ _ =>
      JsonSchemaProxyHandler.ReturnsProxy (createProxy value propertySchema)
  | _ => JsonSchemaProxyHandler.ReturnsValue value
  end.

(** The part of the [get] trap that follows the rewriting of the key:
    resolve the schema of the member and wrap the member. *)
Definition getGoverned (schema target : Value) (property : PropertyKey)
  : JsonSchemaProxyHandler.GetResult :=
  if isNullish schema then JsonSchemaProxyHandler.GetThrows TypeError else
  match getPropertySchema schema property target with
  | KeyTypeError => JsonSchemaProxyHandler.GetThrows TypeError
  | NotPermitted => JsonSchemaProxyHandler.ReturnsUndefined
  | Resolved propertySchema _ =>
      if inheritsFunction target property
      then JsonSchemaProxyHandler.ReturnsTargetProperty property
      else wrapped (memberThrough target property) propertySchema
  end.

(** The part of the [set] trap that follows the rewriting of the key:
    resolve the schema of the member, clone the value, validate the copy. *)
Definition setGoverned (getRegex : string -> string -> (string -> bool) + string)
  (fuel : nat) (schema target : Value) (property : PropertyKey) (value : Value)
  (next : nat) : JsonSchemaProxyHandler.SetResult :=
  if isNullish schema then JsonSchemaProxyHandler.SetThrows TypeError else
  match getPropertySchema schema property target with
  | KeyTypeError => JsonSchemaProxyHandler.SetThrows TypeError
  | NotPermitted =>
      JsonSchemaProxyHandler.SetThrows (HandlerError (MsgPropertyNotSupported property))
  | Resolved propertySchema _ =>
      match validate getRegex fuel (fst (clone value next)) propertySchema
              (newTraversalInfo (fst (clone value next)) propertySchema) with
      | Normal _ =>
          JsonSchemaProxyHandler.Assigns property (fst (clone value next))
            (snd (clone value next))
      | Throw e _ => JsonSchemaProxyHandler.SetThrows e
      | OutOfFuel => JsonSchemaProxyHandler.SetOutOfFuel
      end
  end.

(** [schema.required] when it is a list, else no entry. *)
Definition requiredList (schema : Value) : list Value :=
  match prop schema "required" with
  | VArr _ required => required
  | _ => []
  end.


Definition isString (v : Value) : bool :=
  match v with
  | VStr _ => true
  | _ => false
  end.


(** The schema gives a number for the keyword [name]. *)
Definition givesNumber (schema : Value) (name : string) : bool :=
  match prop schema name with
  | VNum _ => true
  | _ => false
  end.



(** The values among which [getPropertySchema] finds the schema of a member:
    the declared properties, [additionalProperties], [items] or its entries,
    and [additionalItems]. *)
Definition memberSchemas (schema : Value) : list Value :=
  match prop schema "properties" with
  | VObj _ props => map snd props
  | _ => []
  end
  ++ [prop schema "additionalProperties"; prop schema "items";
      prop schema "additionalItems"]
  ++ match prop schema "items" with
     | VArr _ itemSchemas => itemSchemas
     | _ => []
     end.


(** * Properties *)

(** ** The type check *)

Lemma eqb_VStr (s : string) (t : Value) :
  valuesAreEqual (VStr s) t = true <-> t = VStr s.
Proof.
  destruct t; simpl; try (split; [discriminate | intro H; inversion H]).
  rewrite String.eqb_eq. split; intro H.
  - now subst.
  - now inversion H.
Qed.

Lemma eqb_VStr_r (s : string) (t : Value) :
  valuesAreEqual t (VStr s) = true <-> t = VStr s.
Proof.
  destruct t; simpl; try (split; [discriminate | intro H; inversion H]).
  rewrite String.eqb_eq. split; intro H.
  - now subst.
  - now inversion H.
Qed.

Lemma floorIsSelf_spec (value : Value) :
  floorIsSelf value = true <-> hasZeroFraction value.
Proof.
  unfold hasZeroFraction. destruct value; simpl;
    try (split; [discriminate | intros (q & H & _); discriminate]).
  rewrite Qeq_bool_iff. split.
  - intro H. now exists n.
  - intros (q & H & Hq). now inversion H; subst.
Qed.


Lemma isValueType_spec (value : Value) (schemaType : Value) :
  isValueType value (getValueType value) schemaType = true
  <-> schemaType = VStr (getValueType value)
      \/ (schemaType = VStr "integer" /\ hasZeroFraction value).
Proof.
  unfold isValueType.
  rewrite orb_true_iff, andb_true_iff, floorIsSelf_spec, eqb_VStr, eqb_VStr_r.
  reflexivity.
Qed.




(** ** Reads through the proxy *)

(** C10: for every proxy and every symbol key, the [get] trap returns
    [target[property]] as the target gives it: whatever the schema, it is not
    consulted, and the result is never wrapped in a child proxy. *)
Theorem get_symbol_is_passed_through :
  forall (target schema : Value) (id : nat),
    let p := createProxy target schema in
    JsonSchemaProxyHandler.get (proxySchema p) (proxyTarget p) (PSymbol id)
    = JsonSchemaProxyHandler.ReturnsTargetProperty (PSymbol id)
    /\ (forall schema' : Value,
           JsonSchemaProxyHandler.get schema' (proxyTarget p) (PSymbol id)
           = JsonSchemaProxyHandler.get (proxySchema p) (proxyTarget p) (PSymbol id))
    /\ (forall child : Proxy,
           JsonSchemaProxyHandler.get (proxySchema p) (proxyTarget p) (PSymbol id)
           <> JsonSchemaProxyHandler.ReturnsProxy child).
Proof.
  intros target schema id p. repeat split.
  intros child H. discriminate H.
Qed.

(** ** [minProperties] and [maxProperties] *)

(** The comparison [validateObject] makes for [minProperties] and
    [maxProperties] is never true, whatever the bound and the number of
    properties. *)
Lemma property_count_never_compared (schema : Value) (properties : list string) :
  numberField schema "minProperties" (nanLt (SetLength properties)) = false
  /\ numberField schema "maxProperties" (nanGt (SetLength properties)) = false.
Proof.
  unfold numberField. split.
  - destruct (prop schema "minProperties"); reflexivity.
  - destruct (prop schema "maxProperties"); reflexivity.
Qed.

(** C3 (the code at the failing inputs): an object with no property is
    accepted under [minProperties: 1], and an object with two properties is
    accepted under [maxProperties: 1]. *)
Theorem property_count_bounds_ignored :
  forall (getRegex : string -> string -> (string -> bool) + string) (fuel : nat),
    let atLeastOne := VObj 10 [("type", VStr "object"); ("minProperties", VNum 1)] in
    let atMostOne := VObj 11 [("type", VStr "object"); ("maxProperties", VNum 1)] in
    let empty := VObj 1 [] in
    let two := VObj 2 [("a", VNum 1); ("b", VNum 2)] in
    JsonSchema_validate getRegex (2 + fuel) empty atLeastOne
    = Normal (newTraversalInfo empty atLeastOne)
    /\ JsonSchema_validate getRegex (2 + fuel) two atMostOne
       = Normal (newTraversalInfo two atMostOne).
Proof.
  intros getRegex fuel. split; reflexivity.
Qed.

(** ** The default of a list of types *)

Lemma getDefaultTypeValue_list (ref : nat) (types : list Value) (next : nat) :
  getDefaultTypeValue (VArr ref types) next = (VNull, next).
Proof. reflexivity. Qed.

Lemma null_fits_only_null (ref : nat) (types : list Value) :
  ~ In (VStr "null") types ->
  isValueTypeAny VNull (getValueType VNull) (VArr ref types) = false.
Proof.
  intro Hnot. simpl. apply not_true_is_false. intro H.
  apply existsb_exists in H. destruct H as (t & Ht & H).
  apply isValueType_spec in H. destruct H as [H | [_ (q & H & _)]].
  - subst t. exact (Hnot Ht).
  - discriminate H.
Qed.

(** C9: when [schema.type] is a list, the value fails the type check, and
    [schema.default] is absent or fails it too, [getValidValueOrDefault]
    returns [null], whichever names the list holds; for a list without
    ["null"] that result fails the schema's own type check. *)
Theorem list_type_falls_back_to_null :
  forall (fuel : nat) (schema value : Value) (ref : nat) (types : list Value)
         (next : nat),
    prop schema "type" = VArr ref types ->
    isValueTypeAny value (getValueType value) (VArr ref types) = false ->
    (prop schema "default" = VUndefined
     \/ (let copy := fst (clone (prop schema "default") next) in
         isValueTypeAny copy (getValueType copy) (VArr ref types) = false)) ->
    (exists next', getValidValueOrDefault (S fuel) schema value next = Returns VNull next')
    /\ (~ In (VStr "null") types ->
        isValueTypeAny VNull (getValueType VNull) (prop schema "type") = false).
Proof.
  intros fuel schema value ref types next Htype Hvalue Hdefault. split.
  - assert (Hschema : isNullish schema = false).
    { destruct schema; try reflexivity; discriminate Htype. }
    cbn [getValidValueOrDefault]. unfold getValidValueOrDefaultStep, chooseValue.
    rewrite Hschema, Htype, Hvalue.
    destruct Hdefault as [Hd | Hd].
    + rewrite Hd, getDefaultTypeValue_list. now exists next.
    + cbv zeta in Hd.
      destruct (prop schema "default") eqn:Hdef;
        [ rewrite getDefaultTypeValue_list; now exists next | .. ];
        (destruct (clone _ next) as [copy next1]; cbn [fst] in Hd; rewrite Hd;
         rewrite getDefaultTypeValue_list; now exists next1).
  - intro Hnot. rewrite Htype. now apply null_fits_only_null.
Qed.

Lemma list_type_falls_back_to_null_witness :
  let schema := VObj 10 [("type", VArr 11 [VStr "string"; VStr "number"]);
                         ("default", VBool true)] in
  (exists next', getValidValueOrDefault 1 schema (VObj 1 []) 100 = Returns VNull next')
  /\ (~ In (VStr "null") [VStr "string"; VStr "number"] ->
      isValueTypeAny VNull (getValueType VNull) (prop schema "type") = false).
Proof.
  intro schema.
  apply (list_type_falls_back_to_null 0 schema (VObj 1 []) 11
           [VStr "string"; VStr "number"] 100).
  - reflexivity.
  - reflexivity.
  - right. reflexivity.
Defined.

(** ** Depth of values and of the schemas reached from a schema *)

Lemma depth_VArr (ref : nat) (items : list Value) :
  depth (VArr ref items) = S (deepestItem items).
Proof.
  reflexivity.
Qed.

Lemma depth_VObj (ref : nat) (props : list (string * Value)) :
  depth (VObj ref props) = S (deepestProp props).
Proof.
  simpl. f_equal. induction props as [| [k x] l IH]; simpl; [reflexivity | now rewrite IH].
Qed.

Lemma deepestItem_In (items : list Value) (x : Value) :
  In x items -> depth x <= deepestItem items.
Proof.
  induction items as [| y l IH]; simpl; [contradiction |].
  intros [-> | H]; [lia | specialize (IH H); lia].
Qed.

Lemma deepestItem_nth (items : list Value) (i : nat) :
  depth (nth i items VUndefined) <= deepestItem items.
Proof.
  destruct (Nat.lt_ge_cases i (List.length items)) as [H | H].
  - apply deepestItem_In, nth_In, H.
  - rewrite nth_overflow by exact H. simpl. lia.
Qed.

Lemma deepestProp_lookup (props : list (string * Value)) (name : string) (x : Value) :
  lookup name props = Some x -> depth x <= deepestProp props.
Proof.
  induction props as [| [k y] l IH]; simpl; [discriminate |].
  destruct (String.eqb k name).
  - intro H. injection H as ->. lia.
  - intro H. specialize (IH H). lia.
Qed.

Lemma depth_prop (v : Value) (name : string) :
  depth (prop v name) <= pred (depth v).
Proof.
  destruct v; try (simpl; lia).
  rewrite depth_VObj. unfold prop.
  destruct (lookup name props) as [x |] eqn:H; simpl; [| lia].
  now apply deepestProp_lookup in H.
Qed.

Lemma depth_propAt (v : Value) (k : PropertyKey) :
  depth (propAt v k) <= pred (depth v).
Proof.
  unfold propAt. destruct (keyString k); [apply depth_prop | simpl; lia].
Qed.

Lemma depth_propertyThrough (v : Value) (k : PropertyKey) :
  depth (propertyThrough v k) <= Nat.max (pred (depth v)) 1.
Proof.
  unfold propertyThrough. destruct v; try (simpl; lia).
  destruct (keyString k) as [name |]; [| simpl; lia].
  rewrite depth_VObj.
  destruct (lookup name props) as [x |] eqn:H.
  - apply deepestProp_lookup in H. simpl. lia.
  - destruct (String.eqb name "__proto__"); [| simpl; lia].
    destruct (Nat.eqb ref 3); simpl; lia.
Qed.

Lemma depth_itemAt (items : list Value) (k : PropertyKey) :
  depth (itemAt items k) <= deepestItem items.
Proof.
  destruct k as [s | n | id]; simpl; try lia.
  - destruct (canonicalIndex s); [apply deepestItem_nth | simpl; lia].
  - apply deepestItem_nth.
Qed.

Lemma depth_member (v : Value) (k : PropertyKey) :
  depth (member v k) <= pred (depth v).
Proof.
  destruct v; try (simpl; lia).
  - unfold member. rewrite depth_VArr. simpl. apply depth_itemAt.
  - unfold member. apply depth_propAt.
Qed.

Lemma depth_isObject (v : Value) : isObject v = true -> 1 <= depth v.
Proof. destruct v; try discriminate. intros _. rewrite depth_VObj. lia. Qed.

Lemma depth_unconstrainedSchema : depth unconstrainedSchema = 1.
Proof. reflexivity. Qed.

(** A resolved schema is the unconstrained schema or an object strictly
    inside the schema. *)
Lemma resolveAdditional_cases (name : string) (schema ps : Value) (path : list PathEntry) :
  resolveAdditional name schema = Resolved ps path ->
  (ps = unconstrainedSchema /\ path = [(None, unconstrainedSchema)])
  \/ (ps = prop schema name /\ isObject ps = true /\ path = [(Some (PName name), ps)]).
Proof.
  unfold resolveAdditional.
  destruct (prop schema name) as [| | [|] | | | |] eqn:H; intro R;
    inversion R; subst; auto.
Qed.

Lemma resolveAdditional_depth (name : string) (schema ps : Value) (path : list PathEntry) :
  resolveAdditional name schema = Resolved ps path ->
  ps = unconstrainedSchema \/ (isObject ps = true /\ depth ps < depth schema).
Proof.
  intro H. apply resolveAdditional_cases in H.
  destruct H as [[-> _] | (-> & Hobj & _)]; [now left | right].
  split; [exact Hobj |].
  pose proof (depth_prop schema name). pose proof (depth_isObject _ Hobj). lia.
Qed.

Lemma getPropertySchema_cases (schema value : Value) (k : PropertyKey)
  (ps : Value) (path : list PathEntry) :
  getPropertySchema schema k value = Resolved ps path ->
  ps = unconstrainedSchema \/ (isObject ps = true /\ depth ps < depth schema).
Proof.
  unfold getPropertySchema.
  destruct (valuesAreEqual (getSchemaOrValueType schema value) (VStr "object")).
  - destruct (isObject (prop schema "properties")
              && isObject (propertyThrough (prop schema "properties") k)) eqn:Hobj.
    + intro H. inversion H; subst. right.
      apply andb_true_iff in Hobj. destruct Hobj as [Hprops Hobj].
      split; [exact Hobj |].
      pose proof (depth_propertyThrough (prop schema "properties") k).
      pose proof (depth_prop schema "properties").
      pose proof (depth_isObject _ Hprops). lia.
    + apply resolveAdditional_depth.
  - destruct (valuesAreEqual (getSchemaOrValueType schema value) (VStr "array"));
      [| discriminate].
    destruct (prop schema "items") as [| | | | | r itemList | r props] eqn:Hitems;
      try apply resolveAdditional_depth.
    + destruct k as [s | n | id]; [| | discriminate].
      * destruct (isObject (itemAt itemList (PName s))) eqn:Hobj;
          [| apply resolveAdditional_depth].
        intro H. injection H as <- _. right. split; [exact Hobj |].
        pose proof (depth_itemAt itemList (PName s)).
        pose proof (depth_prop schema "items") as Hp. rewrite Hitems, depth_VArr in Hp.
        unfold itemAt in *. lia.
      * destruct (isObject (itemAt itemList (PIndex n))) eqn:Hobj;
          [| apply resolveAdditional_depth].
        intro H. injection H as <- _. right. split; [exact Hobj |].
        pose proof (depth_itemAt itemList (PIndex n)).
        pose proof (depth_prop schema "items") as Hp. rewrite Hitems, depth_VArr in Hp.
        unfold itemAt in *. lia.
    + intro H. inversion H; subst. right. split; [reflexivity |].
      pose proof (depth_prop schema "items") as Hp. rewrite Hitems in Hp.
      pose proof (depth_isObject (VObj r props) eq_refl). lia.
Qed.

Lemma getPropertySchema_fuel (schema value : Value) (k : PropertyKey)
  (ps : Value) (path : list PathEntry) :
  getPropertySchema schema k value = Resolved ps path ->
  Nat.max (depth ps) 1 <= Nat.max (depth schema) 1.
Proof.
  intro H. apply getPropertySchema_cases in H.
  destruct H as [-> | [_ H]]; [rewrite depth_unconstrainedSchema |]; lia.
Qed.

(** ** [validate] returns or throws when it has enough fuel *)

Lemma andThen_total (c : Completion) (k : TraversalInfo -> Completion) :
  c <> OutOfFuel -> (forall i, k i <> OutOfFuel) -> c ;; k <> OutOfFuel.
Proof. destruct c; simpl; auto. Qed.

Lemma throwIf_total (cond : bool) (message : Message) (value schema : Value)
  (info : TraversalInfo) :
  throwIf cond message value schema info <> OutOfFuel.
Proof. unfold throwIf. destruct cond; discriminate. Qed.

(** Peel the sequenced checks off a goal [_ <> OutOfFuel]. *)
Ltac peel_total :=
  repeat match goal with
    | |- forall _ : TraversalInfo, _ => intro
    | |- (_ ;; _) <> OutOfFuel => apply andThen_total
    | |- throwIf _ _ _ _ _ <> OutOfFuel => apply throwIf_total
    | |- Normal _ <> OutOfFuel => discriminate
    | |- Throw _ _ <> OutOfFuel => discriminate
    end.

Section ValidateTotal.

Variable getRegex : string -> string -> (string -> bool) + string.
Variable rec : Value -> Value -> TraversalInfo -> Completion.
Variable m : nat.
Hypothesis rec_total :
  forall v s i, Nat.max (depth s) 1 + depth v < m -> rec v s i <> OutOfFuel.

Lemma validateNumber_total (value : Q) (schema : Value) (info : TraversalInfo) :
  validateNumber value schema info <> OutOfFuel.
Proof. unfold validateNumber. peel_total. Qed.

Lemma validateString_total (value : string) (schema : Value) (info : TraversalInfo) :
  validateString getRegex value schema info <> OutOfFuel.
Proof.
  unfold validateString. peel_total.
  destruct (prop schema "pattern"); peel_total.
  destruct (getRegex s _); peel_total.
Qed.

Lemma validateMember_total (value schema : Value) (k : PropertyKey)
  (noSchema : Message) (info : TraversalInfo) :
  Nat.max (depth schema) 1 + depth value <= m ->
  1 <= depth value ->
  validateMember rec value schema k noSchema info <> OutOfFuel.
Proof.
  intros Hm Hv. unfold validateMember.
  destruct (getPropertySchema schema k value) as [ps path | |] eqn:Hps;
    peel_total.
  apply rec_total.
  pose proof (getPropertySchema_fuel _ _ _ _ _ Hps).
  pose proof (depth_member value k). lia.
Qed.

Lemma validateArrayItems_total (value schema : Value) (count i : nat)
  (info : TraversalInfo) :
  Nat.max (depth schema) 1 + depth value <= m ->
  1 <= depth value ->
  validateArrayItems rec value schema i count info <> OutOfFuel.
Proof.
  intros Hm Hv. revert i info.
  induction count as [| count IH]; intros i info; simpl; peel_total.
  - now apply validateMember_total.
  - apply IH.
Qed.

Lemma validateRequired_total (value schema : Value) (properties : list string)
  (required : list Value) (info : TraversalInfo) :
  validateRequired value schema properties required info <> OutOfFuel.
Proof.
  revert info. induction required as [| p rest IH]; intro info; simpl;
    peel_total. apply IH.
Qed.

Lemma validateProperties_total (value schema : Value) (properties : list string)
  (info : TraversalInfo) :
  Nat.max (depth schema) 1 + depth value <= m ->
  1 <= depth value ->
  validateProperties rec value schema properties info <> OutOfFuel.
Proof.
  intros Hm Hv. revert info.
  induction properties as [| p rest IH]; intro info; simpl; peel_total.
  - now apply validateMember_total.
  - apply IH.
Qed.

Lemma validateSingleSchema_total (value schema : Value) (info : TraversalInfo) :
  Nat.max (depth schema) 1 + depth value <= m ->
  validateSingleSchema getRegex rec value schema info <> OutOfFuel.
Proof.
  intro Hm. unfold validateSingleSchema.
  destruct (isNullish schema); peel_total.
  destruct value; peel_total.
  - apply validateNumber_total.
  - apply validateString_total.
  - unfold validateArray. peel_total.
    apply validateArrayItems_total; [exact Hm |].
    rewrite depth_VArr. lia.
  - unfold validateObject. peel_total.
    + destruct (prop schema "required"); peel_total.
      apply validateRequired_total.
    + apply validateProperties_total; [exact Hm |].
      rewrite depth_VObj. lia.
Qed.

(** A sub-schema listed under a combinator, and the schema of a branch of
    the conditional, leave fuel to spare. *)
Lemma listed_fuel (schema value : Value) (name : string) (ref : nat)
  (subSchemas : list Value) (subSchema : Value) :
  Nat.max (depth schema) 1 + depth value <= m ->
  prop schema name = VArr ref subSchemas ->
  In subSchema subSchemas ->
  Nat.max (depth subSchema) 1 + depth value < m.
Proof.
  intros Hm Hprop Hin.
  pose proof (depth_prop schema name) as H. rewrite Hprop, depth_VArr in H.
  pose proof (deepestItem_In _ _ Hin). lia.
Qed.

Lemma branch_fuel (schema value : Value) (name : string) :
  Nat.max (depth schema) 1 + depth value <= m ->
  isObject (prop schema name) = true ->
  Nat.max (depth (prop schema name)) 1 + depth value < m.
Proof.
  intros Hm Hobj.
  pose proof (depth_prop schema name). pose proof (depth_isObject _ Hobj). lia.
Qed.

Lemma validateConditional_total (value schema : Value) (info : TraversalInfo) :
  Nat.max (depth schema) 1 + depth value <= m ->
  validateConditional rec value schema info <> OutOfFuel.
Proof.
  intro Hm. unfold validateConditional.
  destruct (isObject (prop schema "if")) eqn:Hif; simpl; peel_total.
  pose proof (rec_total value (prop schema "if")
                (schemaPush (Some (PName "if")) (prop schema "if") info)
                (branch_fuel _ _ _ Hm Hif)) as Hrec.
  destruct (rec value (prop schema "if") _); [| | congruence].
  - destruct (isObject (prop schema "then")) eqn:Hobj; peel_total.
    apply rec_total. now apply branch_fuel.
  - destruct (isObject (prop schema "else")) eqn:Hobj; peel_total.
    apply rec_total. now apply branch_fuel.
Qed.

Lemma validateAllOfFrom_total (value : Value) (subSchemas : list Value) (i : nat)
  (info : TraversalInfo) :
  (forall s, In s subSchemas -> Nat.max (depth s) 1 + depth value < m) ->
  validateAllOfFrom rec value subSchemas i info <> OutOfFuel.
Proof.
  revert i info. induction subSchemas as [| s rest IH]; intros i info Hin; simpl;
    peel_total.
  - apply rec_total, Hin. now left.
  - apply IH. intros s' Hs'. apply Hin. now right.
Qed.

Lemma validateAnyOfFrom_total (value schema : Value) (subSchemas : list Value)
  (i : nat) (info : TraversalInfo) :
  (forall s, In s subSchemas -> Nat.max (depth s) 1 + depth value < m) ->
  validateAnyOfFrom rec value schema subSchemas i info <> OutOfFuel.
Proof.
  revert i info. induction subSchemas as [| s rest IH]; intros i info Hin; simpl;
    peel_total.
  pose proof (rec_total value s (schemaPush (Some (PIndex i)) s info)
                (Hin s (or_introl eq_refl))) as Hrec.
  destruct (rec value s _); [peel_total | | congruence].
  apply IH. intros s' Hs'. apply Hin. now right.
Qed.

Lemma validateOneOfFrom_total (value : Value) (subSchemas : list Value)
  (i count : nat) (info : TraversalInfo) :
  (forall s, In s subSchemas -> Nat.max (depth s) 1 + depth value < m) ->
  validateOneOfFrom rec value subSchemas i count info <> None.
Proof.
  revert i count info.
  induction subSchemas as [| s rest IH]; intros i count info Hin; simpl;
    [discriminate |].
  pose proof (rec_total value s (schemaPush (Some (PIndex i)) s info)
                (Hin s (or_introl eq_refl))) as Hrec.
  destruct (rec value s _); [| | congruence];
    apply IH; intros s' Hs'; apply Hin; now right.
Qed.

Lemma validateNoneOfFrom_total (value schema : Value) (subSchemas : list Value)
  (i : nat) (info : TraversalInfo) :
  (forall s, In s subSchemas -> Nat.max (depth s) 1 + depth value < m) ->
  validateNoneOfFrom rec value schema subSchemas i info <> OutOfFuel.
Proof.
  revert i info. induction subSchemas as [| s rest IH]; intros i info Hin; simpl;
    peel_total.
  pose proof (rec_total value s (schemaPush (Some (PIndex i)) s info)
                (Hin s (or_introl eq_refl))) as Hrec.
  destruct (rec value s _); [peel_total | | congruence].
  apply IH. intros s' Hs'. apply Hin. now right.
Qed.

Lemma validateStep_total (value schema : Value) (info : TraversalInfo) :
  Nat.max (depth schema) 1 + depth value <= m ->
  validateStep getRegex rec value schema info <> OutOfFuel.
Proof.
  intro Hm. unfold validateStep. peel_total.
  - now apply validateSingleSchema_total.
  - now apply validateConditional_total.
  - unfold validateAllOf.
    destruct (prop schema "allOf") eqn:Hp; peel_total.
    apply validateAllOfFrom_total. intros s Hs. eapply listed_fuel; eauto.
  - unfold validateAnyOf.
    destruct (prop schema "anyOf") eqn:Hp; peel_total.
    apply validateAnyOfFrom_total. intros s Hs. eapply listed_fuel; eauto.
  - unfold validateOneOf.
    destruct (prop schema "oneOf") eqn:Hp; peel_total.
    match goal with
    | |- context [validateOneOfFrom rec value items 0 0 ?i] =>
        pose proof (validateOneOfFrom_total value items 0 0 i) as H;
        destruct (validateOneOfFrom rec value items 0 0 i) as [[count i'] |]
    end.
    + peel_total.
    + exfalso. apply H; [| reflexivity]. intros s Hs. eapply listed_fuel; eauto.
  - unfold validateNoneOf.
    destruct (prop schema "not") eqn:Hp; peel_total.
    apply validateNoneOfFrom_total. intros s Hs. eapply listed_fuel; eauto.
Qed.

End ValidateTotal.

Lemma validate_total (getRegex : string -> string -> (string -> bool) + string)
  (fuel : nat) (value schema : Value) (info : TraversalInfo) :
  validateFuel schema value <= fuel ->
  validate getRegex fuel value schema info <> OutOfFuel.
Proof.
  unfold validateFuel. revert value schema info.
  induction fuel as [| fuel IH]; intros value schema info Hfuel; [lia |].
  simpl. apply validateStep_total with (m := fuel); [| lia].
  intros v s i H. apply IH. lia.
Qed.

(** ** The verdict of [validate] does not depend on the traversal state *)

Lemma andThen_verdict (c1 c2 : Completion) (k1 k2 : TraversalInfo -> Completion) :
  verdict c1 = verdict c2 ->
  (forall i1 i2, verdict (k1 i1) = verdict (k2 i2)) ->
  verdict (c1 ;; k1) = verdict (c2 ;; k2).
Proof.
  destruct c1, c2; simpl; intros H Hk; try discriminate H; auto.
Qed.

Lemma throwIf_verdict (cond : bool) (message : Message) (value schema : Value)
  (i1 i2 : TraversalInfo) :
  verdict (throwIf cond message value schema i1)
  = verdict (throwIf cond message value schema i2).
Proof. unfold throwIf. now destruct cond. Qed.

(** Peel the sequenced checks off a goal [verdict _ = verdict _]. *)
Ltac peel_verdict :=
  repeat match goal with
    | |- forall _ : TraversalInfo, _ => intro
    | |- verdict (_ ;; _) = verdict (_ ;; _) => apply andThen_verdict
    | |- verdict (throwIf _ _ _ _ _) = verdict (throwIf _ _ _ _ _) =>
        apply throwIf_verdict
    | |- verdict (Normal _) = verdict (Normal _) => reflexivity
    | |- verdict (Throw ?e _) = verdict (Throw ?e _) => reflexivity
    | |- verdict OutOfFuel = verdict OutOfFuel => reflexivity
    end.

(** Unfold one turn of a loop of the validator. *)
Ltac unroll :=
  cbn [validateArrayItems validateRequired validateProperties validateAllOfFrom
       validateAnyOfFrom validateOneOfFrom validateNoneOfFrom].

Section ValidateVerdict.

Variable getRegex : string -> string -> (string -> bool) + string.
Variable rec : Value -> Value -> TraversalInfo -> Completion.
Hypothesis rec_verdict :
  forall v s i1 i2, verdict (rec v s i1) = verdict (rec v s i2).

Lemma validateNumber_verdict (value : Q) (schema : Value) (i1 i2 : TraversalInfo) :
  verdict (validateNumber value schema i1) = verdict (validateNumber value schema i2).
Proof. unfold validateNumber. peel_verdict. Qed.

Lemma validateString_verdict (value : string) (schema : Value) (i1 i2 : TraversalInfo) :
  verdict (validateString getRegex value schema i1)
  = verdict (validateString getRegex value schema i2).
Proof.
  unfold validateString. peel_verdict.
  destruct (prop schema "pattern"); peel_verdict.
  destruct (getRegex s _); peel_verdict.
Qed.

Lemma validateMember_verdict (value schema : Value) (k : PropertyKey)
  (noSchema : Message) (i1 i2 : TraversalInfo) :
  verdict (validateMember rec value schema k noSchema i1)
  = verdict (validateMember rec value schema k noSchema i2).
Proof.
  unfold validateMember.
  destruct (getPropertySchema schema k value); peel_verdict. apply rec_verdict.
Qed.

Lemma validateArrayItems_verdict (value schema : Value) (count i : nat)
  (i1 i2 : TraversalInfo) :
  verdict (validateArrayItems rec value schema i count i1)
  = verdict (validateArrayItems rec value schema i count i2).
Proof.
  revert i i1 i2. induction count as [| count IH]; intros i i1 i2; unroll; peel_verdict.
  - apply validateMember_verdict.
  - apply IH.
Qed.

Lemma validateRequired_verdict (value schema : Value) (properties : list string)
  (required : list Value) (i1 i2 : TraversalInfo) :
  verdict (validateRequired value schema properties required i1)
  = verdict (validateRequired value schema properties required i2).
Proof.
  revert i1 i2. induction required as [| p rest IH]; intros i1 i2; unroll; peel_verdict.
  apply IH.
Qed.

Lemma validateProperties_verdict (value schema : Value) (properties : list string)
  (i1 i2 : TraversalInfo) :
  verdict (validateProperties rec value schema properties i1)
  = verdict (validateProperties rec value schema properties i2).
Proof.
  revert i1 i2. induction properties as [| p rest IH]; intros i1 i2; unroll; peel_verdict.
  - apply validateMember_verdict.
  - apply IH.
Qed.

Lemma validateSingleSchema_verdict (value schema : Value) (i1 i2 : TraversalInfo) :
  verdict (validateSingleSchema getRegex rec value schema i1)
  = verdict (validateSingleSchema getRegex rec value schema i2).
Proof.
  unfold validateSingleSchema. destruct (isNullish schema); peel_verdict.
  destruct value; peel_verdict.
  - apply validateNumber_verdict.
  - apply validateString_verdict.
  - unfold validateArray. peel_verdict. apply validateArrayItems_verdict.
  - unfold validateObject. peel_verdict.
    + destruct (prop schema "required"); peel_verdict. apply validateRequired_verdict.
    + apply validateProperties_verdict.
Qed.

Lemma validateConditional_verdict (value schema : Value) (i1 i2 : TraversalInfo) :
  verdict (validateConditional rec value schema i1)
  = verdict (validateConditional rec value schema i2).
Proof.
  unfold validateConditional.
  destruct (isObject (prop schema "if")); simpl; [| reflexivity].
  pose proof (rec_verdict value (prop schema "if")
                (schemaPush (Some (PName "if")) (prop schema "if") i1)
                (schemaPush (Some (PName "if")) (prop schema "if") i2)) as H.
  destruct (rec value (prop schema "if") (schemaPush _ _ i1)),
           (rec value (prop schema "if") (schemaPush _ _ i2));
    try discriminate H; try reflexivity.
  - destruct (isObject (prop schema "then")); peel_verdict. apply rec_verdict.
  - destruct (isObject (prop schema "else")); peel_verdict. apply rec_verdict.
Qed.

Lemma validateAllOfFrom_verdict (value : Value) (subSchemas : list Value) (i : nat)
  (i1 i2 : TraversalInfo) :
  verdict (validateAllOfFrom rec value subSchemas i i1)
  = verdict (validateAllOfFrom rec value subSchemas i i2).
Proof.
  revert i i1 i2. induction subSchemas as [| s rest IH]; intros i i1 i2; unroll;
    peel_verdict.
  - apply rec_verdict.
  - apply IH.
Qed.

Lemma validateAnyOfFrom_verdict (value schema : Value) (subSchemas : list Value)
  (i : nat) (i1 i2 : TraversalInfo) :
  verdict (validateAnyOfFrom rec value schema subSchemas i i1)
  = verdict (validateAnyOfFrom rec value schema subSchemas i i2).
Proof.
  revert i i1 i2. induction subSchemas as [| s rest IH]; intros i i1 i2; unroll;
    peel_verdict.
  pose proof (rec_verdict value s (schemaPush (Some (PIndex i)) s i1)
                (schemaPush (Some (PIndex i)) s i2)) as H.
  destruct (rec value s (schemaPush _ _ i1)), (rec value s (schemaPush _ _ i2));
    try discriminate H; try reflexivity.
  apply IH.
Qed.

Lemma validateOneOfFrom_count (value : Value) (subSchemas : list Value)
  (i count : nat) (i1 i2 : TraversalInfo) :
  option_map fst (validateOneOfFrom rec value subSchemas i count i1)
  = option_map fst (validateOneOfFrom rec value subSchemas i count i2).
Proof.
  revert i count i1 i2.
  induction subSchemas as [| s rest IH]; intros i count i1 i2; unroll; [reflexivity |].
  pose proof (rec_verdict value s (schemaPush (Some (PIndex i)) s i1)
                (schemaPush (Some (PIndex i)) s i2)) as H.
  destruct (rec value s (schemaPush _ _ i1)), (rec value s (schemaPush _ _ i2));
    try discriminate H; try reflexivity; apply IH.
Qed.

Lemma validateNoneOfFrom_verdict (value schema : Value) (subSchemas : list Value)
  (i : nat) (i1 i2 : TraversalInfo) :
  verdict (validateNoneOfFrom rec value schema subSchemas i i1)
  = verdict (validateNoneOfFrom rec value schema subSchemas i i2).
Proof.
  revert i i1 i2. induction subSchemas as [| s rest IH]; intros i i1 i2; unroll;
    peel_verdict.
  pose proof (rec_verdict value s (schemaPush (Some (PIndex i)) s i1)
                (schemaPush (Some (PIndex i)) s i2)) as H.
  destruct (rec value s (schemaPush _ _ i1)), (rec value s (schemaPush _ _ i2));
    try discriminate H; try reflexivity.
  apply IH.
Qed.

Lemma validateOneOf_verdict (value schema : Value) (i1 i2 : TraversalInfo) :
  verdict (validateOneOf rec value schema i1) = verdict (validateOneOf rec value schema i2).
Proof.
  unfold validateOneOf. destruct (prop schema "oneOf"); peel_verdict.
  pose proof (validateOneOfFrom_count value items 0 0
                (schemaPush (Some (PName "oneOf")) (VArr ref items) i1)
                (schemaPush (Some (PName "oneOf")) (VArr ref items) i2)) as H.
  destruct (validateOneOfFrom rec value items 0 0 (schemaPush _ _ i1)) as [[n1 j1] |],
           (validateOneOfFrom rec value items 0 0 (schemaPush _ _ i2)) as [[n2 j2] |];
    simpl in H; try discriminate H; [| reflexivity].
  injection H as <-. peel_verdict.
Qed.

Lemma validateStep_verdict (value schema : Value) (i1 i2 : TraversalInfo) :
  verdict (validateStep getRegex rec value schema i1)
  = verdict (validateStep getRegex rec value schema i2).
Proof.
  unfold validateStep. peel_verdict.
  - apply validateSingleSchema_verdict.
  - apply validateConditional_verdict.
  - unfold validateAllOf. destruct (prop schema "allOf"); peel_verdict.
    apply validateAllOfFrom_verdict.
  - unfold validateAnyOf. destruct (prop schema "anyOf"); peel_verdict.
    apply validateAnyOfFrom_verdict.
  - apply validateOneOf_verdict.
  - unfold validateNoneOf. destruct (prop schema "not"); peel_verdict.
    apply validateNoneOfFrom_verdict.
Qed.

End ValidateVerdict.

Lemma validate_verdict (getRegex : string -> string -> (string -> bool) + string)
  (fuel : nat) (value schema : Value) (i1 i2 : TraversalInfo) :
  verdict (validate getRegex fuel value schema i1)
  = verdict (validate getRegex fuel value schema i2).
Proof.
  revert value schema i1 i2.
  induction fuel as [| fuel IH]; intros value schema i1 i2; [reflexivity |].
  simpl. apply validateStep_verdict. exact IH.
Qed.

(** ** [oneOf] *)

Lemma andThen_Normal (c : Completion) (k : TraversalInfo -> Completion)
  (info' : TraversalInfo) :
  c ;; k = Normal info' -> exists info, c = Normal info /\ k info = Normal info'.
Proof.
  destruct c; simpl; intro H; try discriminate H. now exists info.
Qed.

Lemma accepts_verdict (getRegex : string -> string -> (string -> bool) + string)
  (fuel : nat) (value schema : Value) (info : TraversalInfo) :
  accepts getRegex fuel value schema = true
  <-> exists info', validate getRegex fuel value schema info = Normal info'.
Proof.
  unfold accepts, JsonSchema_validate.
  pose proof (validate_verdict getRegex fuel value schema info
                (newTraversalInfo value schema)) as H.
  destruct (validate getRegex fuel value schema info),
           (validate getRegex fuel value schema (newTraversalInfo value schema));
    try discriminate H; split;
    try discriminate; try (intros [i Hi]; discriminate Hi); eauto.
Qed.

Lemma countMatches_cons (getRegex : string -> string -> (string -> bool) + string)
  (fuel : nat) (value s : Value) (rest : list Value) :
  countMatches getRegex fuel value (s :: rest)
  = (if accepts getRegex fuel value s then 1 else 0)
    + countMatches getRegex fuel value rest.
Proof.
  unfold countMatches. simpl. now destruct (accepts getRegex fuel value s).
Qed.

(** The loop of [validateOneOf] visits every listed sub-schema and returns
    the number of those the value validates against. *)
Lemma validateOneOfFrom_counts
  (getRegex : string -> string -> (string -> bool) + string) (fuel : nat)
  (value : Value) (subSchemas : list Value) (i count : nat) (info : TraversalInfo) :
  (forall s, In s subSchemas -> validateFuel s value <= fuel) ->
  exists info',
    validateOneOfFrom (validate getRegex fuel) value subSchemas i count info
    = Some (count + countMatches getRegex fuel value subSchemas, info').
Proof.
  revert i count info.
  induction subSchemas as [| s rest IH]; intros i count info Hfuel.
  - exists info. unfold countMatches. simpl. now rewrite Nat.add_0_r.
  - unroll. rewrite countMatches_cons.
    assert (Hrest : forall s', In s' rest -> validateFuel s' value <= fuel)
      by (intros s' Hs'; apply Hfuel; now right).
    pose proof (validate_total getRegex fuel value s
                  (schemaPush (Some (PIndex i)) s info)
                  (Hfuel s (or_introl eq_refl))) as Htotal.
    pose proof (accepts_verdict getRegex fuel value s
                  (schemaPush (Some (PIndex i)) s info)) as Hacc.
    destruct (validate getRegex fuel value s (schemaPush (Some (PIndex i)) s info))
      as [info1 | e info1 |]; [| | congruence].
    + replace (accepts getRegex fuel value s) with true
        by (symmetry; apply Hacc; eauto).
      destruct (IH (S i) (S count) (schemaPop info1) Hrest) as [info' H].
      exists info'. rewrite H. do 2 f_equal. lia.
    + replace (accepts getRegex fuel value s) with false.
      * destruct (IH (S i) count (schemaPop info1) Hrest) as [info' H].
        exists info'. rewrite H. do 2 f_equal.
      * symmetry. apply not_true_is_false. intro Ht.
        apply Hacc in Ht. destruct Ht as [i' Hi']. discriminate Hi'.
Qed.

Lemma listed_validateFuel (schema value : Value) (name : string) (ref : nat)
  (subSchemas : list Value) (fuel : nat) :
  validateFuel schema value <= S fuel ->
  prop schema name = VArr ref subSchemas ->
  forall s, In s subSchemas -> validateFuel s value <= fuel.
Proof.
  unfold validateFuel. intros Hfuel Hprop s Hs.
  assert (Nat.max (depth s) 1 + depth value < fuel); [| lia].
  eapply listed_fuel; eauto. lia.
Qed.

(** C7: when [schema.oneOf] is a list, [validateOneOf] tries every listed
    sub-schema, counts those the value validates against, returns normally
    when the count is 1 and otherwise throws the error that reports the
    count; a [validate] that returns normally has found exactly one. *)
Theorem oneOf_counts_every_match :
  forall (getRegex : string -> string -> (string -> bool) + string) (fuel : nat)
         (value schema : Value) (ref : nat) (subSchemas : list Value)
         (info : TraversalInfo),
    prop schema "oneOf" = VArr ref subSchemas ->
    validateFuel schema value <= S fuel ->
    let count := countMatches getRegex fuel value subSchemas in
    (exists info',
        validateOneOf (validate getRegex fuel) value schema info
        = if count =? 1 then Normal info'
          else Throw (ValidationError (MsgOneOfMatched count) value schema) info')
    /\ (forall info',
           validate getRegex (S fuel) value schema info = Normal info' -> count = 1).
Proof.
  intros getRegex fuel value schema ref subSchemas info Hprop Hfuel count.
  assert (Hone : forall i, exists info',
             validateOneOf (validate getRegex fuel) value schema i
             = if count =? 1 then Normal info'
               else Throw (ValidationError (MsgOneOfMatched count) value schema) info').
  { intro i. unfold validateOneOf. rewrite Hprop.
    destruct (validateOneOfFrom_counts getRegex fuel value subSchemas 0 0
                (schemaPush (Some (PName "oneOf")) (VArr ref subSchemas) i)
                (listed_validateFuel _ _ _ _ _ _ Hfuel Hprop)) as [info1 H].
    rewrite H. simpl. fold count. unfold throwIf.
    destruct (count =? 1); simpl; eauto. }
  split; [apply Hone |].
  intros info' H. cbn [validate] in H. unfold validateStep in H.
  apply andThen_Normal in H. destruct H as (i5 & H & _).
  apply andThen_Normal in H. destruct H as (i4 & _ & H).
  destruct (Hone i4) as [info1 H1]. rewrite H in H1.
  destruct (count =? 1) eqn:Hc; [now apply Nat.eqb_eq | discriminate H1].
Qed.

Lemma oneOf_counts_every_match_witness :
  let schema := VObj 10 [("oneOf", VArr 11 [typeSchema 12 "number"; typeSchema 13 "integer"])] in
  (exists info',
      validateOneOf (validate literalRegex 3) (VNum (3 # 2)) schema
        (newTraversalInfo (VNum (3 # 2)) schema) = Normal info')
  /\ (exists info',
         validateOneOf (validate literalRegex 3) (VNum 1) schema
           (newTraversalInfo (VNum 1) schema)
         = Throw (ValidationError (MsgOneOfMatched 2) (VNum 1) schema) info').
Proof.
  intro schema. split.
  - exact (proj1 (oneOf_counts_every_match literalRegex 3 (VNum (3 # 2)) schema 11
                    [typeSchema 12 "number"; typeSchema 13 "integer"]
                    (newTraversalInfo (VNum (3 # 2)) schema) eq_refl
                    (le_n 4))).
  - exact (proj1 (oneOf_counts_every_match literalRegex 3 (VNum 1) schema 11
                    [typeSchema 12 "number"; typeSchema 13 "integer"]
                    (newTraversalInfo (VNum 1) schema) eq_refl
                    (le_n 4))).
Defined.

(** ** [const] *)

Lemma valuesAreEqual_undefined (c : Value) :
  valuesAreEqual c VUndefined = true <-> c = VUndefined.
Proof. destruct c; simpl; split; intro H; try discriminate H; reflexivity. Qed.

Section Unconstrained.

Variable rec : Value -> Value -> TraversalInfo -> Completion.
Variable m : nat.
Hypothesis rec_unconstrained :
  forall v i, depth v < m -> rec v unconstrainedSchema i = Normal i.

(** A schema under which every member of an array or object is governed by
    the unconstrained schema. *)
Variable schema : Value.
Hypothesis members_unconstrained :
  forall k value,
    isArray value || isObject value = true ->
    getPropertySchema schema k value
    = Resolved unconstrainedSchema [(None, unconstrainedSchema)].

Lemma validateMember_unconstrained (value : Value) (k : PropertyKey)
  (noSchema : Message) (info : TraversalInfo) :
  isArray value || isObject value = true ->
  depth value <= m ->
  validateMember rec value schema k noSchema info = Normal info.
Proof.
  intros Hc Hm. unfold validateMember. rewrite members_unconstrained by exact Hc.
  rewrite rec_unconstrained.
  - destruct info. reflexivity.
  - pose proof (depth_member value k).
    assert (1 <= depth value) by (destruct value; try discriminate Hc; simpl; lia).
    lia.
Qed.

Lemma validateArrayItems_unconstrained (value : Value) (count i : nat)
  (info : TraversalInfo) :
  isArray value || isObject value = true ->
  depth value <= m ->
  validateArrayItems rec value schema i count info = Normal info.
Proof.
  intros Hc Hm. revert i. induction count as [| count IH]; intro i; unroll;
    [reflexivity |].
  rewrite validateMember_unconstrained by assumption. apply IH.
Qed.

Lemma validateProperties_unconstrained (value : Value) (properties : list string)
  (info : TraversalInfo) :
  isArray value || isObject value = true ->
  depth value <= m ->
  validateProperties rec value schema properties info = Normal info.
Proof.
  intros Hc Hm. induction properties as [| p rest IH]; unroll; [reflexivity |].
  rewrite validateMember_unconstrained by assumption. apply IH.
Qed.

End Unconstrained.

Lemma unconstrained_members (k : PropertyKey) (value : Value) :
  isArray value || isObject value = true ->
  getPropertySchema unconstrainedSchema k value
  = Resolved unconstrainedSchema [(None, unconstrainedSchema)].
Proof. destruct value; try discriminate; reflexivity. Qed.

Lemma const_only_members (ref : nat) (c : Value) (k : PropertyKey) (value : Value) :
  isArray value || isObject value = true ->
  getPropertySchema (VObj ref [("const", c)]) k value
  = Resolved unconstrainedSchema [(None, unconstrainedSchema)].
Proof. destruct value; try discriminate; reflexivity. Qed.

(** The unconstrained schema accepts every value and leaves the traversal
    state as it was. *)
Lemma validate_unconstrained (getRegex : string -> string -> (string -> bool) + string)
  (fuel : nat) (value : Value) (info : TraversalInfo) :
  depth value < fuel ->
  validate getRegex fuel value unconstrainedSchema info = Normal info.
Proof.
  revert value info. induction fuel as [| fuel IH]; intros value info Hfuel; [lia |].
  cbn [validate]. unfold validateStep, validateSingleSchema.
  destruct value; try reflexivity.
  - cbn. rewrite validateArrayItems_unconstrained with (m := fuel);
      auto using unconstrained_members. lia.
  - cbn. rewrite validateProperties_unconstrained with (m := fuel);
      auto using unconstrained_members. lia.
Qed.

Lemma validate_const_only (getRegex : string -> string -> (string -> bool) + string)
  (fuel : nat) (value : Value) (ref : nat) (c : Value) (info : TraversalInfo) :
  c <> VUndefined ->
  depth value < fuel ->
  valuesAreEqual value c = true ->
  validate getRegex fuel value (VObj ref [("const", c)]) info = Normal info.
Proof.
  intros Hc Hfuel Heq. destruct fuel as [| fuel]; [lia |].
  assert (Hu : valuesAreEqual c VUndefined = false).
  { apply not_true_is_false. now rewrite valuesAreEqual_undefined. }
  cbn [validate]. unfold validateStep, validateSingleSchema.
  cbn [isNullish]. cbn [prop lookup String.eqb Ascii.eqb Bool.eqb].
  cbn [isValueTypeAny negb throwIf andThen].
  rewrite Hu, Heq. cbn [negb andb throwIf andThen].
  destruct value; try reflexivity.
  - cbn. rewrite validateArrayItems_unconstrained with (m := fuel);
      auto using const_only_members, validate_unconstrained. lia.
  - cbn. rewrite validateProperties_unconstrained with (m := fuel);
      auto using const_only_members, validate_unconstrained. lia.
Qed.

Lemma validate_const_necessary (getRegex : string -> string -> (string -> bool) + string)
  (fuel : nat) (value schema : Value) (info info' : TraversalInfo) :
  prop schema "const" <> VUndefined ->
  validate getRegex fuel value schema info = Normal info' ->
  valuesAreEqual value (prop schema "const") = true.
Proof.
  intros Hc H. destruct fuel as [| fuel]; [discriminate H |].
  cbn [validate] in H. unfold validateStep in H.
  do 5 (apply andThen_Normal in H; destruct H as (? & H & _)).
  unfold validateSingleSchema in H.
  destruct (isNullish schema); [discriminate H |].
  apply andThen_Normal in H; destruct H as (? & _ & H).
  apply andThen_Normal in H; destruct H as (? & H & _).
  unfold throwIf in H.
  destruct (valuesAreEqual (prop schema "const") VUndefined) eqn:Hu.
  - apply valuesAreEqual_undefined in Hu. contradiction.
  - destruct (valuesAreEqual value (prop schema "const")); [reflexivity |].
    discriminate H.
Qed.

(** C4, as stated, fails: an object that is structurally equal to the
    [const] candidate but is another object is rejected. *)
Lemma const_rejects_equal_copy :
  let candidate := VObj 11 [("a", VNum 1)] in
  let schema := VObj 10 [("const", candidate)] in
  let value := VObj 1 [("a", VNum 1)] in
  deepEqual value candidate = true
  /\ JsonSchema_validate literalRegex 5 value schema
     = Throw (ValidationError MsgInvalidConstant value schema)
         (newTraversalInfo value schema).
Proof. split; reflexivity. Qed.

(** C4 (amended): when [schema.const] is present, [validate] accepts a value
    only if it is strictly equal ([===]) to the candidate, and a schema that
    holds nothing but [const] accepts exactly those values; strict equality
    of two objects or two arrays is identity, whatever their contents. *)
Theorem const_is_strict_equality :
  forall (getRegex : string -> string -> (string -> bool) + string) (fuel : nat)
         (value : Value) (info : TraversalInfo),
    (forall schema info',
        prop schema "const" <> VUndefined ->
        validate getRegex fuel value schema info = Normal info' ->
        valuesAreEqual value (prop schema "const") = true)
    /\ (forall ref candidate,
           candidate <> VUndefined ->
           depth value < fuel ->
           (validate getRegex fuel value (VObj ref [("const", candidate)]) info
            = Normal info
            <-> valuesAreEqual value candidate = true))
    /\ (forall r1 r2 props1 props2 items1 items2,
           (valuesAreEqual (VObj r1 props1) (VObj r2 props2) = true <-> r1 = r2)
           /\ (valuesAreEqual (VArr r1 items1) (VArr r2 items2) = true <-> r1 = r2)).
Proof.
  intros getRegex fuel value info. split; [| split].
  - intros schema info' Hc H. eapply validate_const_necessary; eauto.
  - intros ref candidate Hc Hfuel. split; intro H.
    + exact (validate_const_necessary getRegex fuel value
               (VObj ref [("const", candidate)]) info info Hc H).
    + now apply validate_const_only.
  - intros r1 r2 props1 props2 items1 items2. simpl.
    split; apply Nat.eqb_eq.
Qed.

Lemma const_is_strict_equality_witness :
  let candidate := VArr 11 [VNum 1] in
  let schema := VObj 10 [("const", candidate)] in
  validate literalRegex 3 candidate schema (newTraversalInfo candidate schema)
  = Normal (newTraversalInfo candidate schema)
  /\ valuesAreEqual candidate (prop schema "const") = true.
Proof.
  intros candidate schema.
  pose proof (const_is_strict_equality literalRegex 3 candidate
                (newTraversalInfo candidate schema)) as (Honly & Hiff & _).
  assert (H : validate literalRegex 3 candidate schema (newTraversalInfo candidate schema)
              = Normal (newTraversalInfo candidate schema)).
  { apply (Hiff 10 candidate).
    - discriminate.
    - simpl. lia.
    - reflexivity. }
  split; [exact H |].
  apply (Honly schema (newTraversalInfo candidate schema)).
  - discriminate.
  - exact H.
Defined.

(** ** The stacks of the traversal state *)

Lemma onTopOf_refl {A : Type} (l : list A) : onTopOf l l.
Proof. now exists []. Qed.

Lemma onTopOf_cons {A : Type} (x : A) (l base : list A) :
  onTopOf l base -> onTopOf (x :: l) base.
Proof. intros [pushed ->]. now exists (x :: pushed). Qed.

Lemma onTopOf_tl {A : Type} (x : A) (l base : list A) :
  onTopOf l (x :: base) -> onTopOf (tl l) base.
Proof.
  intros [pushed ->]. destruct pushed as [| y pushed]; simpl.
  - apply onTopOf_refl.
  - exists (pushed ++ [x]). now rewrite <- app_assoc.
Qed.

Lemma onTopOf_trans {A : Type} (l1 l2 l3 : list A) :
  onTopOf l1 l2 -> onTopOf l2 l3 -> onTopOf l1 l3.
Proof. intros [p ->] [q ->]. exists (p ++ q). now rewrite app_assoc. Qed.

Lemma keepsEntries_refl (info : TraversalInfo) : keepsEntries info info.
Proof. split; apply onTopOf_refl. Qed.

Lemma keepsEntries_trans (i1 i2 i3 : TraversalInfo) :
  keepsEntries i1 i2 -> keepsEntries i2 i3 -> keepsEntries i1 i3.
Proof. intros [? ?] [? ?]. split; eapply onTopOf_trans; eauto. Qed.

Lemma keepsEntries_schemaPush (path : PathSeg) (s : Value) (info : TraversalInfo) :
  keepsEntries (schemaPush path s info) info.
Proof. split; simpl; [apply onTopOf_refl | apply onTopOf_cons, onTopOf_refl]. Qed.

Lemma keepsEntries_valuePush (path : PathSeg) (v : Value) (info : TraversalInfo) :
  keepsEntries (valuePush path v info) info.
Proof. split; simpl; [apply onTopOf_cons, onTopOf_refl | apply onTopOf_refl]. Qed.

Lemma keepsEntries_schemaPop (path : PathSeg) (s : Value) (info' info : TraversalInfo) :
  keepsEntries info' (schemaPush path s info) -> keepsEntries (schemaPop info') info.
Proof.
  intros [Hv Hs]. split; simpl in *; [exact Hv | eapply onTopOf_tl; eauto].
Qed.

Lemma keepsEntries_valuePop (path : PathSeg) (v : Value) (info' info : TraversalInfo) :
  keepsEntries info' (valuePush path v info) -> keepsEntries (valuePop info') info.
Proof.
  intros [Hv Hs]. split; simpl in *; [eapply onTopOf_tl; eauto | exact Hs].
Qed.

Lemma keepsEntries_schemaPushAll (path : list PathEntry) (info : TraversalInfo) :
  keepsEntries (schemaPushAll path info) info.
Proof.
  unfold schemaPushAll. revert info.
  induction path as [| e path IH]; intro info; simpl; [apply keepsEntries_refl |].
  eapply keepsEntries_trans; [apply IH | apply keepsEntries_schemaPush].
Qed.

Lemma schemaPopAll_schemaPop (path : list PathEntry) (info : TraversalInfo) :
  schemaPopAll path (schemaPop info) = schemaPop (schemaPopAll path info).
Proof.
  unfold schemaPopAll. revert info.
  induction path as [| e path IH]; intro info; simpl; [reflexivity | apply IH].
Qed.

Lemma schemaPopAll_snoc (path : list PathEntry) (e : PathEntry) (info : TraversalInfo) :
  schemaPopAll (path ++ [e]) info = schemaPopAll path (schemaPop info).
Proof.
  rewrite schemaPopAll_schemaPop. unfold schemaPopAll.
  now rewrite fold_left_app.
Qed.

Lemma schemaPushAll_snoc (path : list PathEntry) (e : PathEntry) (info : TraversalInfo) :
  schemaPushAll (path ++ [e]) info = schemaPush (fst e) (snd e) (schemaPushAll path info).
Proof. unfold schemaPushAll. now rewrite fold_left_app. Qed.

Lemma keepsEntries_schemaPopAll (path : list PathEntry) (info' info : TraversalInfo) :
  keepsEntries info' (schemaPushAll path info) ->
  keepsEntries (schemaPopAll path info') info.
Proof.
  revert info' info.
  induction path as [| e path IH] using rev_ind; intros info' info H; [exact H |].
  rewrite schemaPushAll_snoc in H. rewrite schemaPopAll_snoc.
  apply keepsEntries_schemaPop in H. now apply IH.
Qed.

Lemma schemaPop_schemaPush (path : PathSeg) (s : Value) (info : TraversalInfo) :
  schemaPop (schemaPush path s info) = info.
Proof. now destruct info. Qed.

Lemma valuePop_valuePush (path : PathSeg) (v : Value) (info : TraversalInfo) :
  valuePop (valuePush path v info) = info.
Proof. now destruct info. Qed.

Lemma schemaPopAll_schemaPushAll (path : list PathEntry) (info : TraversalInfo) :
  schemaPopAll path (schemaPushAll path info) = info.
Proof.
  revert info.
  induction path as [| e path IH] using rev_ind; intro info; [reflexivity |].
  now rewrite schemaPushAll_snoc, schemaPopAll_snoc, schemaPop_schemaPush.
Qed.

Lemma andThen_kept (base : TraversalInfo) (c : Completion)
  (k : TraversalInfo -> Completion) :
  kept base c ->
  (forall i, keepsEntries i base -> kept base (k i)) ->
  kept base (c ;; k).
Proof. destruct c; simpl; auto. Qed.

Lemma throwIf_kept (base : TraversalInfo) (cond : bool) (message : Message)
  (value schema : Value) (info : TraversalInfo) :
  keepsEntries info base -> kept base (throwIf cond message value schema info).
Proof. unfold throwIf. now destruct cond. Qed.

(** Peel the sequenced checks off a goal [kept _ _]. *)
Ltac peel_kept :=
  repeat match goal with
    | |- forall _ : TraversalInfo, _ => intros ? ?
    | |- kept _ (_ ;; _) => apply andThen_kept
    | |- kept _ (throwIf _ _ _ _ _) => apply throwIf_kept
    | |- kept _ (Normal _) => cbn [kept]
    | |- kept _ (Throw _ _) => cbn [kept]
    | H : keepsEntries ?i ?b |- keepsEntries ?i ?b => exact H
    end.

(** Close the goals [kept _ (Normal _)] that an assumption settles. *)
Ltac kept_trivial :=
  try match goal with
    | |- kept _ (Normal _) => cbn [kept]; eassumption
    end.

Section ValidateKept.

Variable getRegex : string -> string -> (string -> bool) + string.
Variable rec : Value -> Value -> TraversalInfo -> Completion.
Hypothesis rec_kept : forall v s i, kept i (rec v s i).

Lemma validateNumber_kept (base : TraversalInfo) (value : Q) (schema : Value)
  (info : TraversalInfo) :
  keepsEntries info base -> kept base (validateNumber value schema info).
Proof. intro H. unfold validateNumber. peel_kept. Qed.

Lemma validateString_kept (base : TraversalInfo) (value : string) (schema : Value)
  (info : TraversalInfo) :
  keepsEntries info base -> kept base (validateString getRegex value schema info).
Proof.
  intro H. unfold validateString. peel_kept.
  destruct (prop schema "pattern"); peel_kept.
  destruct (getRegex s _); peel_kept.
Qed.

Lemma validateMember_kept (base : TraversalInfo) (value schema : Value)
  (k : PropertyKey) (noSchema : Message) (info : TraversalInfo) :
  keepsEntries info base ->
  kept base (validateMember rec value schema k noSchema info).
Proof.
  intro H. unfold validateMember.
  destruct (getPropertySchema schema k value) as [ps path | |];
    [| exact H | exact H].
  pose proof (rec_kept (member value k) ps
                (valuePush (Some k) (member value k) (schemaPushAll path info))) as Hk.
  destruct (rec (member value k) ps _) as [info' | e info' |]; simpl; [| | exact I].
  - eapply keepsEntries_trans; [| exact H].
    apply keepsEntries_schemaPopAll.
    eapply keepsEntries_valuePop. exact Hk.
  - eapply keepsEntries_trans; [exact Hk |].
    eapply keepsEntries_trans; [apply keepsEntries_valuePush |].
    eapply keepsEntries_trans; [apply keepsEntries_schemaPushAll | exact H].
Qed.

Lemma rec_above (base info info' : TraversalInfo) (v s : Value) :
  keepsEntries info base ->
  (rec v s info = Normal info' \/ exists e, rec v s info = Throw e info') ->
  keepsEntries info' base.
Proof.
  intros Hbase H. pose proof (rec_kept v s info) as Hk.
  eapply keepsEntries_trans; [| exact Hbase].
  destruct H as [H | [e H]]; rewrite H in Hk; exact Hk.
Qed.

Lemma rec_popped (base info info' : TraversalInfo) (v s s' : Value) (path : PathSeg) :
  keepsEntries info base ->
  (rec v s (schemaPush path s' info) = Normal info'
   \/ exists e, rec v s (schemaPush path s' info) = Throw e info') ->
  keepsEntries (schemaPop info') base.
Proof.
  intros Hbase H. eapply keepsEntries_trans; [| exact Hbase].
  eapply keepsEntries_schemaPop. eapply rec_above; [apply keepsEntries_refl | exact H].
Qed.

Lemma validateArrayItems_kept (base : TraversalInfo) (value schema : Value)
  (count i : nat) (info : TraversalInfo) :
  keepsEntries info base ->
  kept base (validateArrayItems rec value schema i count info).
Proof.
  revert i info. induction count as [| count IH]; intros i info H; unroll;
    [exact H |].
  apply andThen_kept; [now apply validateMember_kept | intros; now apply IH].
Qed.

Lemma validateRequired_kept (base : TraversalInfo) (value schema : Value)
  (properties : list string) (required : list Value) (info : TraversalInfo) :
  keepsEntries info base ->
  kept base (validateRequired value schema properties required info).
Proof.
  revert info. induction required as [| p rest IH]; intros info H; unroll;
    [exact H |].
  apply andThen_kept; [now apply throwIf_kept | intros; now apply IH].
Qed.

Lemma validateProperties_kept (base : TraversalInfo) (value schema : Value)
  (properties : list string) (info : TraversalInfo) :
  keepsEntries info base ->
  kept base (validateProperties rec value schema properties info).
Proof.
  revert info. induction properties as [| p rest IH]; intros info H; unroll;
    [exact H |].
  apply andThen_kept; [now apply validateMember_kept | intros; now apply IH].
Qed.

Lemma validateSingleSchema_kept (base : TraversalInfo) (value schema : Value)
  (info : TraversalInfo) :
  keepsEntries info base ->
  kept base (validateSingleSchema getRegex rec value schema info).
Proof.
  intro H. unfold validateSingleSchema. destruct (isNullish schema); peel_kept.
  destruct value; peel_kept.
  - now apply validateNumber_kept.
  - now apply validateString_kept.
  - unfold validateArray. peel_kept. now apply validateArrayItems_kept.
  - unfold validateObject. peel_kept.
    + destruct (prop schema "required"); peel_kept. now apply validateRequired_kept.
    + now apply validateProperties_kept.
Qed.

Lemma validateConditional_kept (base : TraversalInfo) (value schema : Value)
  (info : TraversalInfo) :
  keepsEntries info base ->
  kept base (validateConditional rec value schema info).
Proof.
  intro H. unfold validateConditional.
  destruct (isObject (prop schema "if")); cbn [negb]; [| exact H].
  destruct (rec value (prop schema "if") _) as [info1 | e info1 |] eqn:Hif;
    [| | exact I].
  - assert (H1 : keepsEntries (schemaPop info1) base)
      by (eapply rec_popped; eauto).
    destruct (isObject (prop schema "then")); [| exact H1].
    destruct (rec value (prop schema "then") _) as [info2 | e info2 |] eqn:Hthen;
      cbn [andThen kept]; [| | exact I].
    + eapply rec_popped; eauto.
    + eapply rec_above; [| eauto]. eapply keepsEntries_trans;
        [apply keepsEntries_schemaPush | exact H1].
  - assert (H1 : keepsEntries (schemaPop info1) base)
      by (eapply rec_popped; eauto).
    destruct (isObject (prop schema "else")); [| exact H1].
    destruct (rec value (prop schema "else") _) as [info2 | e' info2 |] eqn:Helse;
      cbn [andThen kept]; [| | exact I].
    + eapply rec_popped; eauto.
    + eapply rec_above; [| eauto]. eapply keepsEntries_trans;
        [apply keepsEntries_schemaPush | exact H1].
Qed.

Lemma validateAllOfFrom_kept (base : TraversalInfo) (value : Value)
  (subSchemas : list Value) (i : nat) (info : TraversalInfo) :
  keepsEntries info base ->
  kept base (validateAllOfFrom rec value subSchemas i info).
Proof.
  revert i info. induction subSchemas as [| s rest IH]; intros i info H; unroll;
    [exact H |].
  destruct (rec value s _) as [info1 | e info1 |] eqn:Hrec; cbn [andThen kept];
    [| | exact I].
  - apply IH. eapply rec_popped; eauto.
  - eapply rec_above; [| eauto]. eapply keepsEntries_trans;
      [apply keepsEntries_schemaPush | exact H].
Qed.

Lemma validateAnyOfFrom_kept (base : TraversalInfo) (value schema : Value)
  (subSchemas : list Value) (i : nat) (info : TraversalInfo) :
  keepsEntries info base ->
  kept base (validateAnyOfFrom rec value schema subSchemas i info).
Proof.
  revert i info. induction subSchemas as [| s rest IH]; intros i info H; unroll;
    [exact H |].
  destruct (rec value s _) as [info1 | e info1 |] eqn:Hrec; [| | exact I].
  - cbn [kept]. eapply rec_above; [| eauto]. eapply keepsEntries_trans;
      [apply keepsEntries_schemaPush | exact H].
  - apply IH. eapply rec_popped; eauto.
Qed.

Lemma validateOneOfFrom_kept (base : TraversalInfo) (value : Value)
  (subSchemas : list Value) (i count : nat) (info : TraversalInfo) :
  keepsEntries info base ->
  match validateOneOfFrom rec value subSchemas i count info with
  | Some (_, info') => keepsEntries info' base
  | None => True
  end.
Proof.
  revert i count info.
  induction subSchemas as [| s rest IH]; intros i count info H; unroll; [exact H |].
  destruct (rec value s _) as [info1 | e info1 |] eqn:Hrec; [| | exact I];
    apply IH; eapply rec_popped; eauto.
Qed.

Lemma validateNoneOfFrom_kept (base : TraversalInfo) (value schema : Value)
  (subSchemas : list Value) (i : nat) (info : TraversalInfo) :
  keepsEntries info base ->
  kept base (validateNoneOfFrom rec value schema subSchemas i info).
Proof.
  revert i info. induction subSchemas as [| s rest IH]; intros i info H; unroll;
    [exact H |].
  destruct (rec value s _) as [info1 | e info1 |] eqn:Hrec; [| | exact I].
  - cbn [kept]. eapply rec_above; [| eauto]. eapply keepsEntries_trans;
      [apply keepsEntries_schemaPush | exact H].
  - apply IH. eapply rec_popped; eauto.
Qed.

(** A loop run under one more schema entry, followed by one pop. *)
Lemma popped_kept (base info : TraversalInfo) (path : PathSeg) (s : Value)
  (c : Completion) :
  keepsEntries info base ->
  kept (schemaPush path s info) c ->
  kept base (c ;; fun info => Normal (schemaPop info)).
Proof.
  intros H Hc. destruct c as [info' | e info' |]; cbn [andThen kept] in *;
    [| | exact I].
  - eapply keepsEntries_trans; [eapply keepsEntries_schemaPop; exact Hc | exact H].
  - eapply keepsEntries_trans; [exact Hc |].
    eapply keepsEntries_trans; [apply keepsEntries_schemaPush | exact H].
Qed.

Lemma validateStep_kept (base : TraversalInfo) (value schema : Value)
  (info : TraversalInfo) :
  keepsEntries info base ->
  kept base (validateStep getRegex rec value schema info).
Proof.
  intro H. unfold validateStep. peel_kept.
  - now apply validateSingleSchema_kept.
  - now apply validateConditional_kept.
  - unfold validateAllOf. destruct (prop schema "allOf"); kept_trivial.
    eapply popped_kept; [eassumption |].
    apply validateAllOfFrom_kept, keepsEntries_refl.
  - unfold validateAnyOf. destruct (prop schema "anyOf"); kept_trivial.
    apply validateAnyOfFrom_kept.
    eapply keepsEntries_trans; [apply keepsEntries_schemaPush | eassumption].
  - unfold validateOneOf. destruct (prop schema "oneOf"); kept_trivial.
    match goal with
    | |- context [validateOneOfFrom rec value items 0 0 ?i] =>
        pose proof (validateOneOfFrom_kept i value items 0 0 i
                      (keepsEntries_refl i)) as Hloop;
        destruct (validateOneOfFrom rec value items 0 0 i) as [[count info'] |]
    end; [| exact I].
    unfold throwIf. destruct (negb (count =? 1)); cbn [andThen kept].
    + eapply keepsEntries_trans; [exact Hloop |].
      eapply keepsEntries_trans; [apply keepsEntries_schemaPush | eassumption].
    + eapply keepsEntries_trans; [eapply keepsEntries_schemaPop; exact Hloop |].
      eassumption.
  - unfold validateNoneOf. destruct (prop schema "not"); kept_trivial.
    eapply popped_kept; [eassumption |].
    apply validateNoneOfFrom_kept, keepsEntries_refl.
Qed.

End ValidateKept.

(** Whatever [validate] does, both stacks keep the entries they had. *)
Lemma validate_kept (getRegex : string -> string -> (string -> bool) + string)
  (fuel : nat) (value schema : Value) (info : TraversalInfo) :
  kept info (validate getRegex fuel value schema info).
Proof.
  revert value schema info.
  induction fuel as [| fuel IH]; intros value schema info; [exact I |].
  cbn [validate]. apply validateStep_kept; [exact IH | apply keepsEntries_refl].
Qed.

(** ** Schemas without catching combinators *)

Lemma catchFree_VArr (ref : nat) (items : list Value) :
  catchFree (VArr ref items) = forallb catchFree items.
Proof. reflexivity. Qed.

Lemma catchFree_VObj (ref : nat) (props : list (string * Value)) :
  catchFree (VObj ref props)
  = negb (isObject (prop (VObj ref props) "if"))
    && negb (isArray (prop (VObj ref props) "anyOf"))
    && negb (isArray (prop (VObj ref props) "oneOf"))
    && negb (isArray (prop (VObj ref props) "not"))
    && forallb (fun kx => catchFree (snd kx)) props.
Proof.
  cbn [catchFree]. f_equal.
  induction props as [| [k x] l IH]; simpl; [reflexivity | now rewrite IH].
Qed.

Lemma catchFree_lookup (props : list (string * Value)) (name : string) (x : Value) :
  forallb (fun kx => catchFree (snd kx)) props = true ->
  lookup name props = Some x ->
  catchFree x = true.
Proof.
  induction props as [| [k y] l IH]; simpl; [discriminate |].
  rewrite andb_true_iff. intros [Hy Hl].
  destruct (String.eqb k name); [intro H; now inversion H; subst | now apply IH].
Qed.

Lemma catchFree_prop (v : Value) (name : string) :
  catchFree v = true -> catchFree (prop v name) = true.
Proof.
  destruct v; try reflexivity.
  rewrite catchFree_VObj, !andb_true_iff. intros (_ & H). unfold prop.
  destruct (lookup name props) eqn:Hl; [| reflexivity].
  eapply catchFree_lookup; eauto.
Qed.

Lemma catchFree_In (ref : nat) (items : list Value) (x : Value) :
  catchFree (VArr ref items) = true -> In x items -> catchFree x = true.
Proof.
  rewrite catchFree_VArr, forallb_forall. auto.
Qed.

Lemma catchFree_nth (items : list Value) (i : nat) :
  forallb catchFree items = true -> catchFree (nth i items VUndefined) = true.
Proof.
  intro H. destruct (Nat.lt_ge_cases i (List.length items)) as [Hi | Hi].
  - rewrite forallb_forall in H. apply H, nth_In, Hi.
  - now rewrite nth_overflow.
Qed.

Lemma catchFree_propAt (v : Value) (k : PropertyKey) :
  catchFree v = true -> catchFree (propAt v k) = true.
Proof.
  unfold propAt. destruct (keyString k); [apply catchFree_prop | reflexivity].
Qed.

Lemma catchFree_propertyThrough (v : Value) (k : PropertyKey) :
  catchFree v = true -> catchFree (propertyThrough v k) = true.
Proof.
  unfold propertyThrough. destruct v; try reflexivity.
  destruct (keyString k) as [name |]; [| reflexivity].
  rewrite catchFree_VObj, !andb_true_iff. intros (_ & H).
  destruct (lookup name props) eqn:Hl; [eapply catchFree_lookup; eauto |].
  destruct (String.eqb name "__proto__"); [| reflexivity].
  now destruct (Nat.eqb ref 3).
Qed.

Lemma catchFree_itemAt (items : list Value) (k : PropertyKey) :
  forallb catchFree items = true -> catchFree (itemAt items k) = true.
Proof.
  intro H. destruct k as [s | n | id]; simpl; try reflexivity.
  - destruct (canonicalIndex s); [now apply catchFree_nth | reflexivity].
  - now apply catchFree_nth.
Qed.

Lemma catchFree_keywords (schema : Value) :
  catchFree schema = true ->
  isObject (prop schema "if") = false
  /\ isArray (prop schema "anyOf") = false
  /\ isArray (prop schema "oneOf") = false
  /\ isArray (prop schema "not") = false.
Proof.
  destruct schema; try (intros _; repeat split; reflexivity).
  rewrite catchFree_VObj, !andb_true_iff, !negb_true_iff. tauto.
Qed.

Lemma resolveAdditional_catchFree (name : string) (schema ps : Value)
  (path : list PathEntry) :
  catchFree schema = true ->
  resolveAdditional name schema = Resolved ps path ->
  catchFree ps = true.
Proof.
  intros Hs H. apply resolveAdditional_cases in H.
  destruct H as [[-> _] | (-> & _)]; [reflexivity | now apply catchFree_prop].
Qed.

Lemma getPropertySchema_catchFree (schema value : Value) (k : PropertyKey)
  (ps : Value) (path : list PathEntry) :
  catchFree schema = true ->
  getPropertySchema schema k value = Resolved ps path ->
  catchFree ps = true.
Proof.
  intro Hs. unfold getPropertySchema.
  destruct (valuesAreEqual (getSchemaOrValueType schema value) (VStr "object")).
  - destruct (isObject (prop schema "properties")
              && isObject (propertyThrough (prop schema "properties") k)).
    + intro H. injection H as <- _.
      now apply catchFree_propertyThrough, catchFree_prop.
    + now apply resolveAdditional_catchFree.
  - destruct (valuesAreEqual (getSchemaOrValueType schema value) (VStr "array"));
      [| discriminate].
    pose proof (catchFree_prop schema "items" Hs) as Hitems.
    destruct (prop schema "items") as [| | | | | r itemList | r props];
      try (now apply resolveAdditional_catchFree).
    + destruct k as [s | n | id]; [| | discriminate].
      * destruct (isObject (itemAt itemList (PName s)));
          [| now apply resolveAdditional_catchFree].
        intro H. injection H as <- _.
        now apply (catchFree_itemAt itemList (PName s)).
      * destruct (isObject (itemAt itemList (PIndex n)));
          [| now apply resolveAdditional_catchFree].
        intro H. injection H as <- _.
        now apply (catchFree_itemAt itemList (PIndex n)).
    + intro H. injection H as <- _. exact Hitems.
Qed.

(** ** Without a catching combinator, a successful [validate] restores the
    traversal state *)

Lemma andThen_restored (base : TraversalInfo) (c : Completion)
  (k : TraversalInfo -> Completion) :
  restored base c -> restored base (k base) -> restored base (c ;; k).
Proof. destruct c; simpl; intros H Hk; [now subst | exact I | exact I]. Qed.

Lemma throwIf_restored (cond : bool) (message : Message) (value schema : Value)
  (info : TraversalInfo) :
  restored info (throwIf cond message value schema info).
Proof. unfold throwIf. now destruct cond. Qed.

(** Peel the sequenced checks off a goal [restored _ _]. *)
Ltac peel_restored :=
  repeat match goal with
    | |- restored _ (_ ;; _) => apply andThen_restored
    | |- restored _ (throwIf _ _ _ _ _) => apply throwIf_restored
    | |- restored _ (Normal _) => reflexivity
    | |- restored _ (Throw _ _) => exact I
    end.

Section ValidateRestored.

Variable getRegex : string -> string -> (string -> bool) + string.
Variable rec : Value -> Value -> TraversalInfo -> Completion.
Hypothesis rec_restored :
  forall v s i, catchFree s = true -> restored i (rec v s i).

Lemma validateNumber_restored (value : Q) (schema : Value) (info : TraversalInfo) :
  restored info (validateNumber value schema info).
Proof. unfold validateNumber. peel_restored. Qed.

Lemma validateString_restored (value : string) (schema : Value) (info : TraversalInfo) :
  restored info (validateString getRegex value schema info).
Proof.
  unfold validateString. peel_restored.
  destruct (prop schema "pattern"); peel_restored.
  destruct (getRegex s _); peel_restored.
Qed.

Lemma validateMember_restored (value schema : Value) (k : PropertyKey)
  (noSchema : Message) (info : TraversalInfo) :
  catchFree schema = true ->
  restored info (validateMember rec value schema k noSchema info).
Proof.
  intro Hs. unfold validateMember.
  destruct (getPropertySchema schema k value) as [ps path | |] eqn:Hps;
    [| exact I | exact I].
  pose proof (rec_restored (member value k) ps
                (valuePush (Some k) (member value k) (schemaPushAll path info))
                (getPropertySchema_catchFree _ _ _ _ _ Hs Hps)) as Hrec.
  destruct (rec (member value k) ps _) as [info' | |]; [| exact I | exact I].
  cbn [restored] in Hrec. subst info'. cbn [andThen restored].
  now rewrite valuePop_valuePush, schemaPopAll_schemaPushAll.
Qed.

Lemma validateArrayItems_restored (value schema : Value) (count i : nat)
  (info : TraversalInfo) :
  catchFree schema = true ->
  restored info (validateArrayItems rec value schema i count info).
Proof.
  intro Hs. revert i. induction count as [| count IH]; intro i; unroll; peel_restored.
  - now apply validateMember_restored.
  - apply IH.
Qed.

Lemma validateRequired_restored (value schema : Value) (properties : list string)
  (required : list Value) (info : TraversalInfo) :
  restored info (validateRequired value schema properties required info).
Proof.
  induction required as [| p rest IH]; unroll; peel_restored. apply IH.
Qed.

Lemma validateProperties_restored (value schema : Value) (properties : list string)
  (info : TraversalInfo) :
  catchFree schema = true ->
  restored info (validateProperties rec value schema properties info).
Proof.
  intro Hs. induction properties as [| p rest IH]; unroll; peel_restored.
  - now apply validateMember_restored.
  - apply IH.
Qed.

Lemma validateSingleSchema_restored (value schema : Value) (info : TraversalInfo) :
  catchFree schema = true ->
  restored info (validateSingleSchema getRegex rec value schema info).
Proof.
  intro Hs. unfold validateSingleSchema. destruct (isNullish schema); peel_restored.
  destruct value; peel_restored.
  - apply validateNumber_restored.
  - apply validateString_restored.
  - unfold validateArray. peel_restored. now apply validateArrayItems_restored.
  - unfold validateObject. peel_restored.
    + destruct (prop schema "required"); peel_restored. apply validateRequired_restored.
    + now apply validateProperties_restored.
Qed.

Lemma validateAllOfFrom_restored (value : Value) (subSchemas : list Value) (i : nat)
  (info : TraversalInfo) :
  forallb catchFree subSchemas = true ->
  restored info (validateAllOfFrom rec value subSchemas i info).
Proof.
  revert i. induction subSchemas as [| s rest IH]; intros i Hs; unroll;
    [reflexivity |].
  simpl in Hs. apply andb_true_iff in Hs. destruct Hs as [Hs Hrest].
  pose proof (rec_restored value s (schemaPush (Some (PIndex i)) s info) Hs) as Hrec.
  destruct (rec value s _) as [info' | |]; [| exact I | exact I].
  cbn [restored] in Hrec. subst info'. cbn [andThen].
  rewrite schemaPop_schemaPush. now apply IH.
Qed.

Lemma validateStep_restored (value schema : Value) (info : TraversalInfo) :
  catchFree schema = true ->
  restored info (validateStep getRegex rec value schema info).
Proof.
  intro Hs. destruct (catchFree_keywords schema Hs) as (Hif & Hany & Hone & Hnot).
  unfold validateStep. peel_restored.
  - now apply validateSingleSchema_restored.
  - unfold validateConditional. now rewrite Hif.
  - unfold validateAllOf.
    pose proof (catchFree_prop schema "allOf" Hs) as Hall.
    destruct (prop schema "allOf") as [| | | | | r subs | r props]; try reflexivity.
    pose proof (validateAllOfFrom_restored value subs 0
                  (schemaPush (Some (PName "allOf")) (VArr r subs) info) Hall) as H.
    destruct (validateAllOfFrom rec value subs 0 _) as [info' | |];
      [| exact I | exact I].
    cbn [restored] in H. subst info'. cbn [andThen restored].
    apply schemaPop_schemaPush.
  - unfold validateAnyOf. destruct (prop schema "anyOf"); try discriminate Hany;
      reflexivity.
  - unfold validateOneOf. destruct (prop schema "oneOf"); try discriminate Hone;
      reflexivity.
  - unfold validateNoneOf. destruct (prop schema "not"); try discriminate Hnot;
      reflexivity.
Qed.

End ValidateRestored.

Lemma validate_restored (getRegex : string -> string -> (string -> bool) + string)
  (fuel : nat) (value schema : Value) (info : TraversalInfo) :
  catchFree schema = true ->
  restored info (validate getRegex fuel value schema info).
Proof.
  revert value schema info.
  induction fuel as [| fuel IH]; intros value schema info Hs; [exact I |].
  cbn [validate]. apply validateStep_restored; [exact IH | exact Hs].
Qed.

(** C5 (the code at the failing inputs): [oneOf] catches the failure of its
    first sub-schema, raised two schema entries and one value entry deep,
    and pops a single schema entry; the validation then succeeds and leaves
    three schema entries and two value entries where it started with one of
    each.  [anyOf] returns from inside its loop when a sub-schema matches,
    and pops nothing: the validation succeeds and leaves three schema
    entries where it started with one. *)
Theorem caught_failure_leaves_entries :
  forall (getRegex : string -> string -> (string -> bool) + string),
    let inner := VObj 21 [("properties", VObj 22 [("a", typeSchema 23 "string")])] in
    let listed := VArr 20 [inner; VObj 24 []] in
    let schema := VObj 10 [("oneOf", listed)] in
    let value := VObj 1 [("a", VNum 1)] in
    let options := VArr 11 [typeSchema 12 "string"; typeSchema 13 "number"] in
    let choice := VObj 14 [("anyOf", options)] in
    (newTraversalInfo value schema = mkInfo [(None, value)] [(None, schema)]
     /\ JsonSchema_validate getRegex 5 value schema
        = Normal (mkInfo [(Some (PName "a"), VNum 1); (None, value)]
                    [(Some (PIndex 0), inner); (Some (PName "oneOf"), listed);
                     (None, schema)]))
    /\ (newTraversalInfo (VNum 2) choice = mkInfo [(None, VNum 2)] [(None, choice)]
        /\ JsonSchema_validate getRegex 5 (VNum 2) choice
           = Normal (mkInfo [(None, VNum 2)]
                       [(Some (PIndex 1), typeSchema 13 "number");
                        (Some (PName "anyOf"), options); (None, choice)])).
Proof. intro getRegex. repeat split. Qed.

(** ** Induction on values *)

Lemma Value_ind (P : Value -> Prop) :
  P VUndefined ->
  P VNull ->
  (forall b, P (VBool b)) ->
  (forall n, P (VNum n)) ->
  (forall s, P (VStr s)) ->
  (forall ref items, Forall P items -> P (VArr ref items)) ->
  (forall ref props, Forall (fun kx => P (snd kx)) props -> P (VObj ref props)) ->
  forall v, P v.
Proof.
  intros HU HN HB HQ HS HA HO. fix IH 1. intro v.
  destruct v as [| | b | n | s | ref items | ref props];
    [exact HU | exact HN | apply HB | apply HQ | apply HS | |].
  - apply HA. induction items as [| x l IHl]; constructor; [apply IH | exact IHl].
  - apply HO. induction props as [| [k x] l IHl]; constructor; [apply IH | exact IHl].
Qed.

(** ** [clone] *)

Lemma clone_VArr (ref : nat) (items : list Value) (next : nat) :
  clone (VArr ref items) next
  = (VArr next (fst (cloneItems items (S next))), snd (cloneItems items (S next))).
Proof.
  cbn [clone].
  change ((fix cloneItems (l : list Value) (n : nat) {struct l} : list Value * nat :=
             match l with
             | [] => ([], n)
             | x :: l' =>
                 let '(x', n1) := clone x n in
                 let '(l'', n2) := cloneItems l' n1 in (x' :: l'', n2)
             end) items (S next)) with (cloneItems items (S next)).
  now destruct (cloneItems items (S next)).
Qed.

Lemma clone_VObj (ref : nat) (props : list (string * Value)) (next : nat) :
  clone (VObj ref props) next
  = (VObj next (fst (cloneProps props (S next))), snd (cloneProps props (S next))).
Proof.
  cbn [clone].
  change ((fix cloneProps (l : list (string * Value)) (n : nat) {struct l}
             : list (string * Value) * nat :=
             match l with
             | [] => ([], n)
             | (k, x) :: l' =>
                 let '(x', n1) := clone x n in
                 let '(l'', n2) := cloneProps l' n1 in ((k, x') :: l'', n2)
             end) props (S next)) with (cloneProps props (S next)).
  now destruct (cloneProps props (S next)).
Qed.

Lemma clone_kind (v : Value) (next : nat) :
  getValueType (fst (clone v next)) = getValueType v
  /\ floorIsSelf (fst (clone v next)) = floorIsSelf v.
Proof.
  destruct v; try (split; reflexivity).
  - rewrite clone_VArr. split; reflexivity.
  - rewrite clone_VObj. split; reflexivity.
Qed.

Lemma clone_depth (v : Value) (next : nat) : depth (fst (clone v next)) = depth v.
Proof.
  revert next. induction v as [| | b | n | s | ref items IH | ref props IH]
    using Value_ind; intro next; try reflexivity.
  - rewrite clone_VArr. cbn [fst]. rewrite !depth_VArr. f_equal.
    generalize (S next). clear next.
    induction IH as [| x l Hx Hl IHl]; intro n; [reflexivity |].
    cbn [cloneItems]. specialize (Hx n).
    destruct (clone x n) as [x' n1]. specialize (IHl n1).
    destruct (cloneItems l n1) as [l' n2]. simpl in *. now rewrite Hx, IHl.
  - rewrite clone_VObj. cbn [fst]. rewrite !depth_VObj. f_equal.
    generalize (S next). clear next.
    induction IH as [| [k x] l Hx Hl IHl]; intro n; [reflexivity |].
    cbn [cloneProps]. simpl in Hx. specialize (Hx n).
    destruct (clone x n) as [x' n1]. specialize (IHl n1).
    destruct (cloneProps l n1) as [l' n2]. simpl in *. now rewrite Hx, IHl.
Qed.


(** ** Writes through the proxy *)





(** ** Properties of objects and arrays as stores *)

Lemma lookup_replaceProp_same (p : string) (v : Value) (props : list (string * Value)) :
  lookup p props <> None -> lookup p (replaceProp p v props) = Some v.
Proof.
  induction props as [| [k x] l IH]; simpl; [congruence |].
  destruct (String.eqb k p) eqn:H; simpl; rewrite H; auto.
Qed.

Lemma lookup_insertProp_same (p : string) (v : Value) (props : list (string * Value)) :
  lookup p props = None -> lookup p (insertProp p v props) = Some v.
Proof.
  induction props as [| [k x] l IH]; simpl.
  - now rewrite String.eqb_refl.
  - destruct (String.eqb k p) eqn:H; [discriminate |]. intro Hl.
    destruct (enumeratedBefore p k); simpl.
    + now rewrite String.eqb_refl.
    + rewrite H. auto.
Qed.

Lemma lookup_setProp_same (p : string) (v : Value) (props : list (string * Value)) :
  lookup p (setProp p v props) = Some v.
Proof.
  unfold setProp. destruct (lookup p props) eqn:Hl.
  - apply lookup_replaceProp_same. congruence.
  - now apply lookup_insertProp_same.
Qed.

Lemma lookup_setProp_other (p q : string) (v : Value) (props : list (string * Value)) :
  p <> q -> lookup q (setProp p v props) = lookup q props.
Proof.
  intro Hpq. apply String.eqb_neq in Hpq. unfold setProp.
  destruct (lookup p props) as [w |].
  - induction props as [| [k x] l IH]; simpl; [reflexivity |].
    destruct (String.eqb k p) eqn:H; simpl.
    + apply String.eqb_eq in H. subst k. now rewrite Hpq.
    + now rewrite IH.
  - induction props as [| [k x] l IH]; simpl.
    + now rewrite Hpq.
    + destruct (enumeratedBefore p k); simpl.
      * now rewrite Hpq.
      * now rewrite IH.
Qed.

Lemma setProp_lookup (p : string) (v : Value) (props : list (string * Value)) :
  lookup p props = Some v -> setProp p v props = props.
Proof.
  intro Hl. unfold setProp. rewrite Hl. revert Hl.
  induction props as [| [k x] l IH]; simpl; [discriminate |].
  destruct (String.eqb k p) eqn:H.
  - intro E. now injection E as ->.
  - intro E. now rewrite IH.
Qed.

Lemma lookup_deleteProp_same (p : string) (props : list (string * Value)) :
  lookup p (deleteProp p props) = None.
Proof.
  induction props as [| [k x] l IH]; simpl; [reflexivity |].
  destruct (String.eqb k p) eqn:H; simpl; [exact IH | now rewrite H].
Qed.

Lemma lookup_deleteProp_other (p q : string) (props : list (string * Value)) :
  p <> q -> lookup q (deleteProp p props) = lookup q props.
Proof.
  intro Hpq. induction props as [| [k x] l IH]; simpl; [reflexivity |].
  destruct (String.eqb k p) eqn:H; simpl.
  - apply String.eqb_eq in H. subst k.
    now rewrite (proj2 (String.eqb_neq p q) Hpq).
  - now rewrite IH.
Qed.

Lemma lookup_In (p : string) (props : list (string * Value)) :
  In p (map fst props) <-> lookup p props <> None.
Proof.
  induction props as [| [k x] l IH]; simpl; [tauto |].
  destruct (String.eqb k p) eqn:H.
  - apply String.eqb_eq in H. split; [discriminate | now left].
  - apply String.eqb_neq in H. rewrite <- IH. tauto.
Qed.

Lemma reachesAccessor_own (ref : nat) (p : string) (props : list (string * Value))
  (v : Value) :
  lookup p props = Some v -> reachesAccessor (VObj ref props) (PName p) = false.
Proof. intro H. unfold reachesAccessor. cbn [keyString]. now rewrite H. Qed.



Lemma depth_prop_VObj (ref : nat) (props : list (string * Value)) (name : string) :
  depth (prop (VObj ref props) name) <= deepestProp props.
Proof.
  pose proof (depth_prop (VObj ref props) name) as H.
  rewrite depth_VObj in H. exact H.
Qed.

Lemma length_setItem (i : nat) (v : Value) (items : list Value) :
  List.length (setItem i v items) = List.length items.
Proof.
  revert i. induction items as [| x l IH]; intro i; [reflexivity |].
  destruct i; simpl; [reflexivity | now rewrite IH].
Qed.

Lemma nth_setItem_same (i : nat) (v : Value) (items : list Value) :
  i < List.length items -> nth i (setItem i v items) VUndefined = v.
Proof.
  revert i. induction items as [| x l IH]; intros i Hi; simpl in Hi; [lia |].
  destruct i; simpl; [reflexivity | apply IH; lia].
Qed.

Lemma nth_setItem_other (i j : nat) (v : Value) (items : list Value) :
  i <> j -> nth j (setItem i v items) VUndefined = nth j items VUndefined.
Proof.
  revert i j. induction items as [| x l IH]; intros i j Hij; [reflexivity |].
  destruct i, j; simpl; try reflexivity; [lia | apply IH; lia].
Qed.

Lemma setItem_nth (i : nat) (items : list Value) :
  setItem i (nth i items VUndefined) items = items.
Proof.
  revert i. induction items as [| x l IH]; intro i; [reflexivity |].
  destruct i; simpl; [reflexivity | now rewrite IH].
Qed.


(** ** Schema resolution looks at the kind of the container only *)

Lemma getPropertySchema_kind (schema : Value) (k : PropertyKey) (v v' : Value) :
  getValueType v = getValueType v' ->
  getPropertySchema schema k v = getPropertySchema schema k v'.
Proof.
  unfold getPropertySchema, getSchemaOrValueType.
  destruct v, v'; try discriminate; reflexivity.
Qed.

Lemma resolveAdditional_no_TypeError (name : string) (schema : Value) :
  resolveAdditional name schema <> KeyTypeError.
Proof.
  unfold resolveAdditional. destruct (prop schema name) as [| | [|] | | | |];
    discriminate.
Qed.

Lemma getPropertySchema_name (schema value : Value) (name : string) :
  getPropertySchema schema (PName name) value <> KeyTypeError.
Proof.
  unfold getPropertySchema.
  repeat match goal with
    | |- resolveAdditional _ _ <> _ => apply resolveAdditional_no_TypeError
    | |- context [if ?b then _ else _] => destruct b
    | |- context [match prop schema "items" with _ => _ end] =>
        destruct (prop schema "items")
    | |- _ => discriminate
    end.
Qed.

Lemma getPropertySchema_index (schema value : Value) (i : nat) :
  getPropertySchema schema (PIndex i) value <> KeyTypeError.
Proof.
  unfold getPropertySchema.
  repeat match goal with
    | |- resolveAdditional _ _ <> _ => apply resolveAdditional_no_TypeError
    | |- context [if ?b then _ else _] => destruct b
    | |- context [match prop schema "items" with _ => _ end] =>
        destruct (prop schema "items")
    | |- _ => discriminate
    end.
Qed.

(** ** The value [getValidValueOrDefault] goes on with *)

Lemma isValueTypeAny_kind (v v' : Value) (schemaTypes : Value) :
  getValueType v = getValueType v' ->
  floorIsSelf v = floorIsSelf v' ->
  isValueTypeAny v (getValueType v) schemaTypes
  = isValueTypeAny v' (getValueType v') schemaTypes.
Proof.
  intros Ht Hf. unfold isValueTypeAny, isValueType. rewrite Ht, Hf.
  destruct schemaTypes; try reflexivity.
Qed.

Lemma getDefaultTypeValue_cases (type : Value) (next : nat) :
  let d := fst (getDefaultTypeValue type next) in
  let next' := snd (getDefaultTypeValue type next) in
  (d = VArr next [] \/ d = VObj next [] \/ depth d = 0)
  /\ (isValueTypeAny d (getValueType d) type = true \/ d = VNull)
  /\ (singleKnownType type = true -> isValueTypeAny d (getValueType d) type = true).
Proof.
  destruct type as [| | b | n | s | ref items | ref props]; cbn zeta;
    try (cbn; split; [auto | split; [auto | intro H; (reflexivity || discriminate H)]]).
  unfold getDefaultTypeValue, singleKnownType, typeNames.
  cbn [existsb].
  destruct (String.eqb s "null") eqn:H1;
    [apply String.eqb_eq in H1; subst s; cbn; auto |].
  destruct (String.eqb s "boolean") eqn:H2;
    [apply String.eqb_eq in H2; subst s; cbn; auto |].
  destruct (String.eqb s "number") eqn:H3;
    [apply String.eqb_eq in H3; subst s; cbn; auto |].
  destruct (String.eqb s "integer") eqn:H4;
    [apply String.eqb_eq in H4; subst s; cbn; auto |].
  destruct (String.eqb s "string") eqn:H5;
    [apply String.eqb_eq in H5; subst s; cbn; auto |].
  destruct (String.eqb s "array") eqn:H6;
    [apply String.eqb_eq in H6; subst s; cbn; auto |].
  destruct (String.eqb s "object") eqn:H7;
    [apply String.eqb_eq in H7; subst s; cbn; auto |].
  cbn. split; [auto | split; [auto | discriminate]].
Qed.

Lemma chooseValue_cases (schema value : Value) (next : nat) :
  let type := prop schema "type" in
  let valid v := isValueTypeAny v (getValueType v) type = true in
  chooseValue schema value next = (value, next) /\ valid value
  \/ (~ valid value
      /\ chooseValue schema value next = clone (prop schema "default") next
      /\ valid (fst (clone (prop schema "default") next)))
  \/ (~ valid value
      /\ exists next1, chooseValue schema value next = getDefaultTypeValue type next1).
Proof.
  cbv zeta. unfold chooseValue.
  destruct (isValueTypeAny value (getValueType value) (prop schema "type")) eqn:Hv;
    [now left | right].
  destruct (prop schema "default") eqn:Hd;
    [right; split; [discriminate | now exists next] | ..];
    (destruct (clone _ next) as [copy next1] eqn:Hc; cbn [fst];
     destruct (isValueTypeAny copy (getValueType copy) (prop schema "type")) eqn:Hcopy;
     [left; split; [discriminate | split; [reflexivity | first [exact Hcopy | reflexivity]]]
     | right; split; [discriminate | now exists next1]]).
Qed.

(** The chosen value fits the schema's type or is [null]; it is no deeper
    than the value and the schema. *)
Lemma chooseValue_fits (schema value : Value) (next : nat) :
  let type := prop schema "type" in
  let chosen := fst (chooseValue schema value next) in
  (isValueTypeAny chosen (getValueType chosen) type = true \/ chosen = VNull)
  /\ (singleKnownType type = true ->
      isValueTypeAny chosen (getValueType chosen) type = true)
  /\ pred (depth chosen)
     <= Nat.max (pred (depth value)) (pred (Nat.max (depth schema) 1)).
Proof.
  cbv zeta.
  destruct (chooseValue_cases schema value next)
    as [[-> Hv] | [(_ & -> & Hv) | (_ & next1 & ->)]]; cbn [fst].
  - repeat split; auto. lia.
  - repeat split; auto. rewrite clone_depth.
    pose proof (depth_prop schema "default"). lia.
  - destruct (getDefaultTypeValue_cases (prop schema "type") next1) as (Hd & Hv & Hk).
    cbv zeta in *. repeat split; auto.
    destruct Hd as [-> | [-> | ->]]; simpl; lia.
Qed.

(** ** Members that [getValidValueOrDefault] leaves as they are *)

Section Unchanged.

Variable rec : Value -> Value -> nat -> Outcome Value.
Variable schema : Value.
Variable ref : nat.

(** How the next unused identity may move: not at all, or anyhow. *)
Variable step : nat -> nat -> Prop.
Hypothesis step_refl : forall n, step n n.
Hypothesis step_trans : forall n1 n2 n3, step n1 n2 -> step n2 n3 -> step n1 n3.

Lemma member_VObj_name (props : list (string * Value)) (p : string) :
  member (VObj ref props) (PName p) = prop (VObj ref props) p.
Proof. reflexivity. Qed.

Lemma populateRequired_unchanged (required : list Value)
  (props : list (string * Value)) (properties : list string) (next : nat) :
  (forall p, In (VStr p) required ->
             settled rec schema step (VObj ref props) (PName p)
             /\ (getPropertySchema schema (PName p) (VObj ref props) <> NotPermitted ->
                 In p (map fst props)
                 \/ reachesAccessor (VObj ref props) (PName p) = true)) ->
  exists next',
    step next next'
    /\ populateRequired rec schema ref required props properties next
       = Returns (props, namesLeft required properties) next'.
Proof.
  revert properties next.
  induction required as [| e rest IH]; intros properties next H.
  - exists next. split; [apply step_refl | reflexivity].
  - assert (Hrest : forall p, In (VStr p) rest ->
              settled rec schema step (VObj ref props) (PName p)
              /\ (getPropertySchema schema (PName p) (VObj ref props) <> NotPermitted ->
                  In p (map fst props)
                  \/ reachesAccessor (VObj ref props) (PName p) = true))
      by (intros p Hp; apply H; now right).
    destruct e as [| | b | n | p | r l | r l];
      try (cbn [populateRequired namesLeft fold_left]; now apply IH).
    cbn [populateRequired namesLeft fold_left].
    destruct (H p (or_introl eq_refl)) as [Hs Hin]. unfold settled in Hs.
    destruct (getPropertySchema schema (PName p) (VObj ref props)) as [ps path | |];
      [| now apply IH | contradiction].
    destruct (reachesAccessor (VObj ref props) (PName p)) eqn:Hreach;
      [now apply IH |].
    destruct Hs as [Hs | Hs]; [discriminate Hs |].
    destruct (Hin ltac:(discriminate)) as [Hown | Hown]; [| discriminate Hown].
    rewrite member_VObj_name in Hs.
    assert (Hl : lookup p props = Some (prop (VObj ref props) p)).
    { apply lookup_In in Hown.
      unfold prop. destruct (lookup p props); [reflexivity | contradiction]. }
    destruct (Hs next) as (next1 & Hstep & ->).
    rewrite (setProp_lookup _ _ _ Hl).
    destruct (IH (SetDelete p properties) next1 Hrest) as (next' & Hstep' & ->).
    exists next'. split; [eapply step_trans; eauto | reflexivity].
Qed.

Lemma populateRemaining_unchanged (properties : list string)
  (props : list (string * Value)) (next : nat) :
  (forall q, In q properties ->
             settled rec schema step (VObj ref props) (PName q)
             /\ getPropertySchema schema (PName q) (VObj ref props) <> NotPermitted
             /\ In q (map fst props)) ->
  exists next',
    step next next'
    /\ populateRemaining rec schema ref properties props next = Returns props next'.
Proof.
  revert next. induction properties as [| q rest IH]; intros next H.
  - exists next. split; [apply step_refl | reflexivity].
  - cbn [populateRemaining].
    destruct (H q (or_introl eq_refl)) as (Hs & Hres & Hin). unfold settled in Hs.
    destruct (getPropertySchema schema (PName q) (VObj ref props)) as [ps path | |];
      [| contradiction | contradiction].
    assert (Hl : lookup q props = Some (prop (VObj ref props) q)).
    { apply lookup_In in Hin.
      unfold prop. destruct (lookup q props); [reflexivity | contradiction]. }
    rewrite (reachesAccessor_own ref _ _ _ Hl) in Hs.
    destruct Hs as [Hs | Hs]; [discriminate Hs |].
    rewrite member_VObj_name in Hs.
    destruct (Hs next) as (next1 & Hstep & ->).
    rewrite (setProp_lookup _ _ _ Hl).
    destruct (IH next1) as (next' & Hstep' & ->).
    { intros q' Hq'. apply H. now right. }
    exists next'. split; [eapply step_trans; eauto | reflexivity].
Qed.

Lemma populateItems_unchanged (count i : nat) (items : list Value) (next : nat) :
  (forall j, i <= j < i + count -> settled rec schema step (VArr ref items) (PIndex j)) ->
  exists next',
    step next next'
    /\ populateItems rec schema ref i count items next = Returns items next'.
Proof.
  revert i next. induction count as [| count IH]; intros i next H.
  - exists next. split; [apply step_refl | reflexivity].
  - cbn [populateItems].
    assert (Hrest : forall j, S i <= j < S i + count ->
                              settled rec schema step (VArr ref items) (PIndex j))
      by (intros j Hj; apply H; lia).
    pose proof (H i ltac:(lia)) as Hs. unfold settled in Hs.
    destruct (getPropertySchema schema (PIndex i) (VArr ref items)) as [ps path | |];
      [| now apply IH | contradiction].
    destruct Hs as [Hs | Hs]; [discriminate Hs |].
    cbn [member itemAt] in Hs.
    destruct (Hs next) as (next1 & Hstep & ->).
    rewrite setItem_nth.
    destruct (IH (S i) next1 Hrest) as (next' & Hstep' & ->).
    exists next'. split; [eapply step_trans; eauto | reflexivity].
Qed.

End Unchanged.

(** ** Under the unconstrained schema a value is returned as it is *)

Lemma getValidValueOrDefault_unconstrained (fuel : nat) (value : Value) (next : nat) :
  depth value < fuel ->
  getValidValueOrDefault fuel unconstrainedSchema value next = Returns value next.
Proof.
  revert value next. induction fuel as [| fuel IH]; intros value next Hfuel; [lia |].
  cbn [getValidValueOrDefault]. unfold getValidValueOrDefaultStep.
  change (isNullish unconstrainedSchema) with false. cbn iota.
  assert (Hfixed : forall x, depth x < fuel ->
            fixedAt (getValidValueOrDefault fuel) eq unconstrainedSchema x).
  { intros x Hx n. exists n. split; [reflexivity | now apply IH]. }
  replace (chooseValue unconstrainedSchema value next) with (value, next)
    by (unfold chooseValue; now destruct value).
  destruct value as [| | b | n | s | ref items | ref props]; try reflexivity.
  - unfold populateArrayDefaults.
    destruct (populateItems_unchanged (getValidValueOrDefault fuel) unconstrainedSchema
                ref eq (@eq_refl nat) (@eq_trans nat) (List.length items) 0 items next)
      as (next' & <- & ->); [| reflexivity].
    intros j _. unfold settled.
    rewrite unconstrained_members by reflexivity. right. apply Hfixed.
    change (member (VArr ref items) (PIndex j)) with (nth j items VUndefined).
    pose proof (deepestItem_nth items j). rewrite depth_VArr in Hfuel. lia.
  - unfold populateObjectDefaults.
    change (prop unconstrainedSchema "required") with VUndefined. cbn iota.
    destruct (populateRemaining_unchanged (getValidValueOrDefault fuel)
                unconstrainedSchema ref eq (@eq_refl nat) (@eq_trans nat)
                (map fst props) props next)
      as (next' & <- & ->); [| reflexivity].
    intros q Hq. unfold settled.
    rewrite unconstrained_members by reflexivity. repeat split.
    + right. apply Hfixed.
      change (member (VObj ref props) (PName q)) with (prop (VObj ref props) q).
      pose proof (depth_prop_VObj ref props q). rewrite depth_VObj in Hfuel. lia.
    + discriminate.
    + exact Hq.
Qed.

(** ** [getValidValueOrDefault] returns when it has enough fuel *)

Section PopulateTotal.

Variable rec : Value -> Value -> nat -> Outcome Value.
Variable schema : Value.
Variable ref : nat.

(** A bound on the depth of the members, kept by every repair. *)
Variable bound : nat.
Hypothesis rec_total :
  forall key container ps path x next,
    getPropertySchema schema key container = Resolved ps path ->
    depth x <= bound ->
    exists v next', rec ps x next = Returns v next' /\ depth v <= bound.






End PopulateTotal.

Lemma getValidValueOrDefaultStep_chosen
  (rec : Value -> Value -> nat -> Outcome Value) (schema value : Value) (next : nat) :
  isNullish schema = false ->
  getValidValueOrDefaultStep rec schema value next
  = match fst (chooseValue schema value next) with
    | VObj _ _ as chosen =>
        populateObjectDefaults rec chosen schema (snd (chooseValue schema value next))
    | VArr _ _ as chosen =>
        populateArrayDefaults rec chosen schema (snd (chooseValue schema value next))
    | chosen => Returns chosen (snd (chooseValue schema value next))
    end.
Proof.
  intro H. unfold getValidValueOrDefaultStep. rewrite H.
  now destruct (chooseValue schema value next) as [[] ?].
Qed.


(** ** What [getValidValueOrDefault] returns *)




(** ** Names of an object under assignment and deletion *)

Lemma In_setProp (p q : string) (v : Value) (props : list (string * Value)) :
  In q (map fst (setProp p v props)) <-> q = p \/ In q (map fst props).
Proof.
  rewrite !lookup_In. destruct (string_dec p q) as [-> | Hpq].
  - rewrite lookup_setProp_same. split; [now left | discriminate].
  - rewrite lookup_setProp_other by exact Hpq. split; [now right |].
    intros [-> | H]; [contradiction | exact H].
Qed.

Lemma In_deleteProp (p q : string) (props : list (string * Value)) :
  In q (map fst (deleteProp p props)) <-> q <> p /\ In q (map fst props).
Proof.
  rewrite !lookup_In. destruct (string_dec p q) as [-> | Hpq].
  - rewrite lookup_deleteProp_same. split; [contradiction | tauto].
  - rewrite lookup_deleteProp_other by exact Hpq. split; [| tauto].
    intro H. split; [congruence | exact H].
Qed.

Lemma In_SetDelete (p q : string) (properties : list string) :
  In q (SetDelete p properties) <-> q <> p /\ In q properties.
Proof.
  unfold SetDelete. rewrite filter_In, negb_true_iff, String.eqb_neq. tauto.
Qed.

Lemma In_namesLeft (required : list Value) (properties : list string) (q : string) :
  In q (namesLeft required properties)
  <-> In q properties /\ ~ In (VStr q) required.
Proof.
  unfold namesLeft. revert properties.
  induction required as [| e rest IH]; intro properties; simpl; [tauto |].
  rewrite IH. destruct e as [| | b | n | p | r l | r l];
    try (split; [intros [H1 H2]; split; [exact H1 | intros [H | H]; [discriminate H | auto]]
                | intros [H1 H2]; split; [exact H1 | auto]]).
  rewrite In_SetDelete. split.
  - intros [[Hne Hin] Hrest]. split; [exact Hin |].
    intros [H | H]; [injection H as ->; now apply Hne | auto].
  - intros [Hin Hnot]. split; [split; [| exact Hin] | auto].
    intros ->. apply Hnot. now left.
Qed.

Lemma member_name (ref : nat) (props : list (string * Value)) (p : string) :
  member (VObj ref props) (PName p)
  = match lookup p props with
    | Some x => x
    | None => VUndefined
    end.
Proof. reflexivity. Qed.

(** ** Applying [getValidValueOrDefault] to its own result *)

Section Idempotent.

Variable rec : Value -> Value -> nat -> Outcome Value.
Variable schema : Value.
Variable ref : nat.

Hypothesis rec_idempotent :
  forall ps x n v n', rec ps x n = Returns v n' -> fixedAt rec anyStep ps v.

Lemma resolve_name (props props' : list (string * Value)) (p : string) :
  getPropertySchema schema (PName p) (VObj ref props)
  = getPropertySchema schema (PName p) (VObj ref props').
Proof. now apply getPropertySchema_kind. Qed.

Lemma resolve_index (items items' : list Value) (j : nat) :
  getPropertySchema schema (PIndex j) (VArr ref items)
  = getPropertySchema schema (PIndex j) (VArr ref items').
Proof. now apply getPropertySchema_kind. Qed.

Lemma reachesAccessor_lookup (props props' : list (string * Value)) (p : string) :
  lookup p props' = lookup p props ->
  reachesAccessor (VObj ref props') (PName p) = reachesAccessor (VObj ref props) (PName p).
Proof. intro Hl. unfold reachesAccessor. cbn [keyString]. now rewrite Hl. Qed.

Lemma reachesAccessor_name (props : list (string * Value)) (p : string) :
  reachesAccessor (VObj ref props) (PName p) = true <->
  p = "__proto__" /\ ~ In p (map fst props).
Proof.
  unfold reachesAccessor. cbn [keyString]. rewrite lookup_In.
  destruct (lookup p props) as [v |].
  - split; [discriminate | intros [_ H]; exfalso; apply H; discriminate].
  - rewrite String.eqb_eq. split; [intro H; split; [exact H | tauto] | tauto].
Qed.

Lemma settledName_same (props props' : list (string * Value)) (p : string) :
  lookup p props' = lookup p props ->
  settledName rec schema ref props p -> settledName rec schema ref props' p.
Proof.
  unfold settledName, settled. intro Hl.
  rewrite (resolve_name props' props), !member_name, Hl.
  now rewrite (reachesAccessor_lookup props props' p Hl).
Qed.

Lemma settledName_set (props : list (string * Value)) (p : string)
  (ps x v : Value) (path : list PathEntry) (n n' : nat) :
  getPropertySchema schema (PName p) (VObj ref props) = Resolved ps path ->
  rec ps x n = Returns v n' ->
  settledName rec schema ref (setProp p v props) p.
Proof.
  intros Hps Hrec. unfold settledName, settled.
  rewrite (resolve_name _ props), Hps, member_name, lookup_setProp_same.
  right. eapply rec_idempotent; eauto.
Qed.

Lemma settledName_NotPermitted (props props' : list (string * Value)) (p : string) :
  getPropertySchema schema (PName p) (VObj ref props) = NotPermitted ->
  settledName rec schema ref props' p.
Proof.
  intro H. unfold settledName, settled. now rewrite (resolve_name _ props), H.
Qed.

Lemma settledName_accessor (props : list (string * Value)) (p : string) :
  reachesAccessor (VObj ref props) (PName p) = true ->
  settledName rec schema ref props p.
Proof.
  intro H. unfold settledName, settled.
  destruct (getPropertySchema schema (PName p) (VObj ref props)) eqn:Hps;
    [now left | exact I |].
  exact (getPropertySchema_name _ _ _ Hps).
Qed.

Lemma populateRequired_settles (required : list Value)
  (props : list (string * Value)) (properties : list string) (n : nat)
  (propsR : list (string * Value)) (namesR : list string) (n' : nat) :
  populateRequired rec schema ref required props properties n
  = Returns (propsR, namesR) n' ->
  namesR = namesLeft required properties
  /\ (forall p, In (VStr p) required \/ settledName rec schema ref props p -> settledName rec schema ref propsR p)
  /\ (forall q, In q (map fst props) -> In q (map fst propsR))
  /\ (forall q, In q (map fst propsR) ->
                In q (map fst props) \/ (In (VStr q) required /\ q <> "__proto__"))
  /\ (forall p, In (VStr p) required ->
                getPropertySchema schema (PName p) (VObj ref props) <> NotPermitted ->
                In p (map fst propsR)
                \/ reachesAccessor (VObj ref propsR) (PName p) = true).
Proof.
  revert props properties n.
  induction required as [| e rest IH]; intros props properties n H.
  - cbn in H. injection H as <- <- <-.
    split; [reflexivity | split; [| split; [| split]]]; auto.
    + intros p [[] | Hp]. exact Hp.
  - assert (Hskip :
      populateRequired rec schema ref rest props properties n
      = Returns (propsR, namesR) n' ->
      (forall p, e <> VStr p) ->
      namesR = namesLeft (e :: rest) properties
      /\ (forall p, In (VStr p) (e :: rest) \/ settledName rec schema ref props p ->
                    settledName rec schema ref propsR p)
      /\ (forall q, In q (map fst props) -> In q (map fst propsR))
      /\ (forall q, In q (map fst propsR) ->
                    In q (map fst props)
                    \/ (In (VStr q) (e :: rest) /\ q <> "__proto__"))
      /\ (forall p, In (VStr p) (e :: rest) ->
                    getPropertySchema schema (PName p) (VObj ref props) <> NotPermitted ->
                    In p (map fst propsR)
                    \/ reachesAccessor (VObj ref propsR) (PName p) = true)).
    { intros Hrest He. destruct (IH _ _ _ Hrest) as (Hn & Hs & Hg & Hnames & Hin).
      split; [| split; [| split; [| split]]].
      - rewrite Hn. unfold namesLeft. destruct e; try reflexivity.
        now contradiction (He s).
      - intros p [[Hp | Hp] | Hp]; [now contradiction (He p) | |]; apply Hs; auto.
      - exact Hg.
      - intros q Hq. destruct (Hnames q Hq) as [Hq' | [Hq' Hne]];
          [now left | right; split; [now right | exact Hne]].
      - intros p [Hp | Hp]; [now contradiction (He p) | now apply Hin]. }
    destruct e as [| | b | x | p0 | r l | r l];
      try (apply Hskip; [exact H | discriminate]).
    clear Hskip. cbn [populateRequired] in H.
    destruct (getPropertySchema schema (PName p0) (VObj ref props))
      as [ps path | |] eqn:Hps; [| | discriminate H].
    + destruct (reachesAccessor (VObj ref props) (PName p0)) eqn:Hreach.
      * (* the assignment would reach the accessor *)
        destruct (IH _ _ _ H) as (Hn & Hs & Hg & Hnames & Hin).
        assert (Hstill : reachesAccessor (VObj ref propsR) (PName p0) = true).
        { apply reachesAccessor_name in Hreach. destruct Hreach as [Hp0 Hnot].
          apply reachesAccessor_name. split; [exact Hp0 |].
          intro Hq. destruct (Hnames p0 Hq) as [Hq' | [_ Hne]]; contradiction. }
        split; [exact Hn | split; [| split; [| split]]].
        -- intros p [[Hp | Hp] | Hp].
           ++ injection Hp as <-. now apply settledName_accessor.
           ++ apply Hs. now left.
           ++ apply Hs. now right.
        -- exact Hg.
        -- intros q Hq. destruct (Hnames q Hq) as [Hq' | [Hq' Hne]];
             [now left | right; split; [now right | exact Hne]].
        -- intros p [Hp | Hp] Hres.
           ++ injection Hp as <-. now right.
           ++ now apply Hin.
      * destruct (rec ps (prop (VObj ref props) p0) n) as [v n1 | |] eqn:Hrec;
          try discriminate H.
        destruct (IH _ _ _ H) as (Hn & Hs & Hg & Hnames & Hin).
        split; [exact Hn | split; [| split; [| split]]].
        -- intros p Hp. apply Hs.
           destruct (string_dec p p0) as [-> | Hne].
           ++ right. eapply settledName_set; eauto.
           ++ destruct Hp as [[Hp | Hp] | Hp].
              ** injection Hp as ->. contradiction.
              ** now left.
              ** right. eapply settledName_same; [| exact Hp].
                 apply lookup_setProp_other. congruence.
        -- intros q Hq. apply Hg, In_setProp. now right.
        -- intros q Hq. destruct (Hnames q Hq) as [Hq' | [Hq' Hne]].
           ++ apply In_setProp in Hq'. destruct Hq' as [-> | Hq']; [| now left].
              destruct (in_dec string_dec p0 (map fst props)) as [Hown | Hnew];
                [now left | right].
              split; [now left |]. intros ->.
              assert (Habs : reachesAccessor (VObj ref props) (PName "__proto__") = true)
                by (now apply reachesAccessor_name).
              rewrite Habs in Hreach. discriminate Hreach.
           ++ right. split; [now right | exact Hne].
        -- intros p [Hp | Hp] Hres.
           ++ injection Hp as <-. left. apply Hg, In_setProp. now left.
           ++ apply Hin; [exact Hp |]. now rewrite (resolve_name _ props).
    + destruct (IH _ _ _ H) as (Hn & Hs & Hg & Hnames & Hin).
      split; [exact Hn | split; [| split; [| split]]].
      * intros p [[Hp | Hp] | Hp].
        -- injection Hp as <-. eapply settledName_NotPermitted; eauto.
        -- apply Hs. now left.
        -- apply Hs. now right.
      * exact Hg.
      * intros q Hq. destruct (Hnames q Hq) as [Hq' | [Hq' Hne]];
          [now left | right; split; [now right | exact Hne]].
      * intros p [Hp | Hp] Hres.
        -- injection Hp as <-. contradiction.
        -- now apply Hin.
Qed.

Lemma populateRemaining_settles (properties : list string)
  (props : list (string * Value)) (n : nat)
  (props' : list (string * Value)) (n' : nat) :
  populateRemaining rec schema ref properties props n = Returns props' n' ->
  (forall p, In p properties \/ settledName rec schema ref props p -> settledName rec schema ref props' p)
  /\ (forall q, In q (map fst props) -> ~ In q properties -> In q (map fst props'))
  /\ (forall q, In q (map fst props') ->
                (In q (map fst props) \/ In q properties)
                /\ (In q properties ->
                    getPropertySchema schema (PName q) (VObj ref props) <> NotPermitted)).
Proof.
  revert props n.
  induction properties as [| q0 rest IH]; intros props n H.
  - cbn in H. injection H as <- <-.
    split; [| split];
      [intros p [[] | Hp]; exact Hp | auto
      | intros q Hq; split; [now left | intros []]].
  - cbn [populateRemaining] in H.
    destruct (getPropertySchema schema (PName q0) (VObj ref props))
      as [ps path | |] eqn:Hps; [| | discriminate H].
    + destruct (rec ps (prop (VObj ref props) q0) n) as [v n1 | |] eqn:Hrec;
        try discriminate H.
      destruct (IH _ _ H) as (Hs & Hkeep & Hnames).
      split; [| split].
      * intros p Hp. apply Hs.
        destruct (string_dec p q0) as [-> | Hne].
        -- right. eapply settledName_set; eauto.
        -- destruct Hp as [[Hp | Hp] | Hp].
           ++ congruence.
           ++ now left.
           ++ right. eapply settledName_same; [| exact Hp].
              apply lookup_setProp_other. congruence.
      * intros q Hq Hnot. apply Hkeep.
        -- apply In_setProp. now right.
        -- intro Hr. apply Hnot. now right.
      * intros q Hq. destruct (Hnames q Hq) as [Hor Hres]. split.
        -- destruct Hor as [Hq' | Hq'].
           ++ apply In_setProp in Hq'. destruct Hq' as [-> | Hq'];
                [right; now left | now left].
           ++ right. now right.
        -- intros [<- | Hr]; [now rewrite Hps |].
           rewrite (resolve_name _ (setProp q0 v props)). now apply Hres.
    + destruct (IH _ _ H) as (Hs & Hkeep & Hnames).
      split; [| split].
      * intros p Hp. apply Hs.
        destruct (string_dec p q0) as [-> | Hne].
        -- right. eapply settledName_NotPermitted; eauto.
        -- destruct Hp as [[Hp | Hp] | Hp].
           ++ congruence.
           ++ now left.
           ++ right. eapply settledName_same; [| exact Hp].
              apply lookup_deleteProp_other. congruence.
      * intros q Hq Hnot. apply Hkeep.
        -- apply In_deleteProp. split; [| exact Hq].
           intros ->. apply Hnot. now left.
        -- intro Hr. apply Hnot. now right.
      * intros q Hq. destruct (Hnames q Hq) as [Hor Hres].
        assert (Hin : In q (map fst props) \/ In q rest).
        { destruct Hor as [Hq' | Hq']; [| now right].
          apply In_deleteProp in Hq'. left. apply Hq'. }
        split; [destruct Hin; [now left | right; now right] |].
        intros [<- | Hr].
        -- exfalso. destruct Hor as [Hq' | Hq'].
           ++ apply In_deleteProp in Hq'. now apply (proj1 Hq').
           ++ apply (Hres Hq'). now rewrite (resolve_name _ props).
        -- rewrite (resolve_name _ (deleteProp q0 props)). now apply Hres.
Qed.

Lemma settledIndex_same (items items' : list Value) (j : nat) :
  nth j items' VUndefined = nth j items VUndefined ->
  settledIndex rec schema ref items j -> settledIndex rec schema ref items' j.
Proof.
  unfold settledIndex, settled. intro Hn.
  rewrite (resolve_index items' items). cbn [member itemAt]. now rewrite Hn.
Qed.

Lemma populateItems_settles (count i : nat) (items : list Value) (n : nat)
  (items' : list Value) (n' : nat) :
  populateItems rec schema ref i count items n = Returns items' n' ->
  i + count <= List.length items ->
  List.length items' = List.length items
  /\ (forall j, i <= j < i + count \/ settledIndex rec schema ref items j -> settledIndex rec schema ref items' j).
Proof.
  revert i items n.
  induction count as [| count IH]; intros i items n H Hlen.
  - cbn in H. injection H as <- <-. split; [reflexivity |].
    intros j [Hj | Hj]; [lia | exact Hj].
  - cbn [populateItems] in H.
    destruct (getPropertySchema schema (PIndex i) (VArr ref items))
      as [ps path | |] eqn:Hps; [| | discriminate H].
    + destruct (rec ps (nth i items VUndefined) n) as [v n1 | |] eqn:Hrec;
        try discriminate H.
      destruct (IH _ _ _ H) as (Hl & Hs);
        [rewrite length_setItem; lia |].
      rewrite length_setItem in Hl. split; [exact Hl |].
      intros j Hj. apply Hs.
      destruct (Nat.eq_dec j i) as [-> | Hne].
      * right. unfold settledIndex, settled.
        rewrite (resolve_index _ items), Hps. cbn [member itemAt].
        rewrite nth_setItem_same by lia. right. eapply rec_idempotent; eauto.
      * destruct Hj as [Hj | Hj]; [left; lia | right].
        eapply settledIndex_same; [| exact Hj].
        apply nth_setItem_other. congruence.
    + destruct (IH _ _ _ H) as (Hl & Hs); [lia |].
      split; [exact Hl |].
      intros j Hj. apply Hs.
      destruct (Nat.eq_dec j i) as [-> | Hne].
      * right. unfold settledIndex, settled. now rewrite Hps.
      * destruct Hj as [Hj | Hj]; [left; lia | now right].
Qed.

Lemma anyStep_trans (n1 n2 n3 : nat) : anyStep n1 n2 -> anyStep n2 n3 -> anyStep n1 n3.
Proof. intros _ _. exact I. Qed.

(** A repaired object is returned as it is when it is repaired again. *)
Lemma populateObjectDefaults_again (props : list (string * Value)) (n : nat)
  (result : Value) (n' : nat) :
  populateObjectDefaults rec (VObj ref props) schema n = Returns result n' ->
  forall m, exists m',
    populateObjectDefaults rec result schema m = Returns result m'.
Proof.
  unfold populateObjectDefaults. intros H m.
  set (required := match prop schema "required" with
                   | VArr _ required => required
                   | _ => []
                   end).
  assert (Hfirst : forall ps names k,
            match prop schema "required" with
            | VArr _ required => populateRequired rec schema ref required ps names k
            | _ => Returns (ps, names) k
            end = populateRequired rec schema ref required ps names k)
    by (intros; subst required; now destruct (prop schema "required")).
  rewrite Hfirst in H.
  destruct (populateRequired rec schema ref required props (map fst props) n)
    as [[propsR namesR] nR | |] eqn:HR; try discriminate H.
  destruct (populateRemaining rec schema ref namesR propsR nR)
    as [props' nM | |] eqn:HM; try discriminate H.
  injection H as <- <-. rewrite Hfirst.
  destruct (populateRequired_settles _ _ _ _ _ _ _ HR)
    as (-> & HsR & HgR & HnamesR & HinR).
  destruct (populateRemaining_settles _ _ _ _ _ HM) as (HsM & HkeepM & HnamesM).
  destruct (populateRequired_unchanged rec schema ref anyStep
              (fun _ => I) anyStep_trans required props' (map fst props') m)
    as (m1 & _ & ->).
  { intros p Hp. split.
    - apply HsM. right. apply HsR. now left.
    - intro Hres.
      destruct (HinR p Hp) as [Hown | Hreach];
        [now rewrite (resolve_name _ props') | |].
      + left. apply HkeepM; [exact Hown |]. rewrite In_namesLeft. tauto.
      + right. apply reachesAccessor_name in Hreach. destruct Hreach as [Hname Hnot].
        apply reachesAccessor_name. split; [exact Hname |].
        intro Hq. destruct (HnamesM p Hq) as [[Hq' | Hq'] _]; [contradiction |].
        apply In_namesLeft in Hq'. tauto. }
  destruct (populateRemaining_unchanged rec schema ref anyStep
              (fun _ => I) anyStep_trans (namesLeft required (map fst props')) props' m1)
    as (m2 & _ & ->).
  { intros q Hq. apply In_namesLeft in Hq. destruct Hq as [Hq Hnot].
    destruct (HnamesM q Hq) as [Hor Hres].
    assert (Hleft : In q (namesLeft required (map fst props))).
    { destruct Hor as [Hq' | Hq']; [| exact Hq'].
      apply In_namesLeft. split; [| exact Hnot].
      destruct (HnamesR q Hq') as [Hbefore | [Hisreq _]];
        [assumption | contradiction]. }
    repeat split.
    - apply HsM. now left.
    - rewrite (resolve_name _ propsR). now apply Hres.
    - exact Hq. }
  now exists m2.
Qed.

(** A repaired array is returned as it is when it is repaired again. *)
Lemma populateArrayDefaults_again (items : list Value) (n : nat)
  (result : Value) (n' : nat) :
  populateArrayDefaults rec (VArr ref items) schema n = Returns result n' ->
  forall m, exists m',
    populateArrayDefaults rec result schema m = Returns result m'.
Proof.
  unfold populateArrayDefaults. intros H m.
  destruct (populateItems rec schema ref 0 (List.length items) items n)
    as [items' n1 | |] eqn:HI; try discriminate H.
  injection H as <- <-.
  destruct (populateItems_settles _ _ _ _ _ _ HI (le_n _)) as (Hlen & Hs).
  destruct (populateItems_unchanged rec schema ref anyStep
              (fun _ => I) anyStep_trans (List.length items') 0 items' m)
    as (m1 & _ & ->).
  { intros j Hj. apply Hs. left. lia. }
  now exists m1.
Qed.

End Idempotent.

Lemma getDefaultTypeValue_null (type : Value) (n m : nat) :
  fst (getDefaultTypeValue type n) = VNull ->
  fst (getDefaultTypeValue type m) = VNull.
Proof.
  destruct type as [| | b | q | s | ref items | ref props]; try reflexivity.
  unfold getDefaultTypeValue.
  repeat match goal with
    | |- context [if ?b then _ else _] => destruct b
    end; cbn [fst]; intro H; try discriminate H; reflexivity.
Qed.

Lemma clone_null (d : Value) (n : nat) : fst (clone d n) = VNull -> d = VNull.
Proof.
  destruct d; try (cbn; congruence).
  - rewrite clone_VArr. discriminate.
  - rewrite clone_VObj. discriminate.
Qed.

Lemma clone_fits (d : Value) (n m : nat) (type : Value) :
  isValueTypeAny (fst (clone d n)) (getValueType (fst (clone d n))) type
  = isValueTypeAny (fst (clone d m)) (getValueType (fst (clone d m))) type.
Proof.
  destruct (clone_kind d n) as [Ht Hf]. destruct (clone_kind d m) as [Ht' Hf'].
  apply isValueTypeAny_kind; congruence.
Qed.

(** When the chosen value is [null], choosing again from [null] gives
    [null]. *)
Lemma chooseValue_null_again (schema value : Value) (n m : nat) :
  fst (chooseValue schema value n) = VNull ->
  fst (chooseValue schema VNull m) = VNull.
Proof.
  unfold chooseValue.
  destruct (isValueTypeAny VNull (getValueType VNull) (prop schema "type")) eqn:Hnull;
    [reflexivity |].
  destruct (isValueTypeAny value (getValueType value) (prop schema "type")) eqn:Hv.
  - cbn [fst]. intros ->. rewrite Hnull in Hv. discriminate Hv.
  - destruct (prop schema "default") eqn:Hd;
      [apply getDefaultTypeValue_null | ..];
      (pose proof (clone_fits (prop schema "default") n m (prop schema "type")) as Hfit;
       rewrite Hd in Hfit;
       destruct (clone _ n) as [c1 n1] eqn:Hc1; destruct (clone _ m) as [c2 n2] eqn:Hc2;
       cbn [fst] in Hfit; rewrite <- Hfit;
       destruct (isValueTypeAny c1 (getValueType c1) (prop schema "type")) eqn:Hvalid;
       [ cbn [fst]; intros ->;
         pose proof (clone_null _ n (f_equal fst Hc1)) as Hnull';
         try discriminate Hnull';
         cbn in Hc2; injection Hc2 as <- <-; reflexivity
       | apply getDefaultTypeValue_null ]).
Qed.

(** Applying [getValidValueOrDefault] to a value it returned returns that
    value. *)
Lemma getValidValueOrDefault_again (fuel : nat) (schema value : Value) (n : nat)
  (result : Value) (n' : nat) :
  getValidValueOrDefault fuel schema value n = Returns result n' ->
  forall m, exists m', getValidValueOrDefault fuel schema result m = Returns result m'.
Proof.
  revert schema value n result n'.
  induction fuel as [| fuel IH]; intros schema value n result n' H m;
    [discriminate H |].
  assert (Hrec : forall ps x k v k',
             getValidValueOrDefault fuel ps x k = Returns v k' ->
             fixedAt (getValidValueOrDefault fuel) anyStep ps v).
  { intros ps x k v k' Hv next. destruct (IH _ _ _ _ _ Hv next) as [next' Hn].
    exists next'. split; [exact I | exact Hn]. }
  cbn [getValidValueOrDefault] in H |- *.
  assert (Hs : isNullish schema = false).
  { unfold getValidValueOrDefaultStep in H.
    destruct (isNullish schema); [discriminate H | reflexivity]. }
  rewrite getValidValueOrDefaultStep_chosen in H |- * by exact Hs.
  destruct (chooseValue_fits schema value n) as (Hfit & _ & _). cbv zeta in Hfit.
  (* the second run chooses the result itself *)
  assert (Hchoose : forall r,
             getValueType r = getValueType (fst (chooseValue schema value n)) ->
             floorIsSelf r = floorIsSelf (fst (chooseValue schema value n)) ->
             (fst (chooseValue schema value n) = VNull -> r = VNull) ->
             fst (chooseValue schema r m) = r).
  { intros r Ht Hf Hn.
    destruct Hfit as [Hfit | Hnull].
    - rewrite <- (isValueTypeAny_kind _ _ _ Ht Hf) in Hfit.
      unfold chooseValue. now rewrite Hfit.
    - rewrite (Hn Hnull). eapply chooseValue_null_again. exact Hnull. }
  destruct (fst (chooseValue schema value n))
    as [| | b | q | s | ref items | ref props] eqn:Hchosen.
  1-5: injection H as <- <-;
       rewrite Hchoose by (reflexivity || congruence); eexists; reflexivity.
  - destruct (populateArrayDefaults_again _ schema ref Hrec _ _ _ _ H
                (snd (chooseValue schema result m))) as [m' Hm'].
    assert (Hshape : exists items', result = VArr ref items').
    { unfold populateArrayDefaults in H.
      destruct (populateItems _ _ _ _ _ _ _); try discriminate H.
      injection H as <- _. eauto. }
    destruct Hshape as [items' ->].
    rewrite Hchoose by (reflexivity || discriminate). now exists m'.
  - destruct (populateObjectDefaults_again _ schema ref Hrec _ _ _ _ H
                (snd (chooseValue schema result m))) as [m' Hm'].
    assert (Hshape : exists props', result = VObj ref props').
    { unfold populateObjectDefaults in H.
      destruct (match prop schema "required" with
                | VArr _ required =>
                    populateRequired _ schema ref required props (map fst props) _
                | _ => Returns (props, map fst props) _
                end) as [[pr nr] k | |]; try discriminate H.
      destruct (populateRemaining _ _ _ _ _ _); try discriminate H.
      injection H as <- _. eauto. }
    destruct Hshape as [props' ->].
    rewrite Hchoose by (reflexivity || discriminate). now exists m'.
Qed.

(** ** A value that validates is returned as it is *)

Lemma SetHas_In (properties : list string) (e : Value) :
  SetHas properties e = true -> exists p, e = VStr p /\ In p properties.
Proof.
  destruct e; try discriminate. simpl. rewrite existsb_exists.
  intros (k & Hk & H). apply String.eqb_eq in H. subst k. eauto.
Qed.



Section Conformant.

Variable recV : Value -> Value -> TraversalInfo -> Completion.
Variable recP : Value -> Value -> nat -> Outcome Value.
Hypothesis rec_conformant :
  forall v s i i', recV v s i = Normal i' -> forall n, recP s v n = Returns v n.







End Conformant.




(** * Further properties of the code *)

(** ** [allOf], [anyOf], [not] and [if] *)

(** With enough fuel [validate] decides: it returns normally, or it throws
    the error that [JsonSchema.validate] throws for the same value and
    schema. *)
Lemma validate_decides (getRegex : string -> string -> (string -> bool) + string)
  (fuel : nat) (value schema : Value) (info : TraversalInfo) :
  validateFuel schema value <= fuel ->
  (accepts getRegex fuel value schema = true
   /\ exists info', validate getRegex fuel value schema info = Normal info')
  \/ (accepts getRegex fuel value schema = false
      /\ exists e info',
           validate getRegex fuel value schema info = Throw e info'
           /\ verdict (JsonSchema_validate getRegex fuel value schema) = Rejected e).
Proof.
  intro Hfuel.
  pose proof (validate_total getRegex fuel value schema info Hfuel) as Htotal.
  pose proof (validate_verdict getRegex fuel value schema info
                (newTraversalInfo value schema)) as Hv.
  unfold accepts, JsonSchema_validate.
  destruct (validate getRegex fuel value schema info) as [i1 | e i1 |];
    [| | congruence];
    destruct (validate getRegex fuel value schema (newTraversalInfo value schema));
    try discriminate Hv.
  - left. eauto.
  - right. split; [reflexivity |]. exists e, i1. split; [reflexivity |].
    simpl in Hv |- *. congruence.
Qed.

Lemma accepts_Throw (getRegex : string -> string -> (string -> bool) + string)
  (fuel : nat) (value schema : Value) (info info' : TraversalInfo) (e : Error) :
  validate getRegex fuel value schema info = Throw e info' ->
  accepts getRegex fuel value schema = false
  /\ verdict (JsonSchema_validate getRegex fuel value schema) = Rejected e.
Proof.
  intro H.
  pose proof (validate_verdict getRegex fuel value schema info
                (newTraversalInfo value schema)) as Hv.
  rewrite H in Hv. unfold accepts, JsonSchema_validate.
  destruct (validate getRegex fuel value schema (newTraversalInfo value schema));
    try discriminate Hv.
  simpl in Hv |- *. split; [reflexivity | congruence].
Qed.

Lemma validateAllOfFrom_all (getRegex : string -> string -> (string -> bool) + string)
  (fuel : nat) (value : Value) (subSchemas : list Value) (i : nat) (info : TraversalInfo) :
  forallb (accepts getRegex fuel value) subSchemas = true ->
  exists info', validateAllOfFrom (validate getRegex fuel) value subSchemas i info
                = Normal info'.
Proof.
  revert i info. induction subSchemas as [| s rest IH]; intros i info H.
  - now exists info.
  - cbn [forallb] in H. apply andb_true_iff in H. destruct H as [Hs Hrest].
    apply (accepts_verdict getRegex fuel value s (schemaPush (Some (PIndex i)) s info)) in Hs.
    destruct Hs as [i1 Hs]. unroll. rewrite Hs. cbn [andThen]. apply IH, Hrest.
Qed.

Lemma validateAllOfFrom_first (getRegex : string -> string -> (string -> bool) + string)
  (fuel : nat) (value : Value) (subSchemas : list Value) (i : nat)
  (info info' : TraversalInfo) (e : Error) :
  validateAllOfFrom (validate getRegex fuel) value subSchemas i info = Throw e info' ->
  exists passed s rest,
    subSchemas = passed ++ s :: rest
    /\ forallb (accepts getRegex fuel value) passed = true
    /\ verdict (JsonSchema_validate getRegex fuel value s) = Rejected e.
Proof.
  revert i info. induction subSchemas as [| s rest IH]; intros i info H;
    [discriminate H |].
  cbn [validateAllOfFrom] in H.
  destruct (validate getRegex fuel value s (schemaPush (Some (PIndex i)) s info))
    as [i1 | e1 i1 |] eqn:Hs; cbn [andThen] in H; [| | discriminate H].
  - destruct (IH _ _ H) as (passed & s' & rest' & -> & Hp & He).
    exists (s :: passed), s', rest'. split; [reflexivity |]. split; [| exact He].
    cbn [forallb]. rewrite Hp, andb_true_r.
    apply (accepts_verdict getRegex fuel value s (schemaPush (Some (PIndex i)) s info)).
    eauto.
  - injection H as <- <-. exists [], s, rest. split; [reflexivity |].
    split; [reflexivity |]. eapply accepts_Throw. exact Hs.
Qed.

(** X1: when [schema.allOf] is a list, [validateAllOf] returns normally
    exactly when the value validates against every listed sub-schema; with
    enough fuel it otherwise throws, and the error it throws is the one the
    first failing sub-schema reports, every sub-schema before it being
    satisfied. *)
Theorem allOf_requires_every_subschema :
  forall (getRegex : string -> string -> (string -> bool) + string) (fuel : nat)
         (value schema : Value) (ref : nat) (subSchemas : list Value)
         (info : TraversalInfo),
    prop schema "allOf" = VArr ref subSchemas ->
    validateFuel schema value <= S fuel ->
    let result := validateAllOf (validate getRegex fuel) value schema info in
    ((exists info', result = Normal info')
     <-> forallb (accepts getRegex fuel value) subSchemas = true)
    /\ result <> OutOfFuel
    /\ (forall e info',
           result = Throw e info' ->
           exists passed s rest,
             subSchemas = passed ++ s :: rest
             /\ forallb (accepts getRegex fuel value) passed = true
             /\ verdict (JsonSchema_validate getRegex fuel value s) = Rejected e).
Proof.
  intros getRegex fuel value schema ref subSchemas info Hprop Hfuel result.
  subst result. unfold validateAllOf. rewrite Hprop.
  set (info0 := schemaPush (Some (PName "allOf")) (VArr ref subSchemas) info).
  split; [split |].
  - intros [info' H]. apply andThen_Normal in H. destruct H as (i1 & H & _).
    apply forallb_forall. intros s Hs.
    apply not_false_is_true. intro Hf.
    assert (Hall : forall l i j k,
               validateAllOfFrom (validate getRegex fuel) value l i j = Normal k ->
               forall x, In x l -> accepts getRegex fuel value x = true).
    { induction l as [| y l IHl]; intros i j k Hl x Hx; [contradiction |].
      cbn [validateAllOfFrom] in Hl. apply andThen_Normal in Hl. destruct Hl as (i2 & Hy & Hl).
      destruct Hx as [<- | Hx]; [| eapply IHl; eauto].
      apply (accepts_verdict getRegex fuel value y (schemaPush (Some (PIndex i)) y j)).
      eauto. }
    rewrite (Hall _ _ _ _ H s Hs) in Hf. discriminate Hf.
  - intro Hall.
    destruct (validateAllOfFrom_all getRegex fuel value subSchemas 0 info0 Hall)
      as [i1 ->].
    cbn [andThen]. eauto.
  - split.
    + apply andThen_total; [| discriminate].
      apply validateAllOfFrom_total with (m := fuel).
      * intros v s i Hm. apply validate_total. unfold validateFuel. lia.
      * intros s Hs. pose proof (listed_validateFuel _ _ _ _ _ _ Hfuel Hprop s Hs) as Hl.
        unfold validateFuel in Hl. lia.
    + intros e info' H.
      destruct (validateAllOfFrom (validate getRegex fuel) value subSchemas 0 info0)
        as [i1 | e1 i1 |] eqn:Hfrom; cbn [andThen] in H; try discriminate H.
      injection H as <- <-. eapply validateAllOfFrom_first. exact Hfrom.
Qed.

Lemma allOf_requires_every_subschema_witness :
  let schema := VObj 10 [("allOf", VArr 11 [typeSchema 12 "number"; typeSchema 13 "integer"])] in
  (exists info',
      validateAllOf (validate literalRegex 3) (VNum 2) schema
        (newTraversalInfo (VNum 2) schema) = Normal info')
  /\ validateAllOf (validate literalRegex 3) (VNum (3 # 2)) schema
       (newTraversalInfo (VNum (3 # 2)) schema) <> OutOfFuel.
Proof.
  intro schema. split.
  - exact (proj2 (proj1 (allOf_requires_every_subschema literalRegex 3 (VNum 2) schema 11
                           [typeSchema 12 "number"; typeSchema 13 "integer"]
                           (newTraversalInfo (VNum 2) schema) eq_refl (le_n 4)))
             eq_refl).
  - exact (proj1 (proj2 (allOf_requires_every_subschema literalRegex 3 (VNum (3 # 2))
                           schema 11
                           [typeSchema 12 "number"; typeSchema 13 "integer"]
                           (newTraversalInfo (VNum (3 # 2)) schema) eq_refl (le_n 4)))).
Defined.

Lemma validateAnyOfFrom_some (getRegex : string -> string -> (string -> bool) + string)
  (fuel : nat) (value schema : Value) (subSchemas : list Value) (i : nat)
  (info : TraversalInfo) :
  (forall s, In s subSchemas -> validateFuel s value <= fuel) ->
  exists info',
    validateAnyOfFrom (validate getRegex fuel) value schema subSchemas i info
    = if existsb (accepts getRegex fuel value) subSchemas then Normal info'
      else Throw (ValidationError MsgAnyOfNoneMatched value schema) info'.
Proof.
  revert i info. induction subSchemas as [| s rest IH]; intros i info Hfuel.
  - exists info. reflexivity.
  - cbn [validateAnyOfFrom existsb].
    destruct (validate_decides getRegex fuel value s
                (schemaPush (Some (PIndex i)) s info) (Hfuel s (or_introl eq_refl)))
      as [[-> [i1 ->]] | [-> (e & i1 & -> & _)]]; cbn [orb].
    + now exists i1.
    + apply IH. intros s' Hs'. apply Hfuel. now right.
Qed.

(** X2: when [schema.anyOf] is a list, [validateAnyOf] returns normally if
    the value validates against at least one listed sub-schema and otherwise
    throws "0 anyOf schemas matched" for the value and the schema; an empty
    list rejects every value. *)
Theorem anyOf_requires_some_subschema :
  forall (getRegex : string -> string -> (string -> bool) + string) (fuel : nat)
         (value schema : Value) (ref : nat) (subSchemas : list Value)
         (info : TraversalInfo),
    prop schema "anyOf" = VArr ref subSchemas ->
    validateFuel schema value <= S fuel ->
    exists info',
      validateAnyOf (validate getRegex fuel) value schema info
      = if existsb (accepts getRegex fuel value) subSchemas then Normal info'
        else Throw (ValidationError MsgAnyOfNoneMatched value schema) info'.
Proof.
  intros getRegex fuel value schema ref subSchemas info Hprop Hfuel.
  unfold validateAnyOf. rewrite Hprop.
  apply validateAnyOfFrom_some.
  exact (listed_validateFuel _ _ _ _ _ _ Hfuel Hprop).
Qed.

Lemma anyOf_requires_some_subschema_witness :
  let schema := VObj 10 [("anyOf", VArr 11 [typeSchema 12 "string"; typeSchema 13 "number"])] in
  (exists info',
      validateAnyOf (validate literalRegex 3) (VNum 2) schema
        (newTraversalInfo (VNum 2) schema) = Normal info')
  /\ (exists info',
         validateAnyOf (validate literalRegex 3) VNull schema
           (newTraversalInfo VNull schema)
         = Throw (ValidationError MsgAnyOfNoneMatched VNull schema) info').
Proof.
  intro schema. split.
  - exact (anyOf_requires_some_subschema literalRegex 3 (VNum 2) schema 11
             [typeSchema 12 "string"; typeSchema 13 "number"]
             (newTraversalInfo (VNum 2) schema) eq_refl (le_n 4)).
  - exact (anyOf_requires_some_subschema literalRegex 3 VNull schema 11
             [typeSchema 12 "string"; typeSchema 13 "number"]
             (newTraversalInfo VNull schema) eq_refl (le_n 4)).
Defined.

Lemma validateNoneOfFrom_none (getRegex : string -> string -> (string -> bool) + string)
  (fuel : nat) (value schema : Value) (subSchemas : list Value) (i : nat)
  (info : TraversalInfo) :
  (forall s, In s subSchemas -> validateFuel s value <= fuel) ->
  existsb (accepts getRegex fuel value) subSchemas = false ->
  exists info',
    validateNoneOfFrom (validate getRegex fuel) value schema subSchemas i info
    = Normal info'.
Proof.
  revert i info. induction subSchemas as [| s rest IH]; intros i info Hfuel Hnone.
  - now exists info.
  - cbn [existsb] in Hnone. apply orb_false_iff in Hnone. destruct Hnone as [Hs Hrest].
    cbn [validateNoneOfFrom].
    destruct (validate_decides getRegex fuel value s
                (schemaPush (Some (PIndex i)) s info) (Hfuel s (or_introl eq_refl)))
      as [[Ht _] | [_ (e & i1 & -> & _)]]; [congruence |].
    apply IH; [| exact Hrest]. intros s' Hs'. apply Hfuel. now right.
Qed.

Lemma validateNoneOfFrom_first (getRegex : string -> string -> (string -> bool) + string)
  (fuel : nat) (value schema : Value) (passed : list Value) (s : Value)
  (rest : list Value) (i : nat) (info : TraversalInfo) :
  (forall x, In x (passed ++ s :: rest) -> validateFuel x value <= fuel) ->
  existsb (accepts getRegex fuel value) passed = false ->
  accepts getRegex fuel value s = true ->
  exists info',
    validateNoneOfFrom (validate getRegex fuel) value schema (passed ++ s :: rest) i info
    = Throw (ValidationError (MsgNotMatched (i + List.length passed)) value schema) info'.
Proof.
  revert i info. induction passed as [| p passed IH]; intros i info Hfuel Hnone Hs.
  - cbn [app validateNoneOfFrom List.length].
    apply (accepts_verdict getRegex fuel value s (schemaPush (Some (PIndex i)) s info)) in Hs.
    destruct Hs as [i1 ->]. exists i1. now rewrite Nat.add_0_r.
  - cbn [existsb] in Hnone. apply orb_false_iff in Hnone. destruct Hnone as [Hp Hrest].
    cbn [app validateNoneOfFrom List.length].
    destruct (validate_decides getRegex fuel value p
                (schemaPush (Some (PIndex i)) p info) (Hfuel p (or_introl eq_refl)))
      as [[Ht _] | [_ (e & i1 & -> & _)]]; [congruence |].
    destruct (IH (S i) (schemaPop i1)) as [info' ->]; auto.
    + intros x Hx. apply Hfuel. now right.
    + exists info'. do 3 f_equal. lia.
Qed.

(** X3: when [schema.not] is a list, [validateNoneOf] returns normally if
    the value validates against none of the listed sub-schemas; otherwise it
    throws "not[i] schema matched", where [i] is the position of the first
    listed sub-schema the value validates against. *)
Theorem not_rejects_first_match :
  forall (getRegex : string -> string -> (string -> bool) + string) (fuel : nat)
         (value schema : Value) (ref : nat) (subSchemas : list Value)
         (info : TraversalInfo),
    prop schema "not" = VArr ref subSchemas ->
    validateFuel schema value <= S fuel ->
    let result := validateNoneOf (validate getRegex fuel) value schema info in
    (existsb (accepts getRegex fuel value) subSchemas = false ->
     exists info', result = Normal info')
    /\ (forall passed s rest,
           subSchemas = passed ++ s :: rest ->
           existsb (accepts getRegex fuel value) passed = false ->
           accepts getRegex fuel value s = true ->
           exists info',
             result = Throw (ValidationError (MsgNotMatched (List.length passed))
                               value schema) info').
Proof.
  intros getRegex fuel value schema ref subSchemas info Hprop Hfuel result.
  subst result. unfold validateNoneOf. rewrite Hprop.
  pose proof (listed_validateFuel _ _ _ _ _ _ Hfuel Hprop) as Hlisted.
  split.
  - intro Hnone.
    destruct (validateNoneOfFrom_none getRegex fuel value schema subSchemas 0
                (schemaPush (Some (PName "not")) (VArr ref subSchemas) info)
                Hlisted Hnone) as [i1 ->].
    cbn [andThen]. eauto.
  - intros passed s rest -> Hnone Hs.
    destruct (validateNoneOfFrom_first getRegex fuel value schema passed s rest 0
                (schemaPush (Some (PName "not")) (VArr ref (passed ++ s :: rest)) info)
                Hlisted Hnone Hs) as [i1 ->].
    cbn [andThen]. eauto.
Qed.

Lemma not_rejects_first_match_witness :
  let schema := VObj 10 [("not", VArr 11 [typeSchema 12 "string"; typeSchema 13 "number"])] in
  (exists info',
      validateNoneOf (validate literalRegex 3) VNull schema
        (newTraversalInfo VNull schema) = Normal info')
  /\ (exists info',
         validateNoneOf (validate literalRegex 3) (VNum 2) schema
           (newTraversalInfo (VNum 2) schema)
         = Throw (ValidationError (MsgNotMatched 1) (VNum 2) schema) info').
Proof.
  intro schema. split.
  - exact (proj1 (not_rejects_first_match literalRegex 3 VNull schema 11
                    [typeSchema 12 "string"; typeSchema 13 "number"]
                    (newTraversalInfo VNull schema) eq_refl (le_n 4))
             eq_refl).
  - exact (proj2 (not_rejects_first_match literalRegex 3 (VNum 2) schema 11
                    [typeSchema 12 "string"; typeSchema 13 "number"]
                    (newTraversalInfo (VNum 2) schema) eq_refl (le_n 4))
             [typeSchema 12 "string"] (typeSchema 13 "number") [] eq_refl eq_refl eq_refl).
Defined.

Lemma branch_validateFuel (schema value : Value) (name : string) (fuel : nat) :
  validateFuel schema value <= S fuel ->
  isObject (prop schema name) = true ->
  validateFuel (prop schema name) value <= fuel.
Proof.
  unfold validateFuel. intros Hfuel Hobj.
  pose proof (depth_prop schema name). pose proof (depth_isObject _ Hobj). lia.
Qed.

(** X4: [validateConditional] does nothing unless [schema.if] is an object.
    When it is, the value is validated against [then] if it validates
    against [if], and against [else] if it does not; a branch that is not an
    object is passed over, and a failure of [if] itself is never reported. *)
Theorem conditional_selects_branch :
  forall (getRegex : string -> string -> (string -> bool) + string) (fuel : nat)
         (value schema : Value) (info : TraversalInfo),
    validateFuel schema value <= S fuel ->
    let result := validateConditional (validate getRegex fuel) value schema info in
    let branch :=
      if accepts getRegex fuel value (prop schema "if")
      then prop schema "then" else prop schema "else" in
    (isObject (prop schema "if") = false -> result = Normal info)
    /\ (isObject (prop schema "if") = true ->
        verdict result
        = if isObject branch
          then verdict (JsonSchema_validate getRegex fuel value branch)
          else Accepted)
    /\ verdict result <> Undecided.
Proof.
  intros getRegex fuel value schema info Hfuel result branch.
  subst result branch. split; [| split].
  - intro Hif. unfold validateConditional. now rewrite Hif.
  - intro Hif. unfold validateConditional. rewrite Hif. cbn [negb].
    destruct (validate_decides getRegex fuel value (prop schema "if")
                (schemaPush (Some (PName "if")) (prop schema "if") info)
                (branch_validateFuel _ _ _ _ Hfuel Hif))
      as [[-> [i1 ->]] | [-> (e & i1 & -> & _)]].
    + destruct (isObject (prop schema "then")); [| reflexivity].
      pose proof (validate_verdict getRegex fuel value (prop schema "then")
                    (schemaPush (Some (PName "then")) (prop schema "then") (schemaPop i1))
                    (newTraversalInfo value (prop schema "then"))) as Hv.
      unfold JsonSchema_validate. rewrite <- Hv.
      now destruct (validate getRegex fuel value (prop schema "then") _).
    + destruct (isObject (prop schema "else")); [| reflexivity].
      pose proof (validate_verdict getRegex fuel value (prop schema "else")
                    (schemaPush (Some (PName "else")) (prop schema "else") (schemaPop i1))
                    (newTraversalInfo value (prop schema "else"))) as Hv.
      unfold JsonSchema_validate. rewrite <- Hv.
      now destruct (validate getRegex fuel value (prop schema "else") _).
  - pose proof (validateConditional_total (validate getRegex fuel) fuel
                  (fun v s i Hm => validate_total getRegex fuel v s i
                                     ltac:(unfold validateFuel; lia))
                  value schema info) as Ht.
    unfold validateFuel in Hfuel.
    destruct (validateConditional (validate getRegex fuel) value schema info);
      try discriminate.
    exfalso. apply Ht; [lia | reflexivity].
Qed.

Lemma conditional_selects_branch_witness :
  let schema := VObj 10 [("if", typeSchema 11 "number");
                         ("then", VObj 12 [("minimum", VNum 5)]);
                         ("else", typeSchema 13 "string")] in
  verdict (validateConditional (validate literalRegex 3) (VNum 7) schema
             (newTraversalInfo (VNum 7) schema)) = Accepted
  /\ verdict (validateConditional (validate literalRegex 3) VNull schema
                (newTraversalInfo VNull schema))
     = Rejected (ValidationError (MsgTypeMismatch "null" (VStr "string")) VNull
                   (typeSchema 13 "string")).
Proof.
  intro schema. split.
  - exact (proj1 (proj2 (conditional_selects_branch literalRegex 3 (VNum 7) schema
                           (newTraversalInfo (VNum 7) schema) (le_S 3 3 (le_n 3))))
             eq_refl).
  - exact (proj1 (proj2 (conditional_selects_branch literalRegex 3 VNull schema
                           (newTraversalInfo VNull schema) (le_S 3 3 (le_n 3))))
             eq_refl).
Defined.

(** ** What a value that validates has met *)

Lemma throwIf_andThen_Normal (cond : bool) (message : Message) (value schema : Value)
  (info info' : TraversalInfo) (k : TraversalInfo -> Completion) :
  throwIf cond message value schema info ;; k = Normal info'
  <-> cond = false /\ k info = Normal info'.
Proof.
  unfold throwIf. destruct cond; cbn [andThen]; split;
    try discriminate; try (intros [H _]; discriminate H); intuition.
Qed.

Lemma throwIf_Normal_iff (cond : bool) (message : Message) (value schema : Value)
  (info info' : TraversalInfo) :
  throwIf cond message value schema info = Normal info'
  <-> cond = false /\ info' = info.
Proof.
  unfold throwIf. destruct cond; split; try discriminate;
    try (intros [H _]; discriminate H).
  - intro H. injection H as <-. auto.
  - intros [_ ->]. reflexivity.
Qed.

Lemma numberField_false (schema : Value) (name : string) (test : Q -> bool) :
  numberField schema name test = false
  <-> forall m, prop schema name = VNum m -> test m = false.
Proof.
  unfold numberField. destruct (prop schema name); split; try reflexivity;
    try discriminate.
  - intros H m Hm. injection Hm as <-. exact H.
  - intro H. now apply H.
Qed.







(** The check as the engine computes it is not the check in exact
    arithmetic: the double [0.3] is no multiple of the double [0.1], and the
    double [0.1 * 3], which is not three times [0.1] exactly, is one. *)
Example notMultipleOf_in_doubles :
  notMultipleOf threeTenths tenth = true
  /\ notMultipleOf threeTimesTenth tenth = false
  /\ Qeq_bool threeTimesTenth (3 * tenth) = false
  /\ notMultipleOf 6 3 = false
  /\ notMultipleOf 7 3 = true.
Proof. vm_compute. repeat split. Qed.

Lemma Qlt_bool_false (a b : Q) : Qlt_bool a b = false <-> Qle b a.
Proof.
  unfold Qlt_bool. rewrite negb_false_iff. apply Qle_bool_iff.
Qed.




Lemma validateString_Normal_iff
  (getRegex : string -> string -> (string -> bool) + string)
  (s : string) (schema : Value) (i i' : TraversalInfo) :
  validateString getRegex s schema i = Normal i'
  <-> i' = i /\ stringWithin getRegex schema s.
Proof.
  unfold validateString, stringWithin, patternFlagsOf.
  repeat rewrite throwIf_andThen_Normal. repeat rewrite numberField_false.
  split.
  - intros (H1 & H2 & H3).
    assert (Hp : i' = i
                 /\ forall pattern, prop schema "pattern" = VStr pattern ->
                      exists test,
                        getRegex pattern
                          match prop schema "patternFlags" with
                          | VStr flags => flags
                          | _ => EmptyString
                          end = inl test
                        /\ test s = true).
    { destruct (prop schema "pattern") as [| | | | p | |];
        try (injection H3 as <-; split; [reflexivity | discriminate]).
      destruct (getRegex p _) as [test | detail] eqn:Hre; [| discriminate H3].
      apply throwIf_Normal_iff in H3. destruct H3 as [Ht ->].
      split; [reflexivity |]. intros pattern Hpat. injection Hpat as <-.
      exists test. split; [exact Hre |]. now apply negb_false_iff. }
    destruct Hp as [-> Hp]. split; [reflexivity |].
    split; [| split; [| exact Hp]]; intros m Hm; apply Qlt_bool_false; auto.
  - intros (-> & H1 & H2 & H3).
    split; [| split]; try (intros m Hm; apply Qlt_bool_false; auto).
    destruct (prop schema "pattern") as [| | | | p | |]; try reflexivity.
    destruct (H3 p eq_refl) as (test & -> & Ht).
    apply throwIf_Normal_iff. split; [now rewrite Ht | reflexivity].
Qed.

(** X6: [validateString] returns normally exactly when the length of the
    string is at least [minLength] and at most [maxLength], for each of
    these the schema gives as a number, and, when [pattern] is a string, the
    pattern compiles with [patternFlags] (the empty string when that is not
    a string) and matches.  A pattern that does not compile is reported as
    "Pattern is invalid" with the compiler's message; it is never taken as a
    match. *)
Theorem validateString_checks_length_and_pattern :
  forall (getRegex : string -> string -> (string -> bool) + string)
         (s : string) (schema : Value) (info : TraversalInfo),
    (validateString getRegex s schema info = Normal info
     <-> stringWithin getRegex schema s)
    /\ (forall info', validateString getRegex s schema info = Normal info' -> info' = info)
    /\ (forall pattern detail,
           prop schema "pattern" = VStr pattern ->
           getRegex pattern (patternFlagsOf schema) = inr detail ->
           (forall m, prop schema "minLength" = VNum m ->
                      Qle m (lengthQ (String.length s))) ->
           (forall m, prop schema "maxLength" = VNum m ->
                      Qle (lengthQ (String.length s)) m) ->
           validateString getRegex s schema info
           = Throw (ValidationError (MsgPatternInvalid detail) (VStr s) schema) info).
Proof.
  intros getRegex s schema info.
  pose proof (validateString_Normal_iff getRegex s schema) as Hiff.
  split; [| split].
  - rewrite Hiff. tauto.
  - intros info' H. now apply Hiff in H.
  - intros pattern detail Hpat Hregex Hmin Hmax.
    unfold validateString.
    assert (H1 : numberField schema "minLength"
                   (Qlt_bool (lengthQ (String.length s))) = false).
    { apply numberField_false. intros m Hm. apply Qlt_bool_false. auto. }
    assert (H2 : numberField schema "maxLength"
                   (fun m => Qlt_bool m (lengthQ (String.length s))) = false).
    { apply numberField_false. intros m Hm. apply Qlt_bool_false. auto. }
    rewrite H1, H2. cbn [throwIf andThen]. rewrite Hpat.
    unfold patternFlagsOf in Hregex. now rewrite Hregex.
Qed.

(** ** Arrays and objects *)

Lemma validateMember_accepted (getRegex : string -> string -> (string -> bool) + string)
  (fuel : nat) (value schema : Value) (k : PropertyKey) (noSchema : Message)
  (info : TraversalInfo) :
  (exists info',
      validateMember (validate getRegex fuel) value schema k noSchema info = Normal info')
  <-> memberAccepted getRegex fuel schema value k.
Proof.
  unfold validateMember, memberAccepted.
  destruct (getPropertySchema schema k value) as [ps path | |].
  - split.
    + intros [info' H]. apply andThen_Normal in H. destruct H as (i & H & _).
      exists ps, path. split; [reflexivity |].
      eapply accepts_verdict. eauto.
    + intros (ps' & path' & Heq & Hacc). injection Heq as <- <-.
      eapply accepts_verdict in Hacc. destruct Hacc as [i ->].
      cbn [andThen]. eauto.
  - split; [intros [i H]; discriminate H | intros (? & ? & H & _); discriminate H].
  - split; [intros [i H]; discriminate H | intros (? & ? & H & _); discriminate H].
Qed.

Lemma validateProperties_accepted
  (getRegex : string -> string -> (string -> bool) + string)
  (fuel : nat) (value schema : Value) (properties : list string) (info : TraversalInfo) :
  (exists info',
      validateProperties (validate getRegex fuel) value schema properties info
      = Normal info')
  <-> forall p, In p properties -> memberAccepted getRegex fuel schema value (PName p).
Proof.
  revert info. induction properties as [| q rest IH]; intro info.
  - split; [intros _ p [] | intros _; now exists info].
  - cbn [validateProperties]. split.
    + intros [info' H]. apply andThen_Normal in H. destruct H as (i & Hq & Hrest).
      intros p [<- | Hp].
      * eapply validateMember_accepted. eauto.
      * eapply IH; eauto.
    + intro H.
      destruct (proj2 (validateMember_accepted getRegex fuel value schema (PName q)
                         (MsgNoSchemaForProperty q) info) (H q (or_introl eq_refl)))
        as [i ->].
      cbn [andThen]. apply IH. intros p Hp. apply H. now right.
Qed.

Lemma validateArrayItems_accepted
  (getRegex : string -> string -> (string -> bool) + string)
  (fuel : nat) (value schema : Value) (count i : nat) (info : TraversalInfo) :
  (exists info',
      validateArrayItems (validate getRegex fuel) value schema i count info
      = Normal info')
  <-> forall j, i <= j < i + count -> memberAccepted getRegex fuel schema value (PIndex j).
Proof.
  revert i info. induction count as [| count IH]; intros i info.
  - split; [intros _ j Hj; lia | intros _; now exists info].
  - cbn [validateArrayItems]. split.
    + intros [info' H]. apply andThen_Normal in H. destruct H as (i0 & Hi & Hrest).
      intros j Hj. destruct (Nat.eq_dec j i) as [-> | Hne].
      * eapply validateMember_accepted. eauto.
      * eapply IH; [eauto | lia].
    + intro H.
      destruct (proj2 (validateMember_accepted getRegex fuel value schema (PIndex i)
                         (MsgNoSchemaForIndex i) info) (H i ltac:(lia)))
        as [i0 ->].
      cbn [andThen]. apply IH. intros j Hj. apply H. lia.
Qed.

Lemma SetHas_iff (properties : list string) (e : Value) :
  SetHas properties e = true <-> exists p, e = VStr p /\ In p properties.
Proof.
  split; [apply SetHas_In |].
  intros (p & -> & Hp). simpl. apply existsb_exists. exists p.
  split; [exact Hp | apply String.eqb_refl].
Qed.

Lemma validateRequired_iff (value schema : Value) (properties : list string)
  (required : list Value) (info info' : TraversalInfo) :
  validateRequired value schema properties required info = Normal info'
  <-> info' = info /\ forall e, In e required -> SetHas properties e = true.
Proof.
  revert info. induction required as [| e0 rest IH]; intro info.
  - cbn [validateRequired]. split.
    + intro H. injection H as <-. split; [reflexivity | intros e []].
    + intros [-> _]. reflexivity.
  - cbn [validateRequired]. rewrite throwIf_andThen_Normal, IH, negb_false_iff.
    split.
    + intros (H0 & -> & Hrest). split; [reflexivity |].
      intros e [<- | He]; auto.
    + intros (-> & H).
      split; [apply H; now left | split; [reflexivity |]].
      intros e He. apply H. now right.
Qed.

Lemma validateObject_accepted :
  forall (getRegex : string -> string -> (string -> bool) + string) (fuel : nat)
         (ref : nat) (props : list (string * Value)) (schema : Value)
         (info : TraversalInfo),
    (exists info',
        validateObject (validate getRegex fuel) (VObj ref props) schema info
        = Normal info')
    <-> (forall r required,
            prop schema "required" = VArr r required ->
            forall e, In e required -> exists p, e = VStr p /\ In p (map fst props))
        /\ (forall p, In p (map fst props) ->
                      memberAccepted getRegex fuel schema (VObj ref props) (PName p)).
Proof.
  intros getRegex fuel ref props schema info.
  unfold validateObject.
  destruct (property_count_never_compared schema (map fst props)) as [Hmin Hmax].
  split.
  - intros [info' H].
    apply andThen_Normal in H. destruct H as (i1 & Hreq & H).
    apply throwIf_andThen_Normal in H. destruct H as [_ H].
    apply throwIf_andThen_Normal in H. destruct H as [_ Hprops].
    split.
    + intros r required Hr e He. rewrite Hr in Hreq.
      apply validateRequired_iff in Hreq. destruct Hreq as [_ Hreq].
      apply SetHas_iff. auto.
    + apply (validateProperties_accepted getRegex fuel (VObj ref props) schema
               (map fst props) i1). eauto.
  - intros [Hreq Hprops].
    assert (Hfirst : match prop schema "required" with
                     | VArr _ required =>
                         validateRequired (VObj ref props) schema (map fst props)
                           required info
                     | _ => Normal info
                     end = Normal info).
    { destruct (prop schema "required") as [| | | | | r required |] eqn:Hr;
        try reflexivity.
      apply validateRequired_iff. split; [reflexivity |].
      intros e He. apply SetHas_iff. eauto. }
    rewrite Hfirst. cbn [andThen]. rewrite Hmin, Hmax. cbn [throwIf andThen].
    now apply validateProperties_accepted.
Qed.

Lemma validateArray_accepted :
  forall (getRegex : string -> string -> (string -> bool) + string) (fuel : nat)
         (ref : nat) (items : list Value) (schema : Value) (info : TraversalInfo),
    (exists info',
        validateArray (validate getRegex fuel) (VArr ref items) schema info
        = Normal info')
    <-> (forall m, prop schema "minItems" = VNum m ->
                   Qle m (lengthQ (List.length items)))
        /\ (forall m, prop schema "maxItems" = VNum m ->
                      Qle (lengthQ (List.length items)) m)
        /\ (forall j, j < List.length items ->
                      memberAccepted getRegex fuel schema (VArr ref items) (PIndex j)).
Proof.
  intros getRegex fuel ref items schema info.
  unfold validateArray. split.
  - intros [info' H].
    apply throwIf_andThen_Normal in H. destruct H as [Hmin H].
    apply throwIf_andThen_Normal in H. destruct H as [Hmax H].
    rewrite numberField_false in Hmin, Hmax.
    split; [| split].
    + intros m Hm. apply Qlt_bool_false. auto.
    + intros m Hm. apply Qlt_bool_false. auto.
    + intros j Hj.
      apply (validateArrayItems_accepted getRegex fuel (VArr ref items) schema
               (List.length items) 0 info); [eauto | lia].
  - intros (Hmin & Hmax & Hitems).
    assert (H1 : numberField schema "minItems"
                   (Qlt_bool (lengthQ (List.length items))) = false).
    { apply numberField_false. intros m Hm. apply Qlt_bool_false. auto. }
    assert (H2 : numberField schema "maxItems"
                   (fun m => Qlt_bool m (lengthQ (List.length items))) = false).
    { apply numberField_false. intros m Hm. apply Qlt_bool_false. auto. }
    rewrite H1, H2. cbn [throwIf andThen].
    apply validateArrayItems_accepted. intros j Hj. apply Hitems. lia.
Qed.

(** X7: [validateObject] accepts an object exactly when every entry of a
    [required] list is a string naming one of its own properties and every
    one of its own properties has a governing schema and validates against
    it.  Nothing else is asked of the object. *)
Theorem validateObject_checks_required_and_members :
  forall (getRegex : string -> string -> (string -> bool) + string) (fuel : nat)
         (ref : nat) (props : list (string * Value)) (schema : Value)
         (info : TraversalInfo),
    (exists info',
        validateObject (validate getRegex fuel) (VObj ref props) schema info
        = Normal info')
    <-> (forall r required,
            prop schema "required" = VArr r required ->
            forall e, In e required -> exists p, e = VStr p /\ In p (map fst props))
        /\ (forall p, In p (map fst props) ->
                      memberAccepted getRegex fuel schema (VObj ref props) (PName p)).
Proof. exact validateObject_accepted. Qed.

(** X8: [validateArray] accepts an array exactly when its length is at
    least [minItems] and at most [maxItems], for each of these the schema
    gives as a number, and every element has a governing schema and
    validates against it. *)
Theorem validateArray_checks_length_and_members :
  forall (getRegex : string -> string -> (string -> bool) + string) (fuel : nat)
         (ref : nat) (items : list Value) (schema : Value) (info : TraversalInfo),
    (exists info',
        validateArray (validate getRegex fuel) (VArr ref items) schema info
        = Normal info')
    <-> (forall m, prop schema "minItems" = VNum m ->
                   Qle m (lengthQ (List.length items)))
        /\ (forall m, prop schema "maxItems" = VNum m ->
                      Qle (lengthQ (List.length items)) m)
        /\ (forall j, j < List.length items ->
                      memberAccepted getRegex fuel schema (VArr ref items) (PIndex j)).
Proof. exact validateArray_accepted. Qed.

Lemma validateObject_checks_members
  (getRegex : string -> string -> (string -> bool) + string) (fuel : nat)
  (ref : nat) (props : list (string * Value)) (schema : Value) (info : TraversalInfo) :
  (exists info',
      validateObject (validate getRegex fuel) (VObj ref props) schema info = Normal info') ->
  forall p, In p (map fst props) ->
            memberAccepted getRegex fuel schema (VObj ref props) (PName p).
Proof.
  unfold validateObject. intros [info' H].
  apply andThen_Normal in H. destruct H as (i1 & _ & H).
  apply throwIf_andThen_Normal in H. destruct H as [_ H].
  apply throwIf_andThen_Normal in H. destruct H as [_ H].
  apply (validateProperties_accepted getRegex fuel (VObj ref props) schema
           (map fst props) i1). eauto.
Qed.

Lemma validateArray_checks_members
  (getRegex : string -> string -> (string -> bool) + string) (fuel : nat)
  (ref : nat) (items : list Value) (schema : Value) (info : TraversalInfo) :
  (exists info',
      validateArray (validate getRegex fuel) (VArr ref items) schema info = Normal info') ->
  forall j, j < List.length items ->
            memberAccepted getRegex fuel schema (VArr ref items) (PIndex j).
Proof.
  unfold validateArray. intros [info' H] j Hj.
  apply throwIf_andThen_Normal in H. destruct H as [_ H].
  apply throwIf_andThen_Normal in H. destruct H as [_ H].
  apply (validateArrayItems_accepted getRegex fuel (VArr ref items) schema
           (List.length items) 0 info); [eauto | lia].
Qed.


Lemma validateSingleSchema_Normal
  (getRegex : string -> string -> (string -> bool) + string)
  (rec : Value -> Value -> TraversalInfo -> Completion)
  (value schema : Value) (info i1 : TraversalInfo) :
  validateSingleSchema getRegex rec value schema info = Normal i1 ->
  isNullish schema = false
  /\ isValueTypeAny value (getValueType value) (prop schema "type") = true
  /\ (valuesAreEqual (prop schema "const") VUndefined = false ->
      valuesAreEqual value (prop schema "const") = true)
  /\ (forall r candidates, prop schema "enum" = VArr r candidates ->
                           valuesAreEqualAny value candidates = true)
  /\ match value with
     | VNum n => validateNumber n schema info = Normal i1
     | VStr s => validateString getRegex s schema info = Normal i1
     | VArr _ _ => validateArray rec value schema info = Normal i1
     | VObj _ _ => validateObject rec value schema info = Normal i1
     | _ => i1 = info
     end.
Proof.
  unfold validateSingleSchema.
  destruct (isNullish schema); [discriminate |]. intro H.
  apply throwIf_andThen_Normal in H. destruct H as [Htype H].
  apply throwIf_andThen_Normal in H. destruct H as [Hconst H].
  apply throwIf_andThen_Normal in H. destruct H as [Henum H].
  split; [reflexivity |]. split; [now apply negb_false_iff |].
  split; [| split].
  - intro Hu. rewrite Hu in Hconst. now apply negb_false_iff.
  - intros r candidates Hr. rewrite Hr in Henum. now apply negb_false_iff.
  - destruct value; try exact H; now injection H as <-.
Qed.

Lemma validate_Normal_single (getRegex : string -> string -> (string -> bool) + string)
  (fuel : nat) (value schema : Value) (info info' : TraversalInfo) :
  validate getRegex (S fuel) value schema info = Normal info' ->
  exists i1,
    validateSingleSchema getRegex (validate getRegex fuel) value schema info = Normal i1.
Proof.
  cbn [validate]. unfold validateStep. intro H.
  do 5 (apply andThen_Normal in H; destruct H as (? & H & _)). eauto.
Qed.

(** A container that fits [schema.type] and has a member with a governing
    schema is resolved under its own runtime type. *)
Lemma container_resolution (schema value : Value) (k : PropertyKey)
  (ps : Value) (path : list PathEntry) :
  isArray value || isObject value = true ->
  isValueTypeAny value (getValueType value) (prop schema "type") = true ->
  getPropertySchema schema k value = Resolved ps path ->
  getSchemaOrValueType schema value = VStr (getValueType value).
Proof.
  intros Hkind Hfits. unfold getPropertySchema, getSchemaOrValueType.
  assert (Hfloor : floorIsSelf value = false) by (now destruct value).
  destruct (prop schema "type") as [| | b | q | s | r types | r tprops] eqn:Ht;
    try discriminate.
  - now destruct value.
  - cbn [isValueTypeAny] in Hfits. unfold isValueType in Hfits.
    rewrite Hfloor, andb_false_r, orb_false_r in Hfits.
    apply eqb_VStr in Hfits. now rewrite Hfits.
  - cbn [isValueTypeAny] in Hfits. apply existsb_exists in Hfits.
    destruct Hfits as (t & Hin & Hfit). unfold isValueType in Hfit.
    rewrite Hfloor, andb_false_r, orb_false_r in Hfit. apply eqb_VStr in Hfit.
    assert (Hex : existsb (fun t => valuesAreEqual t (VStr (getValueType value))) types
                  = true).
    { apply existsb_exists. exists t. split; [exact Hin |]. subst t.
      simpl. apply String.eqb_refl. }
    rewrite Hex. now destruct value.
Qed.

Lemma propertyThrough_own (o : Value) (name : string) :
  name <> "__proto__" -> propertyThrough o (PName name) = prop o name.
Proof.
  intro Hname. unfold propertyThrough, prop. destruct o; try reflexivity.
  cbn [keyString]. destruct (lookup name props); [reflexivity |].
  apply String.eqb_neq in Hname. now rewrite Hname.
Qed.

(** X9: with [additionalProperties: false], every own property of an object
    that [validate] accepts is found under [schema.properties] by the
    engine's lookup as an object, and validates against what is found.  An
    own property named otherwise than ["__proto__"] is therefore declared in
    [schema.properties] by an object schema; under ["__proto__"] the lookup
    may find [Object.prototype], which asks nothing, so that one name
    escapes the closure. *)
Theorem additionalProperties_false_closes_object :
  forall (getRegex : string -> string -> (string -> bool) + string) (fuel : nat)
         (ref : nat) (props : list (string * Value)) (schema : Value)
         (info info' : TraversalInfo),
    validate getRegex (S fuel) (VObj ref props) schema info = Normal info' ->
    prop schema "additionalProperties" = VBool false ->
    forall p, In p (map fst props) ->
      let found := propertyThrough (prop schema "properties") (PName p) in
      isObject (prop schema "properties") = true
      /\ isObject found = true
      /\ accepts getRegex fuel (prop (VObj ref props) p) found = true
      /\ (p <> "__proto__" ->
          found = prop (prop schema "properties") p).
Proof.
  intros getRegex fuel ref props schema info info' H Hclosed p Hp found.
  subst found.
  apply validate_Normal_single in H. destruct H as [i1 H].
  apply validateSingleSchema_Normal in H. destruct H as (_ & Hfits & _ & _ & H).
  assert (Hmembers : exists i, validateObject (validate getRegex fuel) (VObj ref props)
                                 schema info = Normal i) by eauto.
  destruct (validateObject_checks_members _ _ _ _ _ _ Hmembers p Hp)
    as (ps & path & Hps & Hacc).
  pose proof (container_resolution schema (VObj ref props) (PName p) ps path
                eq_refl Hfits Hps) as Htype.
  unfold getPropertySchema in Hps. rewrite Htype in Hps.
  cbn [getValueType valuesAreEqual String.eqb Ascii.eqb Bool.eqb] in Hps.
  destruct (isObject (prop schema "properties")
            && isObject (propertyThrough (prop schema "properties") (PName p)))
    eqn:Hobj.
  - injection Hps as <- _. apply andb_true_iff in Hobj. destruct Hobj as [Hprops Hobj].
    repeat split; try assumption. now apply propertyThrough_own.
  - unfold resolveAdditional in Hps. rewrite Hclosed in Hps. discriminate Hps.
Qed.

Lemma additionalProperties_false_closes_object_witness :
  let schema := VObj 10 [("properties", VObj 11 [("a", typeSchema 12 "number")]);
                         ("additionalProperties", VBool false)] in
  let value := VObj 1 [("a", VNum 1); ("__proto__", VStr "x")] in
  (propertyThrough (prop schema "properties") (PName "a") = typeSchema 12 "number"
   /\ accepts literalRegex 3 (VNum 1) (typeSchema 12 "number") = true)
  /\ (propertyThrough (prop schema "properties") (PName "__proto__") = objectPrototype
      /\ accepts literalRegex 3 (VStr "x") objectPrototype = true).
Proof.
  intros schema value. split.
  - split; [reflexivity |].
    exact (proj1 (proj2 (proj2
             (additionalProperties_false_closes_object literalRegex 3 1
                [("a", VNum 1); ("__proto__", VStr "x")] schema
                (newTraversalInfo value schema) (newTraversalInfo value schema)
                eq_refl eq_refl "a" (or_introl eq_refl))))).
  - split; [reflexivity |].
    exact (proj1 (proj2 (proj2
             (additionalProperties_false_closes_object literalRegex 3 1
                [("a", VNum 1); ("__proto__", VStr "x")] schema
                (newTraversalInfo value schema) (newTraversalInfo value schema)
                eq_refl eq_refl "__proto__" (or_intror (or_introl eq_refl)))))).
Defined.

(** X10: when [schema.items] is a list and [additionalItems] is [false], an
    array that [validate] accepts is no longer than the list, and each of
    its elements validates against the object schema listed at its own
    position. *)
Theorem additionalItems_false_closes_tuple :
  forall (getRegex : string -> string -> (string -> bool) + string) (fuel : nat)
         (ref : nat) (items : list Value) (schema : Value) (r : nat)
         (itemSchemas : list Value) (info info' : TraversalInfo),
    validate getRegex (S fuel) (VArr ref items) schema info = Normal info' ->
    prop schema "items" = VArr r itemSchemas ->
    prop schema "additionalItems" = VBool false ->
    List.length items <= List.length itemSchemas
    /\ forall j, j < List.length items ->
         isObject (nth j itemSchemas VUndefined) = true
         /\ accepts getRegex fuel (nth j items VUndefined)
              (nth j itemSchemas VUndefined) = true.
Proof.
  intros getRegex fuel ref items schema r itemSchemas info info' H Hitems Hclosed.
  apply validate_Normal_single in H. destruct H as [i1 H].
  apply validateSingleSchema_Normal in H. destruct H as (_ & Hfits & _ & _ & H).
  assert (Hmembers : exists i, validateArray (validate getRegex fuel) (VArr ref items)
                                 schema info = Normal i) by eauto.
  assert (Hall : forall j, j < List.length items ->
            isObject (nth j itemSchemas VUndefined) = true
            /\ accepts getRegex fuel (nth j items VUndefined)
                 (nth j itemSchemas VUndefined) = true).
  { intros j Hj.
    destruct (validateArray_checks_members _ _ _ _ _ _ Hmembers j Hj)
      as (ps & path & Hps & Hacc).
    pose proof (container_resolution schema (VArr ref items) (PIndex j) ps path
                  eq_refl Hfits Hps) as Htype.
    unfold getPropertySchema in Hps. rewrite Htype, Hitems in Hps.
    cbn [getValueType valuesAreEqual String.eqb Ascii.eqb Bool.eqb itemAt] in Hps.
    destruct (isObject (nth j itemSchemas VUndefined)) eqn:Hobj.
    - injection Hps as <- _. split; [reflexivity | exact Hacc].
    - unfold resolveAdditional in Hps. rewrite Hclosed in Hps. discriminate Hps. }
  split; [| exact Hall].
  destruct (Nat.le_gt_cases (List.length items) (List.length itemSchemas)) as [Hle | Hgt];
    [exact Hle |].
  destruct (Hall (List.length itemSchemas) Hgt) as [Hobj _].
  rewrite nth_overflow in Hobj by lia. discriminate Hobj.
Qed.

Lemma additionalItems_false_closes_tuple_witness :
  let schema := VObj 10 [("items", VArr 11 [typeSchema 12 "number"; typeSchema 13 "string"]);
                         ("additionalItems", VBool false)] in
  let items := [VNum 1; VStr "a"] in
  List.length items <= 2
  /\ forall j, j < List.length items ->
       isObject (nth j [typeSchema 12 "number"; typeSchema 13 "string"] VUndefined) = true
       /\ accepts literalRegex 3 (nth j items VUndefined)
            (nth j [typeSchema 12 "number"; typeSchema 13 "string"] VUndefined) = true.
Proof.
  intros schema items.
  exact (additionalItems_false_closes_tuple literalRegex 3 1 items schema 11
           [typeSchema 12 "number"; typeSchema 13 "string"]
           (newTraversalInfo (VArr 1 items) schema) (newTraversalInfo (VArr 1 items) schema)
           eq_refl eq_refl eq_refl).
Defined.

(** X11: when [schema.enum] is a list, a value that [validate] accepts is
    strictly equal ([===]) to one of the listed candidates; a value that is
    strictly equal to none of them is rejected with "Invalid enum value"
    once it has passed the checks of [type] and [const].  An empty list
    admits no value. *)
Theorem enum_is_strict_membership :
  forall (getRegex : string -> string -> (string -> bool) + string)
         (value schema : Value) (r : nat) (candidates : list Value),
    prop schema "enum" = VArr r candidates ->
    (forall fuel info info',
        validate getRegex fuel value schema info = Normal info' ->
        exists c, In c candidates /\ valuesAreEqual value c = true)
    /\ (forall rec info,
           isNullish schema = false ->
           isValueTypeAny value (getValueType value) (prop schema "type") = true ->
           prop schema "const" = VUndefined
           \/ valuesAreEqual value (prop schema "const") = true ->
           (forall c, In c candidates -> valuesAreEqual value c = false) ->
           validateSingleSchema getRegex rec value schema info
           = Throw (ValidationError MsgInvalidEnum value schema) info).
Proof.
  intros getRegex value schema r candidates Henum. split.
  - intros fuel info info' H. destruct fuel as [| fuel]; [discriminate H |].
    apply validate_Normal_single in H. destruct H as [i1 H].
    apply validateSingleSchema_Normal in H. destruct H as (_ & _ & _ & H & _).
    specialize (H r candidates Henum). unfold valuesAreEqualAny in H.
    apply existsb_exists in H. exact H.
  - intros rec info Hs Hfits Hconst Hnone. unfold validateSingleSchema.
    rewrite Hs, Hfits, Henum. cbn [negb throwIf andThen].
    assert (Hc : negb (valuesAreEqual (prop schema "const") VUndefined)
                 && negb (valuesAreEqual value (prop schema "const")) = false).
    { destruct Hconst as [-> | ->]; [reflexivity | apply andb_false_r]. }
    rewrite Hc. cbn [throwIf andThen].
    assert (Hany : valuesAreEqualAny value candidates = false).
    { unfold valuesAreEqualAny. apply not_true_is_false. intro Hex.
      apply existsb_exists in Hex. destruct Hex as (c & Hin & Heq).
      rewrite (Hnone c Hin) in Heq. discriminate Heq. }
    rewrite Hany. reflexivity.
Qed.

Lemma enum_is_strict_membership_witness :
  let schema := VObj 10 [("enum", VArr 11 [VStr "a"; VObj 12 []])] in
  (exists c, In c [VStr "a"; VObj 12 []] /\ valuesAreEqual (VStr "a") c = true)
  /\ validateSingleSchema literalRegex (validate literalRegex 3) (VObj 1 []) schema
       (newTraversalInfo (VObj 1 []) schema)
     = Throw (ValidationError MsgInvalidEnum (VObj 1 []) schema)
         (newTraversalInfo (VObj 1 []) schema).
Proof.
  intro schema. split.
  - exact (proj1 (enum_is_strict_membership literalRegex (VStr "a") schema 11
                    [VStr "a"; VObj 12 []] eq_refl)
             3 (newTraversalInfo (VStr "a") schema) (newTraversalInfo (VStr "a") schema)
             eq_refl).
  - apply (proj2 (enum_is_strict_membership literalRegex (VObj 1 []) schema 11
                    [VStr "a"; VObj 12 []] eq_refl)
             (validate literalRegex 3) (newTraversalInfo (VObj 1 []) schema)
             eq_refl eq_refl (or_introl eq_refl)).
    intros c [<- | [<- | []]]; reflexivity.
Defined.

(** ** The schema that governs a member *)

Lemma resolveAdditional_path (name : string) (schema ps : Value) (path : list PathEntry) :
  resolveAdditional name schema = Resolved ps path ->
  isObject ps = true /\ exists seg, path = [(seg, ps)].
Proof.
  intro H. apply resolveAdditional_cases in H.
  destruct H as [[-> ->] | (-> & Hobj & ->)]; split; eauto.
Qed.

Lemma lookup_In_snd (name : string) (props : list (string * Value)) (v : Value) :
  lookup name props = Some v -> In v (map snd props).
Proof.
  induction props as [| [k x] l IH]; simpl; [discriminate |].
  destruct (String.eqb k name); [intro H; injection H as ->; now left | auto].
Qed.

Lemma propertyThrough_cases (o : Value) (k : PropertyKey) :
  isObject (propertyThrough o k) = true ->
  (exists ref props, o = VObj ref props /\ In (propertyThrough o k) (map snd props))
  \/ (propertyThrough o k = objectPrototype /\ keyString k = Some "__proto__").
Proof.
  unfold propertyThrough. destruct o as [| | | | | r l | r props]; try discriminate.
  destruct (keyString k) as [name |] eqn:Hk; [| discriminate].
  destruct (lookup name props) as [v |] eqn:Hv.
  - intros _. left. exists r, props. split; [reflexivity |].
    exact (lookup_In_snd name props v Hv).
  - destruct (String.eqb name "__proto__") eqn:Hname; [| discriminate].
    apply String.eqb_eq in Hname. subst name.
    destruct (Nat.eqb r 3); [discriminate |]. intros _. now right.
Qed.

Lemma itemAt_In (items : list Value) (k : PropertyKey) :
  isObject (itemAt items k) = true -> In (itemAt items k) items.
Proof.
  assert (Hnth : forall n, isObject (nth n items VUndefined) = true ->
                           In (nth n items VUndefined) items).
  { intros n Hobj. destruct (nth_in_or_default n items VUndefined) as [Hin | Hd];
      [exact Hin | rewrite Hd in Hobj; discriminate Hobj]. }
  unfold itemAt. destruct k as [s | n | id]; [| apply Hnth | discriminate].
  destruct (canonicalIndex s); [apply Hnth | discriminate].
Qed.

Lemma getPropertySchema_resolves_schema (schema value : Value) (k : PropertyKey)
  (ps : Value) (path : list PathEntry) :
  getPropertySchema schema k value = Resolved ps path ->
  isObject ps = true
  /\ (ps = unconstrainedSchema
      \/ In ps (memberSchemas schema)
      \/ (ps = objectPrototype /\ keyString k = Some "__proto__")).
Proof.
  intro H. split.
  - destruct (getPropertySchema_cases _ _ _ _ _ H) as [-> | [Hobj _]];
      [reflexivity | exact Hobj].
  - unfold getPropertySchema in H.
    assert (Hadd : forall name,
               In (prop schema name) (memberSchemas schema) ->
               resolveAdditional name schema = Resolved ps path ->
               ps = unconstrainedSchema
               \/ In ps (memberSchemas schema)
               \/ (ps = objectPrototype /\ keyString k = Some "__proto__")).
    { intros name Hin Hr. apply resolveAdditional_cases in Hr.
      destruct Hr as [[-> _] | (-> & _ & _)]; auto. }
    assert (HaddP : In (prop schema "additionalProperties") (memberSchemas schema)).
    { unfold memberSchemas. apply in_or_app. right. now left. }
    assert (HaddI : In (prop schema "additionalItems") (memberSchemas schema)).
    { unfold memberSchemas. apply in_or_app. right. right. right. now left. }
    destruct (valuesAreEqual (getSchemaOrValueType schema value) (VStr "object")).
    + destruct (isObject (prop schema "properties")
                && isObject (propertyThrough (prop schema "properties") k)) eqn:Hobj;
        [| exact (Hadd _ HaddP H)].
      injection H as <- _. apply andb_true_iff in Hobj. destruct Hobj as [_ Hobj].
      destruct (propertyThrough_cases _ _ Hobj) as [(r & props & Hprops & Hin) | Hproto].
      * right. left. unfold memberSchemas. apply in_or_app. left.
        rewrite Hprops in *. exact Hin.
      * right. right. exact Hproto.
    + destruct (valuesAreEqual (getSchemaOrValueType schema value) (VStr "array"));
        [| discriminate H].
      assert (Hlist : forall r itemList, prop schema "items" = VArr r itemList ->
                 forall k', isObject (itemAt itemList k') = true ->
                            In (itemAt itemList k') (memberSchemas schema)).
      { intros r itemList Hitems k' Hobj. unfold memberSchemas.
        apply in_or_app. right. apply in_or_app. right. rewrite Hitems.
        now apply itemAt_In. }
      destruct (prop schema "items") as [| | | | | r itemList | r iprops] eqn:Hitems;
        try (exact (Hadd _ HaddI H)).
      * destruct k as [s | n | id]; [| | discriminate H].
        -- destruct (isObject (itemAt itemList (PName s))) eqn:Hobj;
             [| exact (Hadd _ HaddI H)].
           injection H as <- _. right. left. exact (Hlist r itemList eq_refl _ Hobj).
        -- destruct (isObject (itemAt itemList (PIndex n))) eqn:Hobj;
             [| exact (Hadd _ HaddI H)].
           injection H as <- _. right. left. exact (Hlist r itemList eq_refl _ Hobj).
      * injection H as <- _. right. left. unfold memberSchemas.
        apply in_or_app. right. rewrite Hitems. right. now left.
Qed.

(** X12: a schema that [getPropertySchema] resolves is an object, and it is
    one of three: the unconstrained schema; a value the schema holds as a
    declared property, as [additionalProperties], as [items] or one of its
    entries, or as [additionalItems]; or [Object.prototype], which the lookup
    [properties[property]] reaches under the key ["__proto__"].  The path it
    reports ends with that schema, except under an object-valued [items],
    where it reports nothing.  The resolution looks at the container only
    for its runtime type: it is the same for every value of that type,
    whether or not the member exists. *)
Theorem getPropertySchema_resolves_inside_schema :
  forall (schema value : Value) (k : PropertyKey) (ps : Value) (path : list PathEntry),
    getPropertySchema schema k value = Resolved ps path ->
    isObject ps = true
    /\ (ps = unconstrainedSchema
        \/ In ps (memberSchemas schema)
        \/ (ps = objectPrototype /\ keyString k = Some "__proto__"))
    /\ (path = [] /\ ps = prop schema "items"
        \/ exists front seg, path = front ++ [(seg, ps)])
    /\ (forall value', getValueType value' = getValueType value ->
                       getPropertySchema schema k value' = Resolved ps path).
Proof.
  intros schema value k ps path H.
  destruct (getPropertySchema_resolves_schema _ _ _ _ _ H) as [Hobject Hwhere].
  split; [exact Hobject |]. split; [exact Hwhere |]. split.
  - unfold getPropertySchema in H.
    assert (Hadd : forall name, resolveAdditional name schema = Resolved ps path ->
                     path = [] /\ ps = prop schema "items"
                     \/ exists front seg, path = front ++ [(seg, ps)]).
    { intros name Hr. apply resolveAdditional_path in Hr.
      destruct Hr as [_ [seg ->]]. right. now exists [], seg. }
    destruct (valuesAreEqual (getSchemaOrValueType schema value) (VStr "object")).
    + destruct (isObject (prop schema "properties")
                && isObject (propertyThrough (prop schema "properties") k));
        [| eapply Hadd; eauto].
      injection H as <- <-. right.
      now exists [(Some (PName "properties"), prop schema "properties")], (Some k).
    + destruct (valuesAreEqual (getSchemaOrValueType schema value) (VStr "array"));
        [| discriminate H].
      destruct (prop schema "items") as [| | | | | r itemList | r iprops] eqn:Hitems;
        try (eapply Hadd; eauto; fail).
      * destruct k as [s | n | id]; [| | discriminate H].
        -- destruct (isObject (itemAt itemList (PName s))); [| eapply Hadd; eauto].
           injection H as <- <-. right.
           now exists [(Some (PName "items"), VArr r itemList)], (Some (PName s)).
        -- destruct (isObject (itemAt itemList (PIndex n))); [| eapply Hadd; eauto].
           injection H as <- <-. right.
           now exists [(Some (PName "items"), VArr r itemList)], (Some (PIndex n)).
      * injection H as <- <-. now left.
  - intros value' Hkind. rewrite <- H. now apply getPropertySchema_kind.
Qed.

Lemma getPropertySchema_resolves_inside_schema_witness :
  let schema := VObj 10 [("properties", VObj 11 [("a", typeSchema 12 "number")])] in
  (isObject objectPrototype = true
   /\ (objectPrototype = unconstrainedSchema
       \/ In objectPrototype (memberSchemas schema)
       \/ (objectPrototype = objectPrototype
           /\ keyString (PName "__proto__") = Some "__proto__")))
  /\ (isObject (typeSchema 12 "number") = true
      /\ (typeSchema 12 "number" = unconstrainedSchema
          \/ In (typeSchema 12 "number") (memberSchemas schema)
          \/ (typeSchema 12 "number" = objectPrototype
              /\ keyString (PName "a") = Some "__proto__"))).
Proof.
  intro schema. split.
  - pose proof (getPropertySchema_resolves_inside_schema schema (VObj 1 [])
                  (PName "__proto__") objectPrototype
                  [(Some (PName "properties"), prop schema "properties");
                   (Some (PName "__proto__"), objectPrototype)] eq_refl) as H.
    exact (conj (proj1 H) (proj1 (proj2 H))).
  - pose proof (getPropertySchema_resolves_inside_schema schema (VObj 1 [])
                  (PName "a") (typeSchema 12 "number")
                  [(Some (PName "properties"), prop schema "properties");
                   (Some (PName "a"), typeSchema 12 "number")] eq_refl) as H.
    exact (conj (proj1 H) (proj1 (proj2 H))).
Defined.

(** ** The traversal state and the fuel *)

(** X13: whether [validate] accepts a value, and the error it throws when
    it does not, do not depend on the traversal state it is given: the state
    is only written to.  In particular [validate] accepts under any state
    exactly what [JsonSchema.validate] accepts. *)
Theorem verdict_ignores_traversal_state :
  forall (getRegex : string -> string -> (string -> bool) + string) (fuel : nat)
         (value schema : Value) (info1 info2 : TraversalInfo),
    verdict (validate getRegex fuel value schema info1)
    = verdict (validate getRegex fuel value schema info2)
    /\ (accepts getRegex fuel value schema = true
        <-> exists info', validate getRegex fuel value schema info1 = Normal info').
Proof.
  intros getRegex fuel value schema info1 info2.
  split; [apply validate_verdict | apply accepts_verdict].
Qed.

(** X14: [validate] comes to an end on every value and every schema that
    are finite trees, as all values are here (an object that contains itself
    is not one): it recurses only into a part of the schema or into a member
    of the value, so a recursion depth of one more than the depth of the
    schema plus the depth of the value is enough for it to return or
    throw. *)
Theorem validate_finishes :
  forall (getRegex : string -> string -> (string -> bool) + string) (fuel : nat)
         (value schema : Value) (info : TraversalInfo),
    validateFuel schema value <= fuel ->
    (exists info', validate getRegex fuel value schema info = Normal info')
    \/ (exists e info', validate getRegex fuel value schema info = Throw e info').
Proof.
  intros getRegex fuel value schema info Hfuel.
  pose proof (validate_total getRegex fuel value schema info Hfuel) as H.
  destruct (validate getRegex fuel value schema info) as [i | e i |]; eauto.
  now contradiction H.
Qed.

Lemma validate_finishes_witness :
  let schema := VObj 10 [("items", typeSchema 11 "number")] in
  let value := VArr 1 [VNum 1; VStr "a"] in
  (exists info', validate literalRegex 4 value schema (newTraversalInfo value schema)
                 = Normal info')
  \/ (exists e info', validate literalRegex 4 value schema (newTraversalInfo value schema)
                      = Throw e info').
Proof.
  intros schema value.
  exact (validate_finishes literalRegex 4 value schema (newTraversalInfo value schema)
           (le_n 4)).
Defined.

(** X15: the unconstrained schema constrains nothing: [validate] accepts
    every value under it and leaves the traversal state as it was, and
    [getValidValueOrDefault] returns every value as it is, creating no
    object. *)
Theorem unconstrainedSchema_constrains_nothing :
  forall (getRegex : string -> string -> (string -> bool) + string) (fuel : nat)
         (value : Value) (info : TraversalInfo) (next : nat),
    depth value < fuel ->
    validate getRegex fuel value unconstrainedSchema info = Normal info
    /\ getValidValueOrDefault fuel unconstrainedSchema value next = Returns value next.
Proof.
  intros getRegex fuel value info next Hfuel. split.
  - now apply validate_unconstrained.
  - now apply getValidValueOrDefault_unconstrained.
Qed.

Lemma unconstrainedSchema_constrains_nothing_witness :
  let value := VObj 1 [("a", VArr 2 [VNum 1; VNull])] in
  validate literalRegex 3 value unconstrainedSchema (newTraversalInfo value VNull)
  = Normal (newTraversalInfo value VNull)
  /\ getValidValueOrDefault 3 unconstrainedSchema value 5 = Returns value 5.
Proof.
  intro value.
  exact (unconstrainedSchema_constrains_nothing literalRegex 3 value
           (newTraversalInfo value VNull) 5 (le_n 3)).
Defined.

(** ** Reading and writing through the proxy *)

Lemma get_unfold (schema target : Value) (property : PropertyKey) :
  JsonSchemaProxyHandler.get schema target property
  = match property with
    | PSymbol _ => JsonSchemaProxyHandler.ReturnsTargetProperty property
    | _ =>
        if isArray target then
          match JsonSchemaProxyHandler.arrayKey property with
          | Some key => getGoverned schema target key
          | None => JsonSchemaProxyHandler.ReturnsTargetProperty property
          end
        else getGoverned schema target property
    end.
Proof.
  unfold JsonSchemaProxyHandler.get, getGoverned, wrapped.
  destruct property; reflexivity.
Qed.

Lemma set_unfold (getRegex : string -> string -> (string -> bool) + string)
  (fuel : nat) (schema target : Value) (property : PropertyKey) (value : Value)
  (next : nat) :
  JsonSchemaProxyHandler.set getRegex fuel schema target property value next
  = if isArray target then
      match property with
      | PName s =>
          if isDigitString s then
            if JsonSchemaProxyHandler.beyondLength (PIndex (parseInt s)) target
            then JsonSchemaProxyHandler.SetThrows (HandlerError MsgArrayIndexOutOfRange)
            else setGoverned getRegex fuel schema target (PIndex (parseInt s)) value next
          else JsonSchemaProxyHandler.Assigns property value next
      | _ => setGoverned getRegex fuel schema target property value next
      end
    else setGoverned getRegex fuel schema target property value next.
Proof.
  unfold JsonSchemaProxyHandler.set, setGoverned.
  assert (H : forall key,
             (if isNullish schema then JsonSchemaProxyHandler.SetThrows TypeError else
              match getPropertySchema schema key target with
              | KeyTypeError => JsonSchemaProxyHandler.SetThrows TypeError
              | NotPermitted =>
                  JsonSchemaProxyHandler.SetThrows
                    (HandlerError (MsgPropertyNotSupported key))
              | Resolved propertySchema _ =>
                  let '(value0, next0) := clone value next in
                  match validate getRegex fuel value0 propertySchema
                          (newTraversalInfo value0 propertySchema) with
                  | Normal _ => JsonSchemaProxyHandler.Assigns key value0 next0
                  | Throw e _ => JsonSchemaProxyHandler.SetThrows e
                  | OutOfFuel => JsonSchemaProxyHandler.SetOutOfFuel
                  end
              end)
             = (if isNullish schema then JsonSchemaProxyHandler.SetThrows TypeError else
                match getPropertySchema schema key target with
                | KeyTypeError => JsonSchemaProxyHandler.SetThrows TypeError
                | NotPermitted =>
                    JsonSchemaProxyHandler.SetThrows
                      (HandlerError (MsgPropertyNotSupported key))
                | Resolved propertySchema _ =>
                    match validate getRegex fuel (fst (clone value next)) propertySchema
                            (newTraversalInfo (fst (clone value next)) propertySchema) with
                    | Normal _ =>
                        JsonSchemaProxyHandler.Assigns key (fst (clone value next))
                          (snd (clone value next))
                    | Throw e _ => JsonSchemaProxyHandler.SetThrows e
                    | OutOfFuel => JsonSchemaProxyHandler.SetOutOfFuel
                    end
                end)).
  { intro key. now destruct (clone value next). }
  destruct (isArray target); [| apply H].
  destruct property as [s | n | id]; try apply H.
  destruct (isDigitString s); [| reflexivity].
  destruct (JsonSchemaProxyHandler.beyondLength (PIndex (parseInt s)) target);
    [reflexivity | apply H].
Qed.

Lemma wrapped_cases (value ps : Value) :
  (isArray value || isObject value = true
   /\ wrapped value ps = JsonSchemaProxyHandler.ReturnsProxy (createProxy value ps))
  \/ (isArray value || isObject value = false
      /\ wrapped value ps = JsonSchemaProxyHandler.ReturnsValue value).
Proof. destruct value; simpl; auto. Qed.

Lemma getGoverned_cases (schema target : Value) (k : PropertyKey) :
  isNullish schema = false ->
  (exists s, k = PName s) \/ (exists n, k = PIndex n) ->
  (getPropertySchema schema k target = NotPermitted
   /\ getGoverned schema target k = JsonSchemaProxyHandler.ReturnsUndefined)
  \/ (exists ps path,
         getPropertySchema schema k target = Resolved ps path
         /\ (inheritsFunction target k = true
             /\ getGoverned schema target k = JsonSchemaProxyHandler.ReturnsTargetProperty k
             \/ inheritsFunction target k = false
                /\ getGoverned schema target k = wrapped (memberThrough target k) ps)).
Proof.
  intros Hs Hk. unfold getGoverned. rewrite Hs.
  destruct (getPropertySchema schema k target) as [ps path | |] eqn:Hps.
  - right. exists ps, path. split; [reflexivity |].
    destruct (inheritsFunction target k); auto.
  - now left.
  - exfalso. destruct Hk as [[s ->] | [n ->]].
    + exact (getPropertySchema_name _ _ _ Hps).
    + exact (getPropertySchema_index _ _ _ Hps).
Qed.

Lemma string_of_nat_not_proto (n : nat) : string_of_nat n <> "__proto__".
Proof.
  unfold string_of_nat. intro H.
  pose proof (NilEmpty.usu (Nat.to_uint n)) as Hback.
  rewrite H in Hback. discriminate Hback.
Qed.

Lemma inheritsFunction_array (target : Value) (k : PropertyKey) :
  isArray target = true -> inheritsFunction target k = false.
Proof. now destruct target. Qed.

(** X16: under a schema that is not [null] or [undefined] the [get] trap
    never throws.  Under a string key it goes on with (on an array target
    that is a string of decimal digits, read as an index) it yields
    [undefined] when the key has no governing schema, and else the member:
    a primitive as it is, an array or an object wrapped in a proxy of its
    own.  The schema of that proxy is an object: the unconstrained schema, a
    value the handler's schema holds as a declared property, as
    [additionalProperties], as [items] or one of its entries or as
    [additionalItems], or [Object.prototype] under the key ["__proto__"].
    The trap does not wrap everything it hands out: under a symbol, and on
    an array target under a string that is not made of decimal digits, it
    returns [target[property]] as the engine finds it, with no schema
    consulted; apart from these two cases it returns [target[property]] bare
    only where a plain object inherits a function. *)
Theorem get_never_throws_and_wraps_containers :
  forall (schema target : Value) (property : PropertyKey),
    isNullish schema = false ->
    let result := JsonSchemaProxyHandler.get schema target property in
    (forall e, result <> JsonSchemaProxyHandler.GetThrows e)
    /\ (forall p, result = JsonSchemaProxyHandler.ReturnsProxy p ->
          isObject (proxySchema p) = true
          /\ (proxySchema p = unconstrainedSchema
              \/ In (proxySchema p) (memberSchemas schema)
              \/ (proxySchema p = objectPrototype /\ property = PName "__proto__"))
          /\ isArray (proxyTarget p) || isObject (proxyTarget p) = true)
    /\ (forall v, result = JsonSchemaProxyHandler.ReturnsValue v ->
          isArray v || isObject v = false)
    /\ (forall k, result = JsonSchemaProxyHandler.ReturnsTargetProperty k ->
          k = property
          /\ ((exists id, property = PSymbol id)
              \/ (isArray target = true
                  /\ exists s, property = PName s /\ isDigitString s = false)
              \/ inheritsFunction target property = true))
    /\ ((exists id, property = PSymbol id)
        \/ (isArray target = true
            /\ exists s, property = PName s /\ isDigitString s = false) ->
        result = JsonSchemaProxyHandler.ReturnsTargetProperty property)
    /\ (forall s key,
          property = PName s ->
          (isArray target = false /\ key = property)
          \/ (isArray target = true /\ isDigitString s = true
              /\ key = PIndex (parseInt s)) ->
          (getPropertySchema schema key target = NotPermitted ->
           result = JsonSchemaProxyHandler.ReturnsUndefined)
          /\ (forall ps path,
                getPropertySchema schema key target = Resolved ps path ->
                inheritsFunction target key = false ->
                result = wrapped (memberThrough target key) ps)).
Proof.
  intros schema target property Hs result. subst result.
  assert (Hgoverned : forall key,
             (getPropertySchema schema key target = NotPermitted ->
              getGoverned schema target key = JsonSchemaProxyHandler.ReturnsUndefined)
             /\ (forall ps path,
                   getPropertySchema schema key target = Resolved ps path ->
                   inheritsFunction target key = false ->
                   getGoverned schema target key = wrapped (memberThrough target key) ps)).
  { intro key. unfold getGoverned. rewrite Hs. split.
    - now intros ->.
    - intros ps path -> ->. reflexivity. }
  assert (Hread : forall s key,
             property = PName s ->
             (isArray target = false /\ key = property)
             \/ (isArray target = true /\ isDigitString s = true
                 /\ key = PIndex (parseInt s)) ->
             JsonSchemaProxyHandler.get schema target property
             = getGoverned schema target key).
  { intros s key -> [[Harr ->] | (Harr & Hdigits & ->)];
      rewrite get_unfold, Harr; [reflexivity |].
    cbn [JsonSchemaProxyHandler.arrayKey]. now rewrite Hdigits. }
  assert (Hlast : forall s key,
             property = PName s ->
             (isArray target = false /\ key = property)
             \/ (isArray target = true /\ isDigitString s = true
                 /\ key = PIndex (parseInt s)) ->
             (getPropertySchema schema key target = NotPermitted ->
              JsonSchemaProxyHandler.get schema target property
              = JsonSchemaProxyHandler.ReturnsUndefined)
             /\ (forall ps path,
                   getPropertySchema schema key target = Resolved ps path ->
                   inheritsFunction target key = false ->
                   JsonSchemaProxyHandler.get schema target property
                   = wrapped (memberThrough target key) ps)).
  { intros s key Hp Hkey. rewrite (Hread s key Hp Hkey). apply Hgoverned. }
  cut ((forall e, JsonSchemaProxyHandler.get schema target property
                  <> JsonSchemaProxyHandler.GetThrows e)
       /\ (forall p, JsonSchemaProxyHandler.get schema target property
                      = JsonSchemaProxyHandler.ReturnsProxy p ->
             isObject (proxySchema p) = true
             /\ (proxySchema p = unconstrainedSchema
                 \/ In (proxySchema p) (memberSchemas schema)
                 \/ (proxySchema p = objectPrototype /\ property = PName "__proto__"))
             /\ isArray (proxyTarget p) || isObject (proxyTarget p) = true)
       /\ (forall v, JsonSchemaProxyHandler.get schema target property
                      = JsonSchemaProxyHandler.ReturnsValue v ->
             isArray v || isObject v = false)
       /\ (forall k, JsonSchemaProxyHandler.get schema target property
                      = JsonSchemaProxyHandler.ReturnsTargetProperty k ->
             k = property
             /\ ((exists id, property = PSymbol id)
                 \/ (isArray target = true
                     /\ exists s, property = PName s /\ isDigitString s = false)
                 \/ inheritsFunction target property = true))
       /\ ((exists id, property = PSymbol id)
           \/ (isArray target = true
               /\ exists s, property = PName s /\ isDigitString s = false) ->
           JsonSchemaProxyHandler.get schema target property
           = JsonSchemaProxyHandler.ReturnsTargetProperty property)).
  { intros (H1 & H2 & H3 & H4 & H5). repeat (split; [assumption |]). exact Hlast. }
  clear Hgoverned Hread Hlast.
  assert (Hkey : forall k,
             (exists s, k = PName s) \/ (exists n, k = PIndex n) ->
             (forall e, getGoverned schema target k <> JsonSchemaProxyHandler.GetThrows e)
             /\ (forall p,
                    getGoverned schema target k = JsonSchemaProxyHandler.ReturnsProxy p ->
                    isObject (proxySchema p) = true
                    /\ (proxySchema p = unconstrainedSchema
                        \/ In (proxySchema p) (memberSchemas schema)
                        \/ (proxySchema p = objectPrototype
                            /\ keyString k = Some "__proto__"))
                    /\ isArray (proxyTarget p) || isObject (proxyTarget p) = true)
             /\ (forall v,
                    getGoverned schema target k = JsonSchemaProxyHandler.ReturnsValue v ->
                    isArray v || isObject v = false)
             /\ (forall k',
                    getGoverned schema target k
                    = JsonSchemaProxyHandler.ReturnsTargetProperty k' ->
                    k' = k /\ inheritsFunction target k = true)).
  { intros k Hk.
    destruct (getGoverned_cases schema target k Hs Hk)
      as [[_ ->] | (ps & path & Hps & [[Hf ->] | [Hf ->]])].
    - repeat split; intros; discriminate.
    - split; [discriminate |]. split; [discriminate |]. split; [discriminate |].
      intros k' Hk'. injection Hk' as <-. now split.
    - destruct (getPropertySchema_resolves_schema _ _ _ _ _ Hps) as [Hobj Hin].
      destruct (wrapped_cases (memberThrough target k) ps) as [[Hc ->] | [Hc ->]].
      + split; [discriminate |]. split; [| split; discriminate].
        intros p Hp. injection Hp as <-. cbn [proxySchema proxyTarget createProxy].
        auto.
      + split; [discriminate |]. split; [discriminate |]. split; [| discriminate].
        intros v Hv. injection Hv as <-. exact Hc. }
  rewrite get_unfold. destruct property as [s | n | id].
  - destruct (isArray target) eqn:Harr.
    + cbn [JsonSchemaProxyHandler.arrayKey]. destruct (isDigitString s) eqn:Hdigits.
      * destruct (Hkey (PIndex (parseInt s))) as (H1 & H2 & H3 & H4); [right; eauto |].
        split; [exact H1 |]. split; [| split; [exact H3 | split]].
        -- intros p Hp. destruct (H2 p Hp) as (Ho & [Hu | [Hin | [_ Hk]]] & Hc);
             split; auto.
           exfalso. cbn [keyString] in Hk. injection Hk as Hk.
           exact (string_of_nat_not_proto _ Hk).
        -- intros k Hk. destruct (H4 k Hk) as [_ Hf].
           rewrite inheritsFunction_array in Hf by exact Harr. discriminate Hf.
        -- intros [[id Hid] | [_ (s' & Hs' & Hd)]]; [discriminate Hid |].
           injection Hs' as <-. congruence.
      * split; [discriminate |]. split; [discriminate |]. split; [discriminate |].
        split; [| reflexivity].
        intros k Hk. injection Hk as <-. split; [reflexivity |].
        right. left. split; [reflexivity |]. now exists s.
    + destruct (Hkey (PName s)) as (H1 & H2 & H3 & H4); [left; eauto |].
      split; [exact H1 |]. split; [| split; [exact H3 | split]].
      * intros p Hp. destruct (H2 p Hp) as (Ho & [Hu | [Hin | [Hp' Hk]]] & Hc);
          split; auto.
        split; [| exact Hc]. right. right. split; [exact Hp' |].
        cbn [keyString] in Hk. now injection Hk as ->.
      * intros k Hk. destruct (H4 k Hk) as [-> Hf]. auto.
      * intros [[id Hid] | [Ha _]]; discriminate.
  - replace (if isArray target
             then match JsonSchemaProxyHandler.arrayKey (PIndex n) with
                  | Some key => getGoverned schema target key
                  | None => JsonSchemaProxyHandler.ReturnsTargetProperty (PIndex n)
                  end
             else getGoverned schema target (PIndex n))
      with (getGoverned schema target (PIndex n))
      by (now destruct (isArray target)).
    destruct (Hkey (PIndex n)) as (H1 & H2 & H3 & H4); [right; eauto |].
    split; [exact H1 |]. split; [| split; [exact H3 | split]].
    + intros p Hp. destruct (H2 p Hp) as (Ho & [Hu | [Hin | [_ Hk]]] & Hc);
        split; auto.
      exfalso. cbn [keyString] in Hk. injection Hk as Hk.
      exact (string_of_nat_not_proto _ Hk).
    + intros k Hk. destruct (H4 k Hk) as [-> Hf]. auto.
    + intros [[id Hid] | [_ (s' & Hs' & _)]]; discriminate.
  - split; [discriminate |]. split; [discriminate |]. split; [discriminate |].
    split; [| reflexivity].
    intros k Hk. injection Hk as <-. split; [reflexivity |]. left. now exists id.
Qed.

Lemma get_never_throws_and_wraps_containers_witness :
  let schema := VObj 10 [("properties", VObj 11 [("a", typeSchema 12 "array")])] in
  let target := VObj 1 [("a", VArr 2 [])] in
  (JsonSchemaProxyHandler.get schema target (PName "a")
   = JsonSchemaProxyHandler.ReturnsProxy (createProxy (VArr 2 []) (typeSchema 12 "array"))
   /\ isObject (typeSchema 12 "array") = true)
  /\ JsonSchemaProxyHandler.get schema (VArr 2 [VObj 7 []]) (PName "first")
     = JsonSchemaProxyHandler.ReturnsTargetProperty (PName "first").
Proof.
  intros schema target. split.
  - split; [reflexivity |].
    exact (proj1 (proj1 (proj2 (get_never_throws_and_wraps_containers schema target
                                  (PName "a") eq_refl))
                    (createProxy (VArr 2 []) (typeSchema 12 "array")) eq_refl)).
  - apply (proj2 (proj2 (proj2 (proj2
             (get_never_throws_and_wraps_containers schema (VArr 2 [VObj 7 []])
                (PName "first") eq_refl))))).
    right. split; [reflexivity |]. now exists "first".
Defined.


(** X17: under a schema of type [object] with [additionalProperties: false],
    a property for which the lookup [schema.properties[name]] finds no
    object is out of reach through the proxy, whether or not the target has
    it: a read yields [undefined], and a write throws "Property ... not
    supported" whatever the value.  The lookup goes through the prototype of
    [schema.properties]: under the name ["__proto__"] it finds
    [Object.prototype] unless [schema.properties] says otherwise, so that
    name is not hidden. *)
Theorem closed_schema_hides_undeclared_property :
  forall (getRegex : string -> string -> (string -> bool) + string) (fuel : nat)
         (schema : Value) (ref : nat) (props : list (string * Value)) (name : string)
         (value : Value) (next : nat),
    prop schema "type" = VStr "object" \/ prop schema "type" = VUndefined ->
    prop schema "additionalProperties" = VBool false ->
    isObject (propertyThrough (prop schema "properties") (PName name)) = false ->
    JsonSchemaProxyHandler.get schema (VObj ref props) (PName name)
    = JsonSchemaProxyHandler.ReturnsUndefined
    /\ JsonSchemaProxyHandler.set getRegex fuel schema (VObj ref props) (PName name)
         value next
       = JsonSchemaProxyHandler.SetThrows
           (HandlerError (MsgPropertyNotSupported (PName name))).
Proof.
  intros getRegex fuel schema ref props name value next Htype Hclosed Hundeclared.
  assert (Hs : isNullish schema = false).
  { destruct schema; try reflexivity; discriminate Hclosed. }
  assert (Hps : getPropertySchema schema (PName name) (VObj ref props) = NotPermitted).
  { unfold getPropertySchema, getSchemaOrValueType.
    assert (Hobj : isObject (prop schema "properties")
                   && isObject (propertyThrough (prop schema "properties") (PName name))
                   = false).
    { rewrite Hundeclared. apply andb_false_r. }
    destruct Htype as [-> | ->]; cbn [getValueType valuesAreEqual String.eqb Ascii.eqb Bool.eqb];
      rewrite Hobj; unfold resolveAdditional; now rewrite Hclosed. }
  split.
  - rewrite get_unfold. cbn [isArray]. unfold getGoverned. now rewrite Hs, Hps.
  - rewrite set_unfold. cbn [isArray]. unfold setGoverned. now rewrite Hs, Hps.
Qed.

Lemma closed_schema_hides_undeclared_property_witness :
  let schema := VObj 10 [("type", VStr "object");
                         ("properties", VObj 11 [("a", typeSchema 12 "number")]);
                         ("additionalProperties", VBool false)] in
  let target := VObj 1 [("a", VNum 1); ("b", VNum 2)] in
  JsonSchemaProxyHandler.get schema target (PName "b")
  = JsonSchemaProxyHandler.ReturnsUndefined
  /\ JsonSchemaProxyHandler.set literalRegex 3 schema target (PName "b") (VNum 5) 20
     = JsonSchemaProxyHandler.SetThrows
         (HandlerError (MsgPropertyNotSupported (PName "b"))).
Proof.
  intros schema target.
  exact (closed_schema_hides_undeclared_property literalRegex 3 schema 1
           [("a", VNum 1); ("b", VNum 2)] "b" (VNum 5) 20
           (or_introl eq_refl) eq_refl eq_refl).
Defined.

Lemma nth_setItem (i j : nat) (v : Value) (items : list Value) :
  i < List.length items ->
  nth j (setItem i v items) VUndefined = if j =? i then v else nth j items VUndefined.
Proof.
  intro Hi. destruct (Nat.eqb_spec j i) as [-> | Hne].
  - now apply nth_setItem_same.
  - apply nth_setItem_other. congruence.
Qed.




(** ** Writes and deletions keep a valid target valid *)

Lemma validate_flat (getRegex : string -> string -> (string -> bool) + string)
  (fuel : nat) (value schema : Value) (info : TraversalInfo) :
  noCombinators schema = true ->
  validate getRegex (S fuel) value schema info
  = validateSingleSchema getRegex (validate getRegex fuel) value schema info.
Proof.
  unfold noCombinators. intro H.
  repeat (apply andb_true_iff in H; destruct H as [H ?]).
  cbn [validate]. unfold validateStep.
  destruct (validateSingleSchema getRegex (validate getRegex fuel) value schema info)
    as [i | e i |]; try reflexivity.
  cbn [andThen]. unfold validateConditional. rewrite H. cbn [andThen].
  unfold validateAllOf, validateAnyOf, validateOneOf, validateNoneOf.
  destruct (prop schema "allOf"); try discriminate;
    destruct (prop schema "anyOf"); try discriminate;
    destruct (prop schema "oneOf"); try discriminate;
    destruct (prop schema "not"); try discriminate; reflexivity.
Qed.

Lemma valuesAreEqual_VObj (ref : nat) (props props' : list (string * Value)) (c : Value) :
  valuesAreEqual (VObj ref props) c = valuesAreEqual (VObj ref props') c.
Proof. now destruct c. Qed.


Lemma existsb_same {A : Type} (f g : A -> bool) (l : list A) :
  (forall x, f x = g x) -> existsb f l = existsb g l.
Proof.
  intro H. induction l as [| x l IH]; simpl; [reflexivity |]. now rewrite H, IH.
Qed.

(** The checks of [validateSingleSchema] that come before the members look
    at an array or an object only for its type and its identity. *)
Lemma validateSingleSchema_same_identity
  (getRegex : string -> string -> (string -> bool) + string)
  (rec : Value -> Value -> TraversalInfo -> Completion)
  (value value' schema : Value) (info i1 i2 : TraversalInfo) :
  getValueType value' = getValueType value ->
  floorIsSelf value' = floorIsSelf value ->
  (forall c, valuesAreEqual value' c = valuesAreEqual value c) ->
  validateSingleSchema getRegex rec value schema info = Normal i1 ->
  match value' with
  | VNum n => validateNumber n schema info = Normal i2
  | VStr s => validateString getRegex s schema info = Normal i2
  | VArr _ _ => validateArray rec value' schema info = Normal i2
  | VObj _ _ => validateObject rec value' schema info = Normal i2
  | _ => i2 = info
  end ->
  validateSingleSchema getRegex rec value' schema info = Normal i2.
Proof.
  intros Htype Hfloor Heq H H'.
  apply validateSingleSchema_Normal in H. destruct H as (Hs & Hfit & Hc & He & _).
  unfold validateSingleSchema. rewrite Hs.
  rewrite (isValueTypeAny_kind value' value) by assumption.
  rewrite Hfit. cbn [negb throwIf andThen].
  assert (Hconst : negb (valuesAreEqual (prop schema "const") VUndefined)
                   && negb (valuesAreEqual value' (prop schema "const")) = false).
  { destruct (valuesAreEqual (prop schema "const") VUndefined); [reflexivity |].
    rewrite Heq, Hc by reflexivity. reflexivity. }
  rewrite Hconst. cbn [throwIf andThen].
  assert (Henum : match prop schema "enum" with
                  | VArr _ schemaEnum => negb (valuesAreEqualAny value' schemaEnum)
                  | _ => false
                  end = false).
  { destruct (prop schema "enum") as [| | | | | r candidates |] eqn:Hr; try reflexivity.
    unfold valuesAreEqualAny.
    rewrite (existsb_same _ (valuesAreEqual value) candidates Heq).
    apply negb_false_iff. exact (He r candidates eq_refl). }
  rewrite Henum. cbn [throwIf andThen].
  destruct value'; try exact H'; now subst.
Qed.


Lemma memberAccepted_kind (getRegex : string -> string -> (string -> bool) + string)
  (fuel : nat) (schema container container' : Value) (key : PropertyKey) :
  getValueType container' = getValueType container ->
  member container' key = member container key ->
  memberAccepted getRegex fuel schema container key ->
  memberAccepted getRegex fuel schema container' key.
Proof.
  intros Hkind Hmember (ps & path & Hps & Hacc). exists ps, path.
  rewrite (getPropertySchema_kind schema key container' container Hkind), Hmember.
  now split.
Qed.






(** X21: [deleteProperty] refuses to delete a property that a [required]
    list of the schema names: it throws "... cannot be deleted".  Under a
    schema that is not [null] or [undefined] it performs the deletion of
    every other property.  So a deletion through the proxy keeps a valid
    object valid, when the schema asks nothing through [if], [allOf],
    [anyOf], [oneOf] or [not]. *)
Theorem deleteProperty_guards_required :
  forall (getRegex : string -> string -> (string -> bool) + string) (fuel : nat)
         (schema : Value) (ref : nat) (props : list (string * Value)) (name : string),
    (forall r required,
        prop schema "required" = VArr r required ->
        In (VStr name) required ->
        JsonSchemaProxyHandler.deleteProperty schema (VObj ref props) (PName name)
        = JsonSchemaProxyHandler.DeleteThrows
            (JsonSchemaProxyHandler.CannotBeDeleted (PName name)))
    /\ (isNullish schema = false ->
        ~ In (VStr name) (requiredList schema) ->
        JsonSchemaProxyHandler.deleteProperty schema (VObj ref props) (PName name)
        = JsonSchemaProxyHandler.Deletes (PName name))
    /\ (forall key info info',
           noCombinators schema = true ->
           validate getRegex (S fuel) (VObj ref props) schema info = Normal info' ->
           JsonSchemaProxyHandler.deleteProperty schema (VObj ref props) (PName name)
           = JsonSchemaProxyHandler.Deletes key ->
           key = PName name
           /\ exists info'',
                validate getRegex (S fuel) (VObj ref (deleteProp name props)) schema info
                = Normal info'').
Proof.
  intros getRegex fuel schema ref props name. split; [| split].
  - intros r required Hr Hin. unfold JsonSchemaProxyHandler.deleteProperty.
    assert (Hs : isNullish schema = false) by (destruct schema; try reflexivity; discriminate).
    rewrite Hs, Hr. cbn [JsonSchemaProxyHandler.includes].
    assert (Hinc : existsb (valuesAreEqual (VStr name)) required = true).
    { apply existsb_exists. exists (VStr name). split; [exact Hin |].
      simpl. apply String.eqb_refl. }
    now rewrite Hinc.
  - intros Hs Hfree. unfold JsonSchemaProxyHandler.deleteProperty. rewrite Hs.
    unfold requiredList in Hfree.
    destruct (prop schema "required") as [| | | | | r required |]; try reflexivity.
    cbn [JsonSchemaProxyHandler.includes].
    destruct (existsb (valuesAreEqual (VStr name)) required) eqn:Hex; [| reflexivity].
    exfalso. apply Hfree. apply existsb_exists in Hex. destruct Hex as (c & Hc & Heq).
    destruct c; try discriminate Heq. simpl in Heq. apply String.eqb_eq in Heq.
    now subst.
  - intros key info info' Hflat Hvalid Hdelete.
    assert (Hkey : key = PName name
                   /\ forall r required, prop schema "required" = VArr r required ->
                                         ~ In (VStr name) required).
    { unfold JsonSchemaProxyHandler.deleteProperty in Hdelete.
      destruct (isNullish schema); [discriminate Hdelete |].
      destruct (prop schema "required") as [| | | | | r required |] eqn:Hr;
        try (injection Hdelete as <-; split; [reflexivity | discriminate]).
      cbn [JsonSchemaProxyHandler.includes] in Hdelete.
      destruct (existsb (valuesAreEqual (VStr name)) required) eqn:Hex;
        [discriminate Hdelete |].
      injection Hdelete as <-. split; [reflexivity |].
      intros r' required' Heq Hin. injection Heq as _ <-.
      apply not_true_iff_false in Hex. apply Hex.
      apply existsb_exists. exists (VStr name). split; [exact Hin |].
      simpl. apply String.eqb_refl. }
    destruct Hkey as [-> Hfree]. split; [reflexivity |].
    rewrite validate_flat in Hvalid |- * by exact Hflat.
    pose proof Hvalid as Hsingle.
    apply validateSingleSchema_Normal in Hsingle.
    destruct Hsingle as (_ & _ & _ & _ & Hobject).
    assert (Hbefore : exists i, validateObject (validate getRegex fuel) (VObj ref props)
                                  schema info = Normal i) by eauto.
    apply validateObject_accepted in Hbefore. destruct Hbefore as [Hrequired Hmembers].
    assert (Hafter : exists i, validateObject (validate getRegex fuel)
                                 (VObj ref (deleteProp name props)) schema info
                               = Normal i).
    { apply validateObject_accepted. split.
      - intros r required Hr e He.
        destruct (Hrequired r required Hr e He) as (p & -> & Hp).
        exists p. split; [reflexivity |]. apply In_deleteProp. split; [| exact Hp].
        intros ->. exact (Hfree r required Hr He).
      - intros p Hp. apply In_deleteProp in Hp. destruct Hp as [Hne Hp].
        apply (memberAccepted_kind getRegex fuel schema (VObj ref props));
          [reflexivity | | now apply Hmembers].
        rewrite !member_name.
        rewrite lookup_deleteProp_other; [reflexivity | congruence]. }
    destruct Hafter as [i Hafter]. exists i.
    exact (validateSingleSchema_same_identity getRegex _ (VObj ref props)
             (VObj ref (deleteProp name props)) schema info info' i eq_refl eq_refl
             (fun c => valuesAreEqual_VObj ref _ _ c) Hvalid Hafter).
Qed.

Lemma deleteProperty_guards_required_witness :
  let schema := VObj 10 [("type", VStr "object"); ("required", VArr 13 [VStr "a"])] in
  let props := [("a", VNum 1); ("b", VNum 2)] in
  JsonSchemaProxyHandler.deleteProperty schema (VObj 1 props) (PName "a")
  = JsonSchemaProxyHandler.DeleteThrows
      (JsonSchemaProxyHandler.CannotBeDeleted (PName "a"))
  /\ JsonSchemaProxyHandler.deleteProperty schema (VObj 1 props) (PName "b")
     = JsonSchemaProxyHandler.Deletes (PName "b")
  /\ exists info'',
       validate literalRegex 4 (VObj 1 [("a", VNum 1)]) schema
         (newTraversalInfo (VObj 1 props) schema) = Normal info''.
Proof.
  intros schema props. split; [| split].
  - exact (proj1 (deleteProperty_guards_required literalRegex 3 schema 1 props "a")
             13 [VStr "a"] eq_refl (or_introl eq_refl)).
  - apply (proj1 (proj2 (deleteProperty_guards_required literalRegex 3 schema 1 props "b")));
      [reflexivity |].
    intros [H | []]. discriminate H.
  - exact (proj2 (proj2 (proj2
                    (deleteProperty_guards_required literalRegex 3 schema 1 props "b"))
                    (PName "b") (newTraversalInfo (VObj 1 props) schema)
                    (newTraversalInfo (VObj 1 props) schema) eq_refl eq_refl eq_refl)).
Defined.

(** ** What [getValidValueOrDefault] does to a value *)

Lemma populateItems_length (rec : Value -> Value -> nat -> Outcome Value)
  (schema : Value) (ref : nat) (count i : nat) (items : list Value) (n : nat)
  (items' : list Value) (n' : nat) :
  populateItems rec schema ref i count items n = Returns items' n' ->
  List.length items' = List.length items.
Proof.
  revert i items n. induction count as [| count IH]; intros i items n H.
  - cbn in H. now injection H as <- <-.
  - cbn [populateItems] in H.
    destruct (getPropertySchema schema (PIndex i) (VArr ref items)) as [ps path | |];
      [| eauto | discriminate H].
    destruct (rec ps (nth i items VUndefined) n) as [v n1 | e |]; try discriminate H.
    rewrite (IH _ _ _ H). apply length_setItem.
Qed.

Lemma populateArrayDefaults_shape (rec : Value -> Value -> nat -> Outcome Value)
  (schema : Value) (ref : nat) (items : list Value) (n : nat) (result : Value) (n' : nat) :
  populateArrayDefaults rec (VArr ref items) schema n = Returns result n' ->
  exists items', result = VArr ref items' /\ List.length items' = List.length items.
Proof.
  unfold populateArrayDefaults.
  destruct (populateItems rec schema ref 0 (List.length items) items n)
    as [items' n1 | e |] eqn:H; try discriminate.
  intro E. injection E as <- <-. exists items'. split; [reflexivity |].
  eapply populateItems_length; eauto.
Qed.

(** The two loops of [populateObjectDefaults], one after the other. *)
Lemma populateObjectDefaults_loops (rec : Value -> Value -> nat -> Outcome Value)
  (schema : Value) (ref : nat) (props : list (string * Value)) (n : nat)
  (result : Value) (n' : nat) :
  populateObjectDefaults rec (VObj ref props) schema n = Returns result n' ->
  exists propsR namesR n1 props',
    populateRequired rec schema ref (requiredList schema) props (map fst props) n
    = Returns (propsR, namesR) n1
    /\ populateRemaining rec schema ref namesR propsR n1 = Returns props' n'
    /\ result = VObj ref props'.
Proof.
  unfold populateObjectDefaults, requiredList.
  assert (Hsame : match prop schema "required" with
                  | VArr _ required =>
                      populateRequired rec schema ref required props (map fst props) n
                  | _ => Returns (props, map fst props) n
                  end
                  = populateRequired rec schema ref
                      match prop schema "required" with
                      | VArr _ required => required
                      | _ => []
                      end props (map fst props) n)
    by (now destruct (prop schema "required")).
  rewrite Hsame.
  destruct (populateRequired rec schema ref _ props (map fst props) n)
    as [[propsR namesR] n1 | e |]; try discriminate.
  destruct (populateRemaining rec schema ref namesR propsR n1)
    as [props' n2 | e |] eqn:Hrem; try discriminate.
  intro E. injection E as <- <-. now exists propsR, namesR, n1, props'.
Qed.



(** X23: the properties of the object [getValidValueOrDefault] returns,
    for a [required] that lists property names, as the specification has
    it.  Every name in [schema.required] that has a governing schema is a
    property of it, created if it was missing; the one name this is not
    said of is ["__proto__"], under which an assignment goes to the accessor
    of [Object.prototype].  Every property of it has a governing schema or
    is named in [schema.required]: any other property has been deleted.
    And when the value is an object that fits the type, the result is that
    object, and has no property that the value had not, apart from the names
    in [schema.required]. *)
Theorem getValidValueOrDefault_object_properties :
  forall (fuel : nat) (schema value : Value) (next : nat)
         (ref : nat) (props' : list (string * Value)) (next' : nat),
    getValidValueOrDefault fuel schema value next = Returns (VObj ref props') next' ->
    (forall e, In e (requiredList schema) -> isString e = true) ->
    (forall p, In (VStr p) (requiredList schema) ->
               getPropertySchema schema (PName p) (VObj ref props') <> NotPermitted ->
               p <> "__proto__" ->
               In p (map fst props'))
    /\ (forall q, In q (map fst props') ->
                  ~ In (VStr q) (requiredList schema) ->
                  getPropertySchema schema (PName q) (VObj ref props') <> NotPermitted)
    /\ (forall r props,
          value = VObj r props ->
          isValueTypeAny value (getValueType value) (prop schema "type") = true ->
          r = ref
          /\ forall q, In q (map fst props') ->
                       In q (map fst props) \/ In (VStr q) (requiredList schema)).
Proof.
  intros fuel schema value next ref props' next' H Hstrings.
  destruct fuel as [| fuel]; [discriminate H |].
  cbn [getValidValueOrDefault] in H.
  assert (Hs : isNullish schema = false).
  { unfold getValidValueOrDefaultStep in H.
    destruct (isNullish schema); [discriminate H | reflexivity]. }
  rewrite getValidValueOrDefaultStep_chosen in H by exact Hs.
  assert (Hrec : forall ps x k v k',
             getValidValueOrDefault fuel ps x k = Returns v k' ->
             fixedAt (getValidValueOrDefault fuel) anyStep ps v).
  { intros ps x k v k' Hv m.
    destruct (getValidValueOrDefault_again _ _ _ _ _ _ Hv m) as [m' Hm].
    exists m'. split; [exact I | exact Hm]. }
  destruct (fst (chooseValue schema value next))
    as [| | b | q | s | r items | r props] eqn:Hchosen; try discriminate H.
  - apply populateArrayDefaults_shape in H. destruct H as (items' & H & _).
    discriminate H.
  - apply populateObjectDefaults_loops in H.
    destruct H as (propsR & namesR & n1 & props1 & Hreq & Hrem & Hresult).
    injection Hresult as Href Hprops. subst r props1.
    destruct (populateRequired_settles _ schema ref Hrec _ _ _ _ _ _ _ Hreq)
      as (Hnames & _ & _ & Hfrom & Hcreated).
    destruct (populateRemaining_settles _ schema ref Hrec _ _ _ _ _ Hrem)
      as (_ & Hkept & Hleft).
    split; [| split].
    + intros p Hp Hgoverned Hname. apply Hkept.
      * destruct (Hcreated p Hp) as [Hown | Hreach];
          [now rewrite (getPropertySchema_kind schema _ _ (VObj ref props')) |
           exact Hown |].
        unfold reachesAccessor in Hreach. cbn [keyString] in Hreach.
        destruct (lookup p propsR); [discriminate Hreach |].
        apply String.eqb_eq in Hreach. contradiction.
      * rewrite Hnames, In_namesLeft. tauto.
    + intros q Hq Hfree Hnone.
      destruct (Hleft q Hq) as [Hwhere Hgoverned].
      destruct (in_dec string_dec q namesR) as [Hin | Hout].
      * apply (Hgoverned Hin).
        now rewrite (getPropertySchema_kind schema _ _ (VObj ref props')).
      * destruct Hwhere as [HR | Hin]; [| contradiction].
        destruct (Hfrom q HR) as [Hbefore | [Hrequired _]]; [| contradiction].
        apply Hout. rewrite Hnames, In_namesLeft. tauto.
    + intros r0 props0 -> Hfits.
      assert (Hsame : chooseValue schema (VObj r0 props0) next = (VObj r0 props0, next))
        by (unfold chooseValue; now rewrite Hfits).
      rewrite Hsame in Hchosen. cbn [fst] in Hchosen.
      injection Hchosen as -> ->. split; [reflexivity |].
      intros q Hq. destruct (Hleft q Hq) as [[HR | Hin] _].
      * destruct (Hfrom q HR) as [Hbefore | [Hrequired _]]; [now left | now right].
      * left. rewrite Hnames in Hin. apply In_namesLeft in Hin. tauto.
Qed.

Lemma getValidValueOrDefault_object_properties_witness :
  let schema :=
    VObj 10 [("type", VStr "object");
             ("properties", VObj 12 [("a", typeSchema 11 "number")]);
             ("required", VArr 13 [VStr "a"; VStr "__proto__"]);
             ("additionalProperties", VBool false)] in
  let props' := [("a", VNum 0)] in
  (forall p, In (VStr p) (requiredList schema) ->
             getPropertySchema schema (PName p) (VObj 1 props') <> NotPermitted ->
             p <> "__proto__" ->
             In p (map fst props'))
  /\ (forall q, In q (map fst props') ->
                ~ In (VStr q) (requiredList schema) ->
                getPropertySchema schema (PName q) (VObj 1 props') <> NotPermitted)
  /\ (forall r props,
        VObj 1 [("b", VNum 2)] = VObj r props ->
        isValueTypeAny (VObj 1 [("b", VNum 2)]) (getValueType (VObj 1 [("b", VNum 2)]))
          (prop schema "type") = true ->
        r = 1
        /\ forall q, In q (map fst props') ->
                     In q (map fst props) \/ In (VStr q) (requiredList schema)).
Proof.
  intros schema props'.
  apply (getValidValueOrDefault_object_properties 9 schema (VObj 1 [("b", VNum 2)]) 100
           1 props' 100 eq_refl).
  intros e [<- | [<- | []]]; reflexivity.
Defined.

(** ** What [validate] leaves on the stacks *)

(** X26: what does hold of the two stacks.  Whether [validate] returns or
    throws, both stacks keep the entries they had when it was entered, below
    whatever it left on them; and a [validate] that returns normally over a
    schema with no [if], [anyOf], [oneOf] or [not] at any depth leaves both
    stacks exactly as they were. *)
Theorem traversal_stacks_keep_entries :
  forall (getRegex : string -> string -> (string -> bool) + string) (fuel : nat)
         (value schema : Value) (info : TraversalInfo),
    (forall info',
        (validate getRegex fuel value schema info = Normal info'
         \/ exists e, validate getRegex fuel value schema info = Throw e info') ->
        keepsEntries info' info)
    /\ (catchFree schema = true ->
        forall info',
          validate getRegex fuel value schema info = Normal info' -> info' = info).
Proof.
  intros getRegex fuel value schema info. split.
  - intros info' H. pose proof (validate_kept getRegex fuel value schema info) as Hk.
    destruct H as [H | [e H]]; rewrite H in Hk; exact Hk.
  - intros Hs info' H.
    pose proof (validate_restored getRegex fuel value schema info Hs) as Hr.
    rewrite H in Hr. exact Hr.
Qed.

Lemma traversal_stacks_keep_entries_witness :
  let schema :=
    VObj 10 [("type", VStr "object");
             ("properties", VObj 12 [("a", typeSchema 11 "number")]);
             ("allOf", VArr 13 [VObj 14 [("required", VArr 15 [VStr "a"])]])] in
  let value := VObj 1 [("a", VNum 1)] in
  let wrong := VObj 2 [("a", VStr "x")] in
  catchFree schema = true
  /\ JsonSchema_validate literalRegex 5 value schema
     = Normal (newTraversalInfo value schema)
  /\ keepsEntries
       (mkInfo [(Some (PName "a"), VStr "x"); (None, wrong)]
          [(Some (PName "a"), typeSchema 11 "number");
           (Some (PName "properties"), VObj 12 [("a", typeSchema 11 "number")]);
           (None, schema)])
       (newTraversalInfo wrong schema).
Proof.
  intros schema value wrong. split; [reflexivity | split].
  - pose proof (proj2 (traversal_stacks_keep_entries literalRegex 5 value schema
                         (newTraversalInfo value schema)) eq_refl) as H.
    unfold JsonSchema_validate.
    destruct (validate literalRegex 5 value schema (newTraversalInfo value schema))
      as [info' | e info' |] eqn:Hv; [| discriminate Hv | discriminate Hv].
    now rewrite (H info' eq_refl).
  - apply (proj1 (traversal_stacks_keep_entries literalRegex 5 wrong schema
                    (newTraversalInfo wrong schema))).
    right.
    exists (ValidationError (MsgTypeMismatch "string" (VStr "number")) (VStr "x")
              (typeSchema 11 "number")).
    reflexivity.
Defined.

Lemma validateAnyOfFrom_leaves (getRegex : string -> string -> (string -> bool) + string)
  (fuel : nat) (value schema : Value) (subSchemas : list Value) (i : nat)
  (info info' : TraversalInfo) :
  validateAnyOfFrom (validate getRegex fuel) value schema subSchemas i info = Normal info' ->
  exists k s above between,
    nth_error subSchemas k = Some s
    /\ schemaPath info'
       = above ++ (Some (PIndex (i + k)), s) :: between ++ schemaPath info.
Proof.
  revert i info. induction subSchemas as [| s rest IH]; intros i info H;
    [discriminate H |].
  cbn [validateAnyOfFrom] in H.
  pose proof (validate_kept getRegex fuel value s
                (schemaPush (Some (PIndex i)) s info)) as Hkept.
  destruct (validate getRegex fuel value s (schemaPush (Some (PIndex i)) s info))
    as [i1 | e i1 |]; [| | discriminate H].
  - injection H as <-. destruct Hkept as [_ [above Habove]].
    exists 0, s, above, []. split; [reflexivity |].
    rewrite Habove, Nat.add_0_r. reflexivity.
  - destruct (IH _ _ H) as (k & s' & above & between & Hk & Hpath).
    destruct Hkept as [_ Hkept]. cbn [schemaPath schemaPush] in Hkept.
    apply onTopOf_tl in Hkept. destruct Hkept as [pushed Hpushed].
    exists (S k), s', above, (between ++ pushed). split; [exact Hk |].
    rewrite Hpath. cbn [schemaPath schemaPop]. rewrite Hpushed.
    replace (S i + k) with (i + S k) by lia.
    now rewrite <- (app_assoc between pushed).
Qed.

(** X24: when [validateAnyOf] succeeds it returns from inside its loop, and
    pops nothing: the schema stack it leaves holds, above the entries it
    started with, the entry for [anyOf] and the entry for the sub-schema
    that matched, so it is at least two entries deeper than before. *)
Theorem anyOf_success_leaves_entries :
  forall (getRegex : string -> string -> (string -> bool) + string) (fuel : nat)
         (value schema : Value) (ref : nat) (subSchemas : list Value)
         (info info' : TraversalInfo),
    prop schema "anyOf" = VArr ref subSchemas ->
    validateAnyOf (validate getRegex fuel) value schema info = Normal info' ->
    (exists k s above between,
        nth_error subSchemas k = Some s
        /\ schemaPath info'
           = above ++ (Some (PIndex k), s)
               :: between ++ (Some (PName "anyOf"), VArr ref subSchemas)
               :: schemaPath info)
    /\ 2 + List.length (schemaPath info) <= List.length (schemaPath info').
Proof.
  intros getRegex fuel value schema ref subSchemas info info' Hprop H.
  unfold validateAnyOf in H. rewrite Hprop in H.
  apply validateAnyOfFrom_leaves in H.
  destruct H as (k & s & above & between & Hk & Hpath).
  cbn [schemaPath schemaPush plus] in Hpath.
  split.
  - now exists k, s, above, between.
  - rewrite Hpath. rewrite length_app. cbn [List.length]. rewrite length_app.
    cbn [List.length]. lia.
Qed.

Lemma anyOf_success_leaves_entries_witness :
  let schema := VObj 10 [("anyOf", VArr 11 [typeSchema 12 "string"; typeSchema 13 "number"])] in
  let info := newTraversalInfo (VNum 2) schema in
  let info' :=
    mkInfo [(None, VNum 2)]
      [(Some (PIndex 1), typeSchema 13 "number");
       (Some (PName "anyOf"), VArr 11 [typeSchema 12 "string"; typeSchema 13 "number"]);
       (None, schema)] in
  2 + List.length (schemaPath info) <= List.length (schemaPath info').
Proof.
  intros schema info info'.
  exact (proj2 (anyOf_success_leaves_entries literalRegex 3 (VNum 2) schema 11
                  [typeSchema 12 "string"; typeSchema 13 "number"] info info'
                  eq_refl eq_refl)).
Defined.

(** ** Under a plain schema the repaired value validates *)










Lemma numberField_absent (schema : Value) (name : string) (test : Q -> bool) :
  givesNumber schema name = false -> numberField schema name test = false.
Proof.
  unfold givesNumber, numberField. now destruct (prop schema name).
Qed.






